(** * JustPlug plugin manager: a shallow embedding of [src/pluginmanager.cpp]

    The development follows the source file top-down: return codes, the
    metadata structures, the [Plugin] record, the private manager state
    with [parseMetadata], [checkDependencies] and [unloadPlugin], and then
    the public operations [searchForPlugins], [loadPlugins],
    [unloadPlugins] and the getters.

    Stateful code is written in state-passing style.  Every operation also
    returns the list of observable events it caused (callback invocations,
    library loads and unloads, factory calls and plugin notifications), in
    the order in which the source performs them. *)

From Stdlib Require Import String Ascii ZArith Bool Arith Lia List.
Import ListNotations.
Open Scope string_scope.
Open Scope list_scope.
Set Warnings "-register-all".

(** ** ReturnCode *)

Inductive ReturnCode : Type :=
| SUCCESS
| UNKNOWN_ERROR
| SEARCH_NOTHING_FOUND
| SEARCH_CANNOT_PARSE_METADATA
| SEARCH_NAME_ALREADY_EXISTS
| SEARCH_LISTFILES_ERROR
| LOAD_DEPENDENCY_BAD_VERSION
| LOAD_DEPENDENCY_NOT_FOUND
| LOAD_DEPENDENCY_CYCLE
| UNLOAD_NOT_ALL.

(** [ReturnCode::operator bool]: the header is not part of the sources; the
    constructor [ReturnCode(const bool&)] maps [true] to the enumerator 0,
    which is [SUCCESS], and the callers test [!retCode] for failure. *)
Definition to_bool (c : ReturnCode) : bool :=
  match c with SUCCESS => true | _ => false end.

(** [ReturnCode::message] *)
Definition message (c : ReturnCode) : string :=
  match c with
  | SUCCESS => "Success"
  | UNKNOWN_ERROR => "Unknown error"
  | SEARCH_NOTHING_FOUND => "No plugins was found in that directory"
  | SEARCH_CANNOT_PARSE_METADATA =>
      "Plugins metadata cannot be parsed (maybe they are invalid ?)"
  | SEARCH_NAME_ALREADY_EXISTS => "A plugin with the same name was already found"
  | SEARCH_LISTFILES_ERROR => "An error occurs during the scan of the plugin dir"
  | LOAD_DEPENDENCY_BAD_VERSION =>
      "The plugin requires a dependency that's in an incorrect version"
  | LOAD_DEPENDENCY_NOT_FOUND => "The plugin requires a dependency that wasn't found"
  | LOAD_DEPENDENCY_CYCLE =>
      "The dependencies graph contains a cycle, which makes impossible to load plugins"
  | UNLOAD_NOT_ALL => "Not all plugins have been unloaded"
  end.

(** ** TriBool ([private/tribool.h]): the three values the source uses. *)

Inductive TriBool : Type := TriTrue | TriFalse | Indeterminate.

Definition indeterminate (t : TriBool) : bool :=
  match t with Indeterminate => true | _ => false end.

Definition is_true (t : TriBool) : bool :=
  match t with TriTrue => true | _ => false end.

(** ** Metadata structures *)

(** [PluginInfoStd::Dependency] *)
Record Dependency : Type := mkDependency {
  dep_name : string;
  dep_version : string
}.

(** [PluginInfoStd] *)
Record PluginInfoStd : Type := mkPluginInfoStd {
  name : string;
  prettyName : string;
  version : string;
  author : string;
  url : string;
  license : string;
  copyright : string;
  dependencies : list Dependency
}.

(** The default-constructed [PluginInfoStd()]: every string empty. *)
Definition emptyInfo : PluginInfoStd :=
  mkPluginInfoStd "" "" "" "" "" "" "" [].

(** [jp::Dependency] and [PluginInfo], the C structures handed to the user.
    A [const char*] is an optional string: [None] is the null pointer of a
    default-constructed [PluginInfo]. *)
Record CDependency : Type := mkCDependency {
  c_dep_name : option string;
  c_dep_version : option string
}.

Record PluginInfo : Type := mkPluginInfo {
  c_name : option string;
  c_prettyName : option string;
  c_version : option string;
  c_author : option string;
  c_url : option string;
  c_license : option string;
  c_copyright : option string;
  c_dependencies : list CDependency;
  dependenciesNb : nat
}.

Definition nullInfo : PluginInfo :=
  mkPluginInfo None None None None None None None [] 0.

(** [std::string::c_str] read back as a C string: the characters before the
    first NUL. *)
Fixpoint c_str (s : string) : string :=
  match s with
  | EmptyString => EmptyString
  | String c r => if Ascii.eqb c zero then EmptyString else String c (c_str r)
  end.

Definition strdup (s : string) : option string := Some (c_str s).

(** [PluginInfoStd::toPluginInfo] *)
Definition toPluginInfo (i : PluginInfoStd) : PluginInfo :=
  let depList :=
    map (fun dep => mkCDependency (strdup (dep_name dep)) (strdup (dep_version dep)))
        (dependencies i) in
  mkPluginInfo (strdup (name i)) (strdup (prettyName i)) (strdup (version i))
               (strdup (author i)) (strdup (url i)) (strdup (license i))
               (strdup (copyright i)) depList (length (dependencies i)).

(** ** Shared libraries

    Modelled from the spec: [SharedLibrary] ([sharedlibrary.h] is not among
    the sources).  The manager uses [load], [isLoaded], [hasSymbol], [get]
    and [unload].  A file on disk is described by what loading it yields:
    whether the image loads at all, which of the three plugin symbols it
    exports and with which contents, and how many [unload] requests the
    operating system refuses before it honours one (the source tests
    [isLoaded()] after [unload()] and reports [UNLOAD_NOT_ALL], so a
    refused unload leaves the image loaded). *)
Record LibraryFile : Type := mkLibraryFile {
  loadable : bool;
  jp_name : option string;
  jp_metadata : option string;
  jp_createPlugin : bool;
  unload_refusals : nat
}.

Record SharedLibrary : Type := mkSharedLibrary {
  lib_path : string;
  image : option LibraryFile;
  refusals : nat
}.

Definition noLibrary : SharedLibrary := mkSharedLibrary "" None 0.

Definition isLoaded (l : SharedLibrary) : bool :=
  match image l with Some _ => true | None => false end.

Definition hasSymbol (l : SharedLibrary) (sym : LibraryFile -> bool) : bool :=
  match image l with Some f => sym f | None => false end.

Definition has_jp_name (f : LibraryFile) : bool :=
  match jp_name f with Some _ => true | None => false end.

Definition has_jp_metadata (f : LibraryFile) : bool :=
  match jp_metadata f with Some _ => true | None => false end.

(** ** Observable events *)

(** The plugin object built by a library's factory; it is identified by the
    registry key of the record that owns it. *)
Inductive IPlugin : Type := instance_of (key : string).

Inductive Event : Type :=
| Callback (code : ReturnCode) (detail : option string)
    (* callbackFunc(code, detail); [None] is the nullptr detail *)
| LibLoad (path : string)
    (* lib.load(path) succeeded *)
| LibUnload (path : string) (released : bool)
    (* lib.unload() on a loaded image; [released] = the image is gone *)
| Leaked (path : string)
    (* a [Plugin] was destroyed while its image was still loaded *)
| Created (key : string)
    (* the factory jp_createPlugin of the record was invoked *)
| Loaded (key : string)
    (* iplugin->loaded() *)
| AboutToBeUnloaded (i : IPlugin).
    (* iplugin->aboutToBeUnloaded() *)

(** [if(callbackFunc) callbackFunc(code, detail)]; [cb] tells whether the
    caller supplied a callback. *)
Definition callback (cb : bool) (code : ReturnCode) (detail : option string)
  : list Event :=
  if cb then [Callback code detail] else [].

(** [SharedLibrary::load] *)
Definition load (dlopen : string -> LibraryFile) (path : string)
  : SharedLibrary * list Event :=
  let f := dlopen path in
  if loadable f
  then (mkSharedLibrary path (Some f) (unload_refusals f), [LibLoad path])
  else (mkSharedLibrary path None 0, []).

(** [SharedLibrary::unload] *)
Definition unload (l : SharedLibrary) : SharedLibrary * list Event :=
  match image l with
  | None => (l, [])
  | Some f =>
      match refusals l with
      | O => (mkSharedLibrary (lib_path l) None 0, [LibUnload (lib_path l) true])
      | S n => (mkSharedLibrary (lib_path l) (Some f) n, [LibUnload (lib_path l) false])
      end
  end.

(** ** Plugin *)

Record Plugin : Type := mkPlugin {
  iplugin : option IPlugin;
  creator : bool;
  lib : SharedLibrary;
  path : string;
  info : PluginInfoStd;
  dependenciesExists : TriBool;
  graphId : Z
}.

(** [Plugin() = default] *)
Definition newPlugin : Plugin :=
  mkPlugin None false noLibrary "" emptyInfo Indeterminate (-1).

Definition set_iplugin (v : option IPlugin) (p : Plugin) : Plugin :=
  mkPlugin v (creator p) (lib p) (path p) (info p) (dependenciesExists p) (graphId p).
Definition set_creator (v : bool) (p : Plugin) : Plugin :=
  mkPlugin (iplugin p) v (lib p) (path p) (info p) (dependenciesExists p) (graphId p).
Definition set_lib (v : SharedLibrary) (p : Plugin) : Plugin :=
  mkPlugin (iplugin p) (creator p) v (path p) (info p) (dependenciesExists p) (graphId p).
Definition set_path (v : string) (p : Plugin) : Plugin :=
  mkPlugin (iplugin p) (creator p) (lib p) v (info p) (dependenciesExists p) (graphId p).
Definition set_info (v : PluginInfoStd) (p : Plugin) : Plugin :=
  mkPlugin (iplugin p) (creator p) (lib p) (path p) v (dependenciesExists p) (graphId p).
Definition set_dependenciesExists (v : TriBool) (p : Plugin) : Plugin :=
  mkPlugin (iplugin p) (creator p) (lib p) (path p) (info p) v (graphId p).
Definition set_graphId (v : Z) (p : Plugin) : Plugin :=
  mkPlugin (iplugin p) (creator p) (lib p) (path p) (info p) (dependenciesExists p) v.

(** [Plugin::~Plugin]: the events of destroying a record.  The image is
    unloaded once more if it is still loaded; when that request is refused
    too the image outlives its owner. *)
Definition destroyPlugin (p : Plugin) : list Event :=
  if isLoaded (lib p) then
    let notified :=
      match iplugin p with Some i => [AboutToBeUnloaded i] | None => [] end in
    let '(l, ev) := unload (lib p) in
    notified ++ ev ++ (if isLoaded l then [Leaked (lib_path l)] else [])
  else [].

(** ** The registry

    [std::unordered_map<std::string, PluginPtr>].  The iteration order of
    the container is unspecified, so the registry is an association list
    whose order stands for whatever order the container iterates in; the
    keys are pairwise distinct ([unique_keys]).  Every [PluginPtr] stored
    by the source points to its own [Plugin], so a write through the
    pointer is an update of the entry. *)
Definition PluginsMap : Type := list (string * Plugin).

Definition keys (m : PluginsMap) : list string := map fst m.

Definition unique_keys (m : PluginsMap) : Prop := NoDup (keys m).

Fixpoint find (k : string) (m : PluginsMap) : option Plugin :=
  match m with
  | [] => None
  | (k', p) :: r => if String.eqb k' k then Some p else find k r
  end.

(** [pluginsMap.count(k)] *)
Definition count (k : string) (m : PluginsMap) : nat :=
  match find k m with Some _ => 1 | None => 0 end.

(** A write through the [PluginPtr] stored under [k]. *)
Fixpoint update (k : string) (f : Plugin -> Plugin) (m : PluginsMap) : PluginsMap :=
  match m with
  | [] => []
  | (k', p) :: r =>
      if String.eqb k' k then (k', f p) :: r else (k', p) :: update k f r
  end.

(** [pluginsMap.erase(k)] *)
Definition erase (k : string) (m : PluginsMap) : PluginsMap :=
  filter (fun e => negb (String.eqb (fst e) k)) m.

(** [pluginsMap[k] = p] *)
Definition insert (k : string) (p : Plugin) (m : PluginsMap) : PluginsMap :=
  match find k m with
  | Some _ => update k (fun _ => p) m
  | None => m ++ [(k, p)]
  end.

(** [PluginManager::PlugMgrPrivate] *)
Record PlugMgrPrivate : Type := mkPlugMgrPrivate {
  pluginsMap : PluginsMap;
  loadOrderList : list string;
  locations : list string
}.

(** [new PlugMgrPrivate()] *)
Definition emptyManager : PlugMgrPrivate := mkPlugMgrPrivate [] [] [].

(** ** Outcomes of operations that can fail to return

    [Fault NullDeref]: a null [PluginPtr] or a null function pointer is
    used ([operator[]] on an absent key inserts a null pointer).
    [Fault OutOfBounds]: a vector is indexed outside its size.
    [Fault Uncaught]: an exception leaves the operation ([at] on an absent
    key).  [OutOfFuel]: the recursion is deeper than the fuel given; an
    operation that is [OutOfFuel] for every fuel does not return. *)
Inductive fault : Type := NullDeref | OutOfBounds | Uncaught.

Inductive Outcome (A : Type) : Type :=
| Done (a : A)
| Fault (f : fault)
| OutOfFuel.
Arguments Done {A} a.
Arguments Fault {A} f.
Arguments OutOfFuel {A}.

(** ** JSON values as [nlohmann::json] presents them to [parseMetadata] *)

Inductive json : Type :=
| JNull
| JBool (b : bool)
| JNumber (n : Z)
| JString (s : string)
| JArray (elems : list json)
| JObject (members : list (string * json)).

Fixpoint member (k : string) (l : list (string * json)) : option json :=
  match l with
  | [] => None
  | (k', v) :: r => if String.eqb k' k then Some v else member k r
  end.

(** [tree.at(key)]: [None] stands for the exception thrown on a value that
    is not an object or an object without the key. *)
Definition at_key (k : string) (j : json) : option json :=
  match j with JObject l => member k l | _ => None end.

(** [j.get<std::string>()]: [None] stands for the type error. *)
Definition get_string (j : json) : option string :=
  match j with JString s => Some s | _ => None end.

(** The elements a range-based [for] visits: the elements of an array, the
    values of an object, nothing for null and the value itself otherwise. *)
Definition elements (j : json) : list json :=
  match j with
  | JArray l => l
  | JObject l => map snd l
  | JNull => []
  | _ => [j]
  end.

Definition bind {A B : Type} (o : option A) (f : A -> option B) : option B :=
  match o with Some a => f a | None => None end.

Notation "'do' x <- o ; k" := (bind o (fun x => k))
  (at level 10, x name, o at level 100, k at level 200).

Fixpoint mapM {A B : Type} (f : A -> option B) (l : list A) : option (list B) :=
  match l with
  | [] => Some []
  | a :: r => do b <- f a; do bs <- mapM f r; Some (b :: bs)
  end.

(** ** The dependency graph ([private/graph.h]) *)

(** [Graph::Node]: the name points to the registry key of the record. *)
Record Node : Type := mkNode {
  node_name : string;
  parentNodes : list Z
}.

Definition NodeList : Type := list Node.

Definition emptyNode : Node := mkNode "" [].

Module Graph.

(** Whether the node with index [p] is already part of the order. *)
Definition emitted (order : list nat) (p : Z) : bool :=
  existsb (fun i => Z.eqb (Z.of_nat i) p) order.

Definition ready (order : list nat) (n : Node) : bool :=
  forallb (emitted order) (parentNodes n).

(** The first node, in index order, that is not yet in the order and
    whose parents all are. *)
Fixpoint pick (order : list nat) (i : nat) (nodes : list Node) : option nat :=
  match nodes with
  | [] => None
  | n :: r =>
      if negb (existsb (Nat.eqb i) order) && ready order n
      then Some i
      else pick order (S i) r
  end.

Fixpoint extend (rounds : nat) (nodes : NodeList) (order : list nat) : list nat :=
  match rounds with
  | O => order
  | S r =>
      match pick order 0 nodes with
      | Some i => extend r nodes (order ++ [i])
      | None => order
      end
  end.

(** Modelled from the spec: [Graph::topologicalSort(bool& error)], the
    sort of [private/graph.h], which is not among the sources.  The spec
    asks for an order in which every dependency (parent) appears before
    any dependent, deterministic for a fixed node list, and for a cycle
    to be detected, in which case no partial order is emitted.  The
    model appends, one round per node, the first node whose parents are
    all in the order already; when a round finds none while nodes are
    left, the remaining nodes lie on or behind a cycle and the result is
    the empty list with the error flag set.  The result pairs the
    returned vector with the value left in [error]. *)
Definition topologicalSort (nodes : NodeList) : list string * bool :=
  let order := extend (length nodes) nodes [] in
  if Nat.eqb (length order) (length nodes)
  then (map (fun i => node_name (nth i nodes emptyNode)) order, false)
  else ([], true).

End Graph.

(** ** The environment of a directory scan

    [fsutil::listLibrariesInDir] with the message of [strerror(errno)], and
    what the dynamic loader finds at each path. *)
Record Env : Type := mkEnv {
  listLibrariesInDir : string -> bool -> bool * list string;
  strerror : string;
  dlopen : string -> LibraryFile
}.

Section Manager.

(** [Version(a).compatible(b)] of [version/version.h], whose code is
    outside the sources. *)
Variable compatible : string -> string -> bool.

Section Discovery.

(** The API version [JP_PLUGIN_API] the manager is compiled for, and
    [json::parse] of [json/json.hpp] ([None] stands for the parse error it
    throws): both are outside the sources. *)
Variable JP_PLUGIN_API : string.
Variable json_parse : string -> option json.

(** *** parseMetadata *)

Definition get_string_at (k : string) (j : json) : option string :=
  do v <- at_key k j; get_string v.

Definition parseDependency (jdep : json) : option Dependency :=
  do n <- get_string_at "name" jdep;
  do v <- get_string_at "version" jdep;
  Some (mkDependency n v).

(** The body of the [try] block: [None] when an exception is thrown or
    the API version is not compatible. *)
Definition parseTree (tree : json) : option PluginInfoStd :=
  do api <- get_string_at "api" tree;
  if compatible api JP_PLUGIN_API then
    do i_name <- get_string_at "name" tree;
    do i_prettyName <- get_string_at "prettyName" tree;
    do i_version <- get_string_at "version" tree;
    do i_author <- get_string_at "author" tree;
    do i_url <- get_string_at "url" tree;
    do i_license <- get_string_at "license" tree;
    do i_copyright <- get_string_at "copyright" tree;
    do jsonDep <- at_key "dependencies" tree;
    do deps <- mapM parseDependency (elements jsonDep);
    Some (mkPluginInfoStd i_name i_prettyName i_version i_author i_url
                          i_license i_copyright deps)
  else None.

Definition parseMetadata (metadata : string) : PluginInfoStd :=
  match bind (json_parse metadata) parseTree with
  | Some i => i
  | None => emptyInfo
  end.

(** *** searchForPlugins *)

(** [lib.get<const char*>(symbol)] read into a [std::string]. *)
Definition get_cstring (l : SharedLibrary) (sym : LibraryFile -> option string)
  : string :=
  match image l with
  | Some f => match sym f with Some s => c_str s | None => "" end
  | None => ""
  end.

(** One iteration of the loop over [libList]: the candidate record is
    created, its library loaded, and the record either enters the
    registry or is destroyed when the iteration ends. *)
Definition searchCandidate (dl : string -> LibraryFile) (cb : bool)
    (candidate : string) (m : PluginsMap) (atLeastOneFound : bool)
  : PluginsMap * bool * list Event :=
  let '(l, ev) := load dl candidate in
  let plugin := set_lib l newPlugin in
  if isLoaded l && hasSymbol l has_jp_name && hasSymbol l has_jp_metadata
     && hasSymbol l jp_createPlugin
  then
    let plugin := set_path candidate plugin in
    let plugin_name := get_cstring l jp_name in
    if Nat.eqb (count plugin_name m) 1 then
      (m, atLeastOneFound,
       ev ++ callback cb SEARCH_NAME_ALREADY_EXISTS (strdup candidate)
          ++ destroyPlugin plugin)
    else
      let i := parseMetadata (get_cstring l jp_metadata) in
      if String.eqb (name i) "" then
        (m, atLeastOneFound,
         ev ++ callback cb SEARCH_CANNOT_PARSE_METADATA (strdup candidate)
            ++ destroyPlugin plugin)
      else
        (insert plugin_name (set_info i plugin) m, true, ev)
  else
    (m, atLeastOneFound, ev ++ destroyPlugin plugin).

Fixpoint searchLoop (dl : string -> LibraryFile) (cb : bool)
    (libList : list string) (m : PluginsMap) (atLeastOneFound : bool)
  : PluginsMap * bool * list Event :=
  match libList with
  | [] => (m, atLeastOneFound, [])
  | candidate :: rest =>
      let '(m1, found1, ev1) := searchCandidate dl cb candidate m atLeastOneFound in
      let '(m2, found2, ev2) := searchLoop dl cb rest m1 found1 in
      (m2, found2, ev1 ++ ev2)
  end.

Definition searchForPlugins (env : Env) (pluginDir : string) (recursive : bool)
    (cb : bool) (st : PlugMgrPrivate) : ReturnCode * PlugMgrPrivate * list Event :=
  let '(listed, libList) := listLibrariesInDir env pluginDir recursive in
  let ev0 :=
    if listed then [] else callback cb SEARCH_LISTFILES_ERROR (Some (strerror env)) in
  if negb listed && match libList with [] => true | _ => false end then
    (SEARCH_LISTFILES_ERROR, st, ev0)
  else
    let '(m, atLeastOneFound, ev) :=
      searchLoop (dlopen env) cb libList (pluginsMap st) false in
    if atLeastOneFound then
      let locs :=
        if existsb (String.eqb pluginDir) (locations st)
        then locations st
        else locations st ++ [pluginDir] in
      (SUCCESS, mkPlugMgrPrivate m (loadOrderList st) locs, ev0 ++ ev)
    else
      (SEARCH_NOTHING_FOUND,
       mkPlugMgrPrivate m (loadOrderList st) (locations st), ev0 ++ ev).

(** A sequence of calls, each with its environment and arguments. *)
Definition searchAll (calls : list (Env * string * bool * bool)) (st : PlugMgrPrivate)
  : PlugMgrPrivate :=
  fold_left (fun s call =>
               let '(env, pluginDir, recursive, cb) := call in
               snd (fst (searchForPlugins env pluginDir recursive cb s)))
            calls st.

End Discovery.

(** *** checkDependencies

    The [PluginPtr] argument is the record stored under [key].  [fuel]
    bounds the depth of the recursion. *)

Definition CheckResult : Type := Outcome (ReturnCode * PluginsMap * list Event).

(** The [for] loop over the declared dependencies; [rec] is the recursive
    call [checkDependencies(pluginsMap[depName], callbackFunc)]. *)
Fixpoint checkLoop (rec : string -> PluginsMap -> CheckResult)
    (key : string) (plugin_path : string) (cb : bool)
    (deps : list Dependency) (m : PluginsMap) (tr : list Event) : CheckResult :=
  match deps with
  | [] => Done (SUCCESS, update key (set_dependenciesExists TriTrue) m, tr)
  | d :: rest =>
      match find (dep_name d) m with
      | None =>
          Done (LOAD_DEPENDENCY_NOT_FOUND,
                update key (set_dependenciesExists TriFalse) m,
                tr ++ callback cb LOAD_DEPENDENCY_NOT_FOUND (strdup plugin_path))
      | Some dp =>
          if negb (compatible (version (info dp)) (dep_version d)) then
            Done (LOAD_DEPENDENCY_BAD_VERSION,
                  update key (set_dependenciesExists TriFalse) m,
                  tr ++ callback cb LOAD_DEPENDENCY_BAD_VERSION (strdup plugin_path))
          else
            match rec (dep_name d) m with
            | Done (retCode, m', tr') =>
                if to_bool retCode
                then checkLoop rec key plugin_path cb rest m' (tr ++ tr')
                else Done (retCode, m', tr ++ tr')
            | Fault f => Fault f
            | OutOfFuel => OutOfFuel
            end
      end
  end.

Fixpoint checkDependencies (fuel : nat) (cb : bool) (key : string)
    (m : PluginsMap) {struct fuel} : CheckResult :=
  match fuel with
  | O => OutOfFuel
  | S fuel' =>
      match find key m with
      | None => Fault NullDeref
      | Some plugin =>
          match dependenciesExists plugin with
          | TriTrue => Done (SUCCESS, m, [])
          | TriFalse =>
              Done (if Nat.eqb (count (name (info plugin)) m) 0
                    then LOAD_DEPENDENCY_NOT_FOUND
                    else LOAD_DEPENDENCY_BAD_VERSION, m, [])
          | Indeterminate =>
              checkLoop (checkDependencies fuel' cb) key (path plugin) cb
                        (dependencies (info plugin)) m []
          end
      end
  end.

(** *** unloadPlugin: the result, the record as the call leaves it (the
    caller's map still points to it) and the events. *)
Definition unloadPlugin (plugin : Plugin) : bool * Plugin * list Event :=
  let notified :=
    match iplugin plugin with Some i => [AboutToBeUnloaded i] | None => [] end in
  let '(l, ev) := unload (lib plugin) in
  (negb (isLoaded l), set_lib l (set_iplugin None plugin), notified ++ ev).

(** *** loadPlugins *)

(** First step: the loop that checks every record and creates the node
    list.  The result carries the code of the early [return] taken when
    [tryToContinue] is false and a record fails. *)
Fixpoint checkAll (fuel : nat) (tryToContinue cb : bool) (todo : list string)
    (m : PluginsMap) (nodeList : NodeList) (tr : list Event)
  : Outcome (option ReturnCode * PluginsMap * NodeList * list Event) :=
  match todo with
  | [] => Done (None, m, nodeList, tr)
  | key :: rest =>
      let m0 := update key (set_graphId (-1)) m in
      match checkDependencies fuel cb key m0 with
      | Done (retCode, m1, tr1) =>
          if negb tryToContinue && negb (to_bool retCode) then
            Done (Some retCode, m1, nodeList, tr ++ tr1)
          else
            match find key m1 with
            | None => Fault NullDeref
            | Some plugin =>
                if is_true (dependenciesExists plugin) then
                  let nodeList' := nodeList ++ [mkNode key []] in
                  checkAll fuel tryToContinue cb rest
                    (update key (set_graphId (Z.of_nat (length nodeList') - 1)) m1)
                    nodeList' (tr ++ tr1)
                else
                  checkAll fuel tryToContinue cb rest m1 nodeList (tr ++ tr1)
            end
      | Fault f => Fault f
      | OutOfFuel => OutOfFuel
      end
  end.

(** [pluginsMap[dep.name]->graphId] for each declared dependency. *)
Fixpoint parentIds (m : PluginsMap) (deps : list Dependency) : Outcome (list Z) :=
  match deps with
  | [] => Done []
  | d :: rest =>
      match find (dep_name d) m with
      | None => Fault NullDeref
      | Some dp =>
          match parentIds m rest with
          | Done ids => Done (graphId dp :: ids)
          | Fault f => Fault f
          | OutOfFuel => OutOfFuel
          end
      end
  end.

(** [nodeList[nodeId].parentNodes.push_back(id)] for each id of [ids]. *)
Fixpoint pushParents (nodeId : nat) (ids : list Z) (nodeList : NodeList)
  : option NodeList :=
  match nodeList, nodeId with
  | [], _ => None
  | n :: r, O => Some (mkNode (node_name n) (parentNodes n ++ ids) :: r)
  | n :: r, S i =>
      match pushParents i ids r with
      | Some r' => Some (n :: r')
      | None => None
      end
  end.

(** The loop that fills the parent lists. *)
Fixpoint fillParents (entries : PluginsMap) (m : PluginsMap) (nodeList : NodeList)
  : Outcome NodeList :=
  match entries with
  | [] => Done nodeList
  | (_, plugin) :: rest =>
      let nodeId := graphId plugin in
      if Z.eqb nodeId (-1) then fillParents rest m nodeList
      else
        match parentIds m (dependencies (info plugin)) with
        | Done [] => fillParents rest m nodeList
        | Done ids =>
            if Z.ltb nodeId 0 then Fault OutOfBounds
            else
              match pushParents (Z.to_nat nodeId) ids nodeList with
              | Some nodeList' => fillParents rest m nodeList'
              | None => Fault OutOfBounds
              end
        | Fault f => Fault f
        | OutOfFuel => OutOfFuel
        end
  end.

(** Fourth step: the loop over the load order.  The factory is called
    through the pointer [lib.get] returns for [jp_createPlugin]. *)
Fixpoint loadAll (order : list string) (m : PluginsMap)
  : Outcome (PluginsMap * list Event) :=
  match order with
  | [] => Done (m, [])
  | key :: rest =>
      match find key m with
      | None => Fault Uncaught
      | Some plugin =>
          match iplugin plugin with
          | Some _ => loadAll rest m
          | None =>
              if hasSymbol (lib plugin) jp_createPlugin then
                let created p :=
                  set_iplugin (Some (instance_of key)) (set_creator true p) in
                match loadAll rest (update key created m) with
                | Done (m', tr) => Done (m', Created key :: Loaded key :: tr)
                | Fault f => Fault f
                | OutOfFuel => OutOfFuel
                end
              else Fault NullDeref
          end
      end
  end.

Definition loadPlugins (fuel : nat) (tryToContinue cb : bool) (st : PlugMgrPrivate)
  : Outcome (ReturnCode * PlugMgrPrivate * list Event) :=
  match checkAll fuel tryToContinue cb (keys (pluginsMap st)) (pluginsMap st) [] [] with
  | Done (Some retCode, m, _, tr) =>
      Done (retCode, mkPlugMgrPrivate m (loadOrderList st) (locations st), tr)
  | Done (None, m, nodeList, tr) =>
      match fillParents m m nodeList with
      | Done nodeList' =>
          let '(order, error) := Graph.topologicalSort nodeList' in
          if error then
            Done (LOAD_DEPENDENCY_CYCLE,
                  mkPlugMgrPrivate m order (locations st),
                  tr ++ callback cb LOAD_DEPENDENCY_CYCLE None)
          else
            match loadAll order m with
            | Done (m', tr') =>
                Done (SUCCESS, mkPlugMgrPrivate m' order (locations st), tr ++ tr')
            | Fault f => Fault f
            | OutOfFuel => OutOfFuel
            end
      | Fault f => Fault f
      | OutOfFuel => OutOfFuel
      end
  | Fault f => Fault f
  | OutOfFuel => OutOfFuel
  end.

(** *** unloadPlugins *)

(** The loop over the load order, last name first.  [pluginsMap[*it]] on
    a name that is not a key yields a null pointer, which [unloadPlugin]
    dereferences.  [erase] drops the last pointer to the record, whose
    destructor runs. *)
Fixpoint unloadOrdered (reversed : list string) (m : PluginsMap) (allUnloaded : bool)
  : Outcome (PluginsMap * bool * list Event) :=
  match reversed with
  | [] => Done (m, allUnloaded, [])
  | key :: rest =>
      match find key m with
      | None => Fault NullDeref
      | Some plugin =>
          let '(unloaded, plugin', ev) := unloadPlugin plugin in
          match unloadOrdered rest (erase key m) (allUnloaded && unloaded) with
          | Done (m', all', tr) => Done (m', all', ev ++ destroyPlugin plugin' ++ tr)
          | Fault f => Fault f
          | OutOfFuel => OutOfFuel
          end
      end
  end.

(** The [while] loop that removes the records left in the map, always
    the one [begin()] points to. *)
Fixpoint unloadRemaining (m : PluginsMap) (allUnloaded : bool) : bool * list Event :=
  match m with
  | [] => (allUnloaded, [])
  | (_, plugin) :: rest =>
      let '(unloaded, plugin', ev) := unloadPlugin plugin in
      let '(all', tr) := unloadRemaining rest (allUnloaded && unloaded) in
      (all', ev ++ destroyPlugin plugin' ++ tr)
  end.

Definition unloadPlugins (cb : bool) (st : PlugMgrPrivate)
  : Outcome (ReturnCode * PlugMgrPrivate * list Event) :=
  match unloadOrdered (rev (loadOrderList st)) (pluginsMap st) true with
  | Done (m, all1, tr1) =>
      let '(allUnloaded, tr2) := unloadRemaining m all1 in
      let st' := mkPlugMgrPrivate [] (loadOrderList st) [] in
      if allUnloaded then Done (SUCCESS, st', tr1 ++ tr2)
      else Done (UNLOAD_NOT_ALL, st', tr1 ++ tr2 ++ callback cb UNLOAD_NOT_ALL None)
  | Fault f => Fault f
  | OutOfFuel => OutOfFuel
  end.

(** *** Getters *)

Definition pluginsCount (st : PlugMgrPrivate) : nat := length (pluginsMap st).

Definition pluginsList (st : PlugMgrPrivate) : list string := keys (pluginsMap st).

Definition pluginsLocation (st : PlugMgrPrivate) : list string := locations st.

Definition hasPlugin (st : PlugMgrPrivate) (plugin_name : string) : bool :=
  Nat.eqb (count plugin_name (pluginsMap st)) 1.

Definition hasPluginVersion (st : PlugMgrPrivate) (plugin_name minVersion : string)
  : bool :=
  hasPlugin st plugin_name &&
  match find plugin_name (pluginsMap st) with
  | Some p => compatible (version (info p)) minVersion
  | None => false
  end.

Definition isPluginLoaded (st : PlugMgrPrivate) (plugin_name : string) : bool :=
  hasPlugin st plugin_name &&
  match find plugin_name (pluginsMap st) with
  | Some p => isLoaded (lib p) && match iplugin p with Some _ => true | None => false end
  | None => false
  end.

Definition pluginInfo (st : PlugMgrPrivate) (plugin_name : string) : PluginInfo :=
  if hasPlugin st plugin_name then
    match find plugin_name (pluginsMap st) with
    | Some p => toPluginInfo (info p)
    | None => nullInfo
    end
  else nullInfo.

(** *** The destructor of the manager

    [~PluginManager]: [unloadPlugins()] is called, without a callback,
    when the registry is not empty; the result is the list of events. *)
Definition destroyManager (st : PlugMgrPrivate) : Outcome (list Event) :=
  match pluginsMap st with
  | [] => Done []
  | _ :: _ =>
      match unloadPlugins false st with
      | Done (_, _, tr) => Done tr
      | Fault f => Fault f
      | OutOfFuel => OutOfFuel
      end
  end.

(** *** handleRequest *)

Section Requests.

(** [IPlugin::handleRequest] is the code of the plugin that receives the
    request; the data of a request is opaque to the manager. *)
Variable RequestData : Type.
Variable plugin_handleRequest : IPlugin -> string -> Z -> RequestData -> Z.

(** [PlugMgrPrivate::handleRequest]; [receiver = None] is the null
    pointer, which addresses the manager itself. *)
Definition handleRequest (st : PlugMgrPrivate) (sender : string)
    (receiver : option string) (code : Z) (data : RequestData) : Z :=
  match receiver with
  | Some r =>
      match find (c_str r) (pluginsMap st) with
      | Some plugin =>
          if isLoaded (lib plugin) then
            match iplugin plugin with
            | Some i => plugin_handleRequest i sender code data
            | None => 0%Z
            end
          else 0%Z
      | None => 0%Z
      end
  | None => 0%Z
  end.

End Requests.

(** ** Vocabulary of the statements *)

Definition flag (m : PluginsMap) (k : string) : option TriBool :=
  option_map dependenciesExists (find k m).

Definition same_but_flag (p p' : Plugin) : Prop :=
  p' = set_dependenciesExists (dependenciesExists p') p.

Definition evolves (m m' : PluginsMap) : Prop :=
  Forall2 (fun e e' =>
           fst e = fst e' /\ same_but_flag (snd e) (snd e') /\
           (dependenciesExists (snd e) <> Indeterminate ->
            dependenciesExists (snd e') = dependenciesExists (snd e))) m m'.

Definition ok_dep (m : PluginsMap) (d : Dependency) : Prop :=
  exists q, find (dep_name d) m = Some q /\
            compatible (version (info q)) (dep_version d) = true.

Definition deps_ok (m : PluginsMap) (k : string) : Prop :=
  exists p, find k m = Some p /\ Forall (ok_dep m) (dependencies (info p)).

Definition deps_bad (m : PluginsMap) (k : string) : Prop :=
  exists p, find k m = Some p /\ Exists (fun d => ~ ok_dep m d) (dependencies (info p)).

Inductive failing (m : PluginsMap) : string -> Prop :=
| failing_no k : flag m k = Some TriFalse -> failing m k
| failing_blocked k p pre d post :
    find k m = Some p ->
    dependenciesExists p = Indeterminate ->
    dependencies (info p) = pre ++ d :: post ->
    Forall (fun e => ok_dep m e /\ flag m (dep_name e) = Some TriTrue) pre ->
    ok_dep m d ->
    failing m (dep_name d) ->
    failing m k.

(** A record whose flag went from indeterminate to true had every
    declared dependency present, compatible and flagged true. *)
Definition deps_resolved (m m' : PluginsMap) (k : string) : Prop :=
  exists p, find k m = Some p /\
    Forall (fun d => ok_dep m d /\ flag m' (dep_name d) = Some TriTrue)
           (dependencies (info p)).

Definition step (m m' : PluginsMap) : Prop :=
  evolves m m' /\
  (forall x, failing m x -> failing m' x /\ find x m' = find x m) /\
  (forall x, flag m x = Some Indeterminate -> flag m' x = Some TriFalse -> deps_bad m x) /\
  (forall x, flag m x = Some Indeterminate -> flag m' x = Some TriTrue ->
             deps_resolved m m' x).

(** What a returned call of [checkDependencies] on [k] establishes. *)
Definition checked (k : string) (m : PluginsMap) (retCode : ReturnCode)
    (m' : PluginsMap) : Prop :=
  step m m' /\
  (to_bool retCode = true -> flag m' k = Some TriTrue) /\
  (to_bool retCode = false -> failing m' k).

(** An order, read from its last element back, in which the parents of
    every element stand in what comes before it. *)
Fixpoint parents_earlier (nodes : NodeList) (backwards : list nat) : Prop :=
  match backwards with
  | [] => True
  | i :: earlier =>
      (forall p, In p (parentNodes (nth i nodes emptyNode)) ->
                 exists j, In j earlier /\ Z.of_nat j = p) /\
      parents_earlier nodes earlier
  end.

(** [x] stands before [y] in [l]. *)
Definition before {A : Type} (x y : A) (l : list A) : Prop :=
  exists l1 l2 l3, l = l1 ++ x :: l2 ++ y :: l3.

(** The part of a record that the dependency check reads. *)
Definition check_view (p : Plugin) : TriBool * PluginInfoStd :=
  (dependenciesExists p, info p).

Definition same_view (m m' : PluginsMap) : Prop :=
  forall k, option_map check_view (find k m) = option_map check_view (find k m').

(** The part of a record that no step of [loadPlugins] before the load
    loop writes, and the part the load loop does not write. *)
Definition static_part (p : Plugin)
  : option IPlugin * bool * SharedLibrary * string * PluginInfoStd :=
  (iplugin p, creator p, lib p, path p, info p).

Definition graph_part (p : Plugin)
  : SharedLibrary * string * PluginInfoStd * TriBool * Z :=
  (lib p, path p, info p, dependenciesExists p, graphId p).

Definition same_static (m m' : PluginsMap) : Prop :=
  map (fun e => (fst e, static_part (snd e))) m =
  map (fun e => (fst e, static_part (snd e))) m'.

Definition same_graph (m m' : PluginsMap) : Prop :=
  map (fun e => (fst e, graph_part (snd e))) m =
  map (fun e => (fst e, graph_part (snd e))) m'.

(** The graph ids and the node list that the first step of [loadPlugins]
    leaves: the records flagged true are numbered in iteration order,
    the others carry -1. *)
Fixpoint assign (entries : PluginsMap) (n : nat) : PluginsMap * NodeList :=
  match entries with
  | [] => ([], [])
  | (k, p) :: rest =>
      if is_true (dependenciesExists p) then
        let '(rest', nodes) := assign rest (S n) in
        ((k, set_graphId (Z.of_nat n) p) :: rest', mkNode k [] :: nodes)
      else
        let '(rest', nodes) := assign rest n in
        ((k, set_graphId (-1) p) :: rest', nodes)
  end.

(** Every record is flagged true or fails its check for good. *)
Definition settled (m : PluginsMap) : Prop :=
  Forall (fun e => dependenciesExists (snd e) = TriTrue \/ failing m (fst e)) m.

(** [plugin->iplugin] is set for the record under [k]. *)
Definition hasInstance (m : PluginsMap) (k : string) : bool :=
  match find k m with
  | Some p => match iplugin p with Some _ => true | None => false end
  | None => false
  end.

(** The keys whose [loaded()] was called, in the order of the calls. *)
Definition loaded_of (tr : list Event) : list string :=
  flat_map (fun e => match e with Loaded k => [k] | _ => [] end) tr.

Definition created_of (tr : list Event) : list string :=
  flat_map (fun e => match e with Created k => [k] | _ => [] end) tr.

Definition is_callback (e : Event) : Prop :=
  match e with Callback _ _ => True | _ => False end.

(** The instances whose [aboutToBeUnloaded()] was called, the images that
    outlived their record, and the images whose unload was refused, each
    in the order of the events. *)
Definition about_of (tr : list Event) : list IPlugin :=
  flat_map (fun e => match e with AboutToBeUnloaded i => [i] | _ => [] end) tr.

Definition leaked_of (tr : list Event) : list string :=
  flat_map (fun e => match e with Leaked p => [p] | _ => [] end) tr.

Definition refused_of (tr : list Event) : list string :=
  flat_map (fun e => match e with LibUnload p false => [p] | _ => [] end) tr.

Definition instance_list (p : Plugin) : list IPlugin :=
  match iplugin p with Some i => [i] | None => [] end.

(** The instances held by the records under the given names, and by the
    given entries. *)
Definition instances_of (m : PluginsMap) (names : list string) : list IPlugin :=
  flat_map (fun k => match find k m with Some p => instance_list p | None => [] end)
           names.

Definition entry_instances (entries : PluginsMap) : list IPlugin :=
  flat_map (fun e => instance_list (snd e)) entries.

(** The entries whose name is not in [names]. *)
Definition remaining (names : list string) (m : PluginsMap) : PluginsMap :=
  filter (fun e => negb (existsb (String.eqb (fst e)) names)) m.

(** A file that [searchForPlugins] takes for a plugin library, and what it
    reads from the symbols [jp_name] and [jp_metadata]. *)
Definition is_plugin_library (f : LibraryFile) : bool :=
  loadable f && has_jp_name f && has_jp_metadata f && jp_createPlugin f.

Definition exported_name (f : LibraryFile) : string :=
  match jp_name f with Some s => c_str s | None => "" end.

Definition exported_metadata (f : LibraryFile) : string :=
  match jp_metadata f with Some s => c_str s | None => "" end.

(** The record [searchForPlugins] stores for the library [f] found at
    [candidate], with the metadata [i]. *)
Definition discovered (candidate : string) (f : LibraryFile) (i : PluginInfoStd)
  : Plugin :=
  mkPlugin None false (mkSharedLibrary candidate (Some f) (unload_refusals f))
           candidate i Indeterminate (-1).

(** The events of destroying the candidate record of a rejected plugin
    library: one unload request, honoured unless the file refuses it. *)
Definition rejected_events (candidate : string) (f : LibraryFile) : list Event :=
  match unload_refusals f with
  | O => [LibUnload candidate true]
  | S _ => [LibUnload candidate false; Leaked candidate]
  end.

(** The fields a descriptor declares are those of [i]. *)
Definition declares (tree : json) (i : PluginInfoStd) : Prop :=
  get_string_at "name" tree = Some (name i) /\
  get_string_at "prettyName" tree = Some (prettyName i) /\
  get_string_at "version" tree = Some (version i) /\
  get_string_at "author" tree = Some (author i) /\
  get_string_at "url" tree = Some (url i) /\
  get_string_at "license" tree = Some (license i) /\
  get_string_at "copyright" tree = Some (copyright i) /\
  exists jsonDep,
    at_key "dependencies" tree = Some jsonDep /\
    Forall2 (fun jdep dep =>
               get_string_at "name" jdep = Some (dep_name dep) /\
               get_string_at "version" jdep = Some (dep_version dep))
            (elements jsonDep) (dependencies i).

(** The snapshot [toPluginInfo] builds from [i]: every string of [i] as a
    C string. *)
Definition snapshot_of (i : PluginInfoStd) (s : PluginInfo) : Prop :=
  c_name s = Some (c_str (name i)) /\
  c_prettyName s = Some (c_str (prettyName i)) /\
  c_version s = Some (c_str (version i)) /\
  c_author s = Some (c_str (author i)) /\
  c_url s = Some (c_str (url i)) /\
  c_license s = Some (c_str (license i)) /\
  c_copyright s = Some (c_str (copyright i)) /\
  c_dependencies s =
    map (fun d => mkCDependency (Some (c_str (dep_name d))) (Some (c_str (dep_version d))))
        (dependencies i) /\
  dependenciesNb s = length (dependencies i).


(** ** Further vocabulary *)

(** The paths loaded, the paths whose unload was requested and the
    details of the callbacks, each in the order of the events. *)
Definition loads_of (tr : list Event) : list string :=
  flat_map (fun e => match e with LibLoad p => [p] | _ => [] end) tr.

Definition unloads_of (tr : list Event) : list string :=
  flat_map (fun e => match e with LibUnload p _ => [p] | _ => [] end) tr.

Definition callbacks_of (tr : list Event) : list (ReturnCode * option string) :=
  flat_map (fun e => match e with Callback c d => [(c, d)] | _ => [] end) tr.

(** A record as [searchForPlugins] registers it: nothing created, nothing
    checked, its library loaded from a plugin library that exports the
    key, and metadata with a name. *)
Definition fresh_record (e : string * Plugin) : Prop :=
  iplugin (snd e) = None /\ creator (snd e) = false /\
  dependenciesExists (snd e) = Indeterminate /\ graphId (snd e) = (-1)%Z /\
  name (info (snd e)) <> "" /\
  lib_path (lib (snd e)) = path (snd e) /\
  exists f, image (lib (snd e)) = Some f /\ is_plugin_library f = true /\
            fst e = exported_name f.

(** The record registered for one of the listed files. *)
Definition registered_from (JP_PLUGIN_API : string)
    (json_parse : string -> option json) (dl : string -> LibraryFile)
    (libList : list string) (e : string * Plugin) : Prop :=
  exists candidate,
    In candidate libList /\ is_plugin_library (dl candidate) = true /\
    fst e = exported_name (dl candidate) /\
    snd e = discovered candidate (dl candidate)
              (parseMetadata JP_PLUGIN_API json_parse
                 (exported_metadata (dl candidate))) /\
    name (info (snd e)) <> "".

(** What no step of [loadPlugins] writes. *)
Definition identity_part (p : Plugin) : SharedLibrary * string * PluginInfoStd :=
  (lib p, path p, info p).

Definition same_identity (m m' : PluginsMap) : Prop :=
  map (fun e => (fst e, identity_part (snd e))) m =
  map (fun e => (fst e, identity_part (snd e))) m'.

(** The records flagged true depend only on records flagged true, and
    [rank] decreases along these dependencies. *)
Definition ranked_by (rank : string -> nat) (m : PluginsMap) : Prop :=
  forall k p, find k m = Some p -> dependenciesExists p = TriTrue ->
    Forall (fun d => ok_dep m d /\ flag m (dep_name d) = Some TriTrue /\
                     rank (dep_name d) < rank k)
           (dependencies (info p)).

Definition ranked (m : PluginsMap) : Prop := exists rank, ranked_by rank m.

(** Every declared dependency that is registered has a smaller rank: the
    declarations form no cycle. *)
Definition acyclic_by (rank : string -> nat) (m : PluginsMap) : Prop :=
  forall k p d, find k m = Some p -> In d (dependencies (info p)) ->
    find (dep_name d) m <> None -> rank (dep_name d) < rank k.

(** The events of creating the plugins of [names], in this order. *)
Definition creation_events (names : list string) : list Event :=
  flat_map (fun k => [Created k; Loaded k]) names.




(** What a returned dependency check reports.  No record is newly
    flagged false, or exactly one is, and then the callback (when one is
    given) receives the returned code and the path of that record. *)
Definition no_new_failure (m m' : PluginsMap) : Prop :=
  forall x, flag m' x = Some TriFalse -> flag m x = Some TriFalse.

Definition one_new_failure (cb : bool) (m : PluginsMap) (retCode : ReturnCode)
    (m' : PluginsMap) (tr : list Event) : Prop :=
  exists x p,
    find x m = Some p /\ dependenciesExists p = Indeterminate /\
    flag m' x = Some TriFalse /\
    (forall y, y <> x -> flag m' y = Some TriFalse -> flag m y = Some TriFalse) /\
    tr = callback cb retCode (Some (c_str (path p))).

Definition report (cb : bool) (m : PluginsMap) (retCode : ReturnCode)
    (m' : PluginsMap) (tr : list Event) : Prop :=
  (retCode = SUCCESS /\ tr = [] /\ no_new_failure m m') \/
  ((retCode = LOAD_DEPENDENCY_NOT_FOUND \/ retCode = LOAD_DEPENDENCY_BAD_VERSION) /\
   ((tr = [] /\ no_new_failure m m') \/ one_new_failure cb m retCode m' tr)).

(** A decision procedure for [acyclic_by]. *)
Definition acyclic_check (rank : string -> nat) (m : PluginsMap) : bool :=
  forallb (fun e =>
             forallb (fun d =>
                        match find (dep_name d) m with
                        | Some _ => Nat.ltb (rank (dep_name d)) (rank (fst e))
                        | None => true
                        end)
                     (dependencies (info (snd e))))
          m.

(** Every name registered in [m] is registered in [m2]. *)
Definition names_within (m m2 : PluginsMap) : Prop :=
  forall k, find k m <> None -> find k m2 <> None.


(** Every record flagged false has a declared dependency that is missing
    or incompatible. *)
Definition justified (m : PluginsMap) : Prop :=
  forall x, flag m x = Some TriFalse -> deps_bad m x.

(** Every callback of [tr] was called with one of the codes [allowed]. *)
Definition callback_codes (allowed : list ReturnCode) (tr : list Event) : Prop :=
  Forall (fun e => match e with Callback c _ => In c allowed | _ => True end) tr.

(** ** Sample plugins, registries and directories used by the examples *)

(** A stand-in for the version comparator: a version is compatible with
    itself and with nothing else. *)
Definition sample_compatible (declared required : string) : bool :=
  String.eqb declared required.

(** A well-formed plugin library exporting the three symbols; the
    operating system refuses its first [refused] unload requests. *)
Definition sample_file (plugin_name metadata : string) (refused : nat) : LibraryFile :=
  mkLibraryFile true (Some plugin_name) (Some metadata) true refused.

Definition sample_info (plugin_name ver : string) (deps : list Dependency)
  : PluginInfoStd :=
  mkPluginInfoStd plugin_name plugin_name ver "author" "url" "MIT" "(c)" deps.

Definition sample_library (lib_file plugin_name : string) : SharedLibrary :=
  mkSharedLibrary lib_file (Some (sample_file plugin_name plugin_name 0)) 0.

(** A record as [searchForPlugins] stores it, before any load pass. *)
Definition sample_plugin (lib_file plugin_name ver : string) (deps : list Dependency)
  : Plugin :=
  mkPlugin None false (sample_library lib_file plugin_name) lib_file
           (sample_info plugin_name ver deps) Indeterminate (-1).

(** The same record once [loadPlugins] has resolved and loaded it. *)
Definition sample_loaded (lib_file plugin_name ver : string) (deps : list Dependency)
    (id : Z) : Plugin :=
  mkPlugin (Some (instance_of plugin_name)) true (sample_library lib_file plugin_name)
           lib_file (sample_info plugin_name ver deps) TriTrue id.

(** S1: A(deps: B), B(deps: C), C. *)
Definition chain_registry : PlugMgrPrivate :=
  mkPlugMgrPrivate
    [("A", sample_plugin "/p/libA.so" "A" "1.0.0" [mkDependency "B" "1.0.0"]);
     ("B", sample_plugin "/p/libB.so" "B" "1.0.0" [mkDependency "C" "1.0.0"]);
     ("C", sample_plugin "/p/libC.so" "C" "1.0.0" [])]
    [] ["/p"].

Definition chain_loaded : PlugMgrPrivate :=
  mkPlugMgrPrivate
    [("A", sample_loaded "/p/libA.so" "A" "1.0.0" [mkDependency "B" "1.0.0"] 0);
     ("B", sample_loaded "/p/libB.so" "B" "1.0.0" [mkDependency "C" "1.0.0"] 1);
     ("C", sample_loaded "/p/libC.so" "C" "1.0.0" [] 2)]
    ["C"; "B"; "A"] ["/p"].

Definition chain_events : list Event :=
  [Created "C"; Loaded "C"; Created "B"; Loaded "B"; Created "A"; Loaded "A"].

Definition chain_unloaded : PlugMgrPrivate :=
  mkPlugMgrPrivate [] ["C"; "B"; "A"] [].

(** A plugin that lists itself as a dependency. *)
Definition self_registry : PlugMgrPrivate :=
  mkPlugMgrPrivate
    [("A", sample_plugin "/p/libA.so" "A" "1.0.0" [mkDependency "A" "1.0.0"])]
    [] ["/p"].

(** S4: A(deps: B), B(deps: A). *)
Definition cycle_registry : PlugMgrPrivate :=
  mkPlugMgrPrivate
    [("A", sample_plugin "/p/libA.so" "A" "1.0.0" [mkDependency "B" "1.0.0"]);
     ("B", sample_plugin "/p/libB.so" "B" "1.0.0" [mkDependency "A" "1.0.0"])]
    [] ["/p"].

(** S2: A(deps: B) alone, before and after its first dependency check. *)
Definition missing_registry : PlugMgrPrivate :=
  mkPlugMgrPrivate
    [("A", sample_plugin "/p/libA.so" "A" "1.0.0" [mkDependency "B" "1.0.0"])]
    [] ["/p"].

Definition missing_checked : PlugMgrPrivate :=
  mkPlugMgrPrivate
    [("A", set_dependenciesExists TriFalse
             (sample_plugin "/p/libA.so" "A" "1.0.0" [mkDependency "B" "1.0.0"]))]
    [] ["/p"].

(** The JSON value of a descriptor without dependencies. *)
Definition sample_tree (plugin_name ver : string) : json :=
  JObject [("api", JString "1.0.0"); ("name", JString plugin_name);
           ("prettyName", JString plugin_name); ("version", JString ver);
           ("author", JString "author"); ("url", JString "url");
           ("license", JString "MIT"); ("copyright", JString "(c)");
           ("dependencies", JArray [])].

(** A stand-in for the JSON parser: it knows three descriptor texts. *)
Definition sample_json_parse (text : string) : option json :=
  if String.eqb text "descriptor of A" then Some (sample_tree "A" "1.0.0")
  else if String.eqb text "descriptor of y" then Some (sample_tree "y" "1.0.0")
  else if String.eqb text "descriptor of S" then Some (sample_tree "S" "1.0.0")
  else None.

(** The files of the sample directories: two libraries that both export
    the name A, one that exports the name x with a descriptor naming y,
    and one whose unload the operating system refuses twice. *)
Definition sample_dlopen (file : string) : LibraryFile :=
  if String.eqb file "/p/libA.so" then sample_file "A" "descriptor of A" 0
  else if String.eqb file "/p/copyA.so" then sample_file "A" "descriptor of A" 0
  else if String.eqb file "/q/libX.so" then sample_file "x" "descriptor of y" 0
  else if String.eqb file "/s/libS.so" then sample_file "S" "descriptor of S" 2
  else mkLibraryFile false None None false 0.

Definition sample_env : Env :=
  mkEnv (fun pluginDir _ =>
           if String.eqb pluginDir "/p" then (true, ["/p/libA.so"; "/p/copyA.so"])
           else if String.eqb pluginDir "/q" then (true, ["/q/libX.so"])
           else if String.eqb pluginDir "/s" then (true, ["/s/libS.so"])
           else (false, []))
        "No such file or directory" sample_dlopen.

(** The registries the sample directories yield from an empty manager. *)
Definition found_in_p : PlugMgrPrivate :=
  mkPlugMgrPrivate
    [("A", discovered "/p/libA.so" (sample_dlopen "/p/libA.so") (sample_info "A" "1.0.0" []))]
    [] ["/p"].

Definition found_in_q : PlugMgrPrivate :=
  mkPlugMgrPrivate
    [("x", discovered "/q/libX.so" (sample_dlopen "/q/libX.so") (sample_info "y" "1.0.0" []))]
    [] ["/q"].

Definition found_in_s : PlugMgrPrivate :=
  mkPlugMgrPrivate
    [("S", discovered "/s/libS.so" (sample_dlopen "/s/libS.so") (sample_info "S" "1.0.0" []))]
    [] ["/s"].

(** The depth of the records of the chain A -> B -> C. *)
Definition chain_rank (k : string) : nat :=
  if String.eqb k "A" then 2 else if String.eqb k "B" then 1 else 0.

(** The manager after the chain was loaded and unloaded and the directory
    [/q] was searched: the load-order list still names A, B and C. *)
Definition stale_registry : PlugMgrPrivate :=
  mkPlugMgrPrivate (pluginsMap found_in_q) ["C"; "B"; "A"] ["/q"].

(** The events of the first strict load pass over S2. *)
Definition missing_events : list Event :=
  [Callback LOAD_DEPENDENCY_NOT_FOUND (Some "/p/libA.so")].

(** * Proofs *)

Lemma find_update_eq k f m :
  find k (update k f m) = option_map f (find k m).
Proof.
  induction m as [|[k' p] r IH]; simpl; auto.
  destruct (String.eqb k' k) eqn:E; simpl; rewrite E; auto.
Qed.

Lemma find_update_ne k k' f m :
  k <> k' -> find k' (update k f m) = find k' m.
Proof.
  intros Hne. induction m as [|[k0 p] r IH]; simpl; auto.
  destruct (String.eqb k0 k) eqn:E; simpl.
  - apply String.eqb_eq in E. subst k0.
    destruct (String.eqb k k') eqn:E'; auto.
    apply String.eqb_eq in E'. contradiction.
  - rewrite IH. reflexivity.
Qed.

Lemma keys_update k f m : keys (update k f m) = keys m.
Proof.
  unfold keys. induction m as [|[k' p] r IH]; simpl; auto.
  destruct (String.eqb k' k); simpl; auto. rewrite IH. auto.
Qed.

Lemma find_none_iff k m : find k m = None <-> ~ In k (keys m).
Proof.
  induction m as [|[k' p] r IH]; simpl.
  - split; auto.
  - destruct (String.eqb k' k) eqn:E.
    + apply String.eqb_eq in E. split; [discriminate | intros H; exfalso; apply H; auto].
    + apply String.eqb_neq in E. rewrite IH.
      split; [intros H [Hk|Hin]; auto | intros H Hin; apply H; auto].
Qed.

Lemma find_some_in k m p : find k m = Some p -> In k (keys m).
Proof.
  intros H. destruct (in_dec string_dec k (keys m)) as [i|n]; auto.
  apply find_none_iff in n. congruence.
Qed.

Lemma in_keys_find k m : In k (keys m) -> exists p, find k m = Some p.
Proof.
  intros H. destruct (find k m) eqn:E; eauto.
  apply find_none_iff in E. contradiction.
Qed.

Lemma keys_erase k m : keys (erase k m) = filter (fun x => negb (String.eqb x k)) (keys m).
Proof.
  unfold keys, erase. induction m as [|[k' p] r IH]; simpl; auto.
  destruct (String.eqb k' k); simpl; auto. rewrite <- IH. auto.
Qed.

Lemma find_erase_ne k k' m : k <> k' -> find k' (erase k m) = find k' m.
Proof.
  intros Hne. induction m as [|[k0 p] r IH]; simpl; auto.
  destruct (String.eqb k0 k) eqn:E; simpl.
  - apply String.eqb_eq in E. subst.
    destruct (String.eqb k k') eqn:E'; auto. apply String.eqb_eq in E'. contradiction.
  - rewrite IH. reflexivity.
Qed.

Lemma find_erase_eq k m : find k (erase k m) = None.
Proof.
  apply find_none_iff. rewrite keys_erase. intros H. apply filter_In in H.
  destruct H as [_ H]. rewrite String.eqb_refl in H. discriminate.
Qed.

Lemma same_but_flag_refl p : same_but_flag p p.
Proof. destruct p; reflexivity. Qed.

Lemma same_but_flag_trans p q r : same_but_flag p q -> same_but_flag q r -> same_but_flag p r.
Proof. unfold same_but_flag. intros H1 H2. rewrite H2, H1. destruct p; reflexivity. Qed.

Lemma same_but_flag_info p q : same_but_flag p q -> info q = info p.
Proof. unfold same_but_flag. intros ->. reflexivity. Qed.

Lemma evolves_refl m : evolves m m.
Proof.
  induction m; constructor; auto. split; [reflexivity|]. split; auto using same_but_flag_refl.
Qed.

Lemma evolves_trans m1 m2 m3 : evolves m1 m2 -> evolves m2 m3 -> evolves m1 m3.
Proof.
  intros H. revert m3. induction H as [|e1 e2 r1 r2 (Hk & Hs & Hf) _ IH]; intros m3 H3; inversion H3; subst.
  - constructor.
  - destruct H1 as (Hk' & Hs' & Hf'). constructor.
    + split; [congruence|]. split; [eapply same_but_flag_trans; eauto|].
      intros Hn. rewrite Hf'; auto. rewrite Hf; auto.
    + apply IH. assumption.
Qed.

Lemma evolves_keys m m' : evolves m m' -> keys m' = keys m.
Proof.
  unfold keys. induction 1 as [|e1 e2 r1 r2 (Hk & _) _ IH]; simpl; congruence.
Qed.

Lemma evolves_find m m' k p :
  evolves m m' -> find k m = Some p ->
  exists p', find k m' = Some p' /\ same_but_flag p p' /\
           (dependenciesExists p <> Indeterminate -> dependenciesExists p' = dependenciesExists p).
Proof.
  induction 1 as [|[k1 p1] [k2 p2] r1 r2 (Hk & Hs & Hf) _ IH]; simpl; intros Hfind.
  - discriminate.
  - simpl in *. subst k2. destruct (String.eqb k1 k).
    + inversion Hfind; subst. eauto.
    + auto.
Qed.

Lemma evolves_find_none m m' k : evolves m m' -> find k m = None -> find k m' = None.
Proof.
  intros H Hn. apply find_none_iff. rewrite (evolves_keys _ _ H). apply find_none_iff. auto.
Qed.

Lemma evolves_find_inv m m' k p' :
  evolves m m' -> find k m' = Some p' ->
  exists p, find k m = Some p /\ same_but_flag p p' /\
           (dependenciesExists p <> Indeterminate -> dependenciesExists p' = dependenciesExists p).
Proof.
  intros H Hf. destruct (find k m) as [p|] eqn:E.
  - destruct (evolves_find _ _ _ _ H E) as (p2 & Hf2 & Hs & Hm). exists p. 
    rewrite Hf in Hf2. inversion Hf2; subst. auto.
  - rewrite (evolves_find_none _ _ _ H E) in Hf. discriminate.
Qed.

Lemma evolves_update m k v :
  (flag m k = Some Indeterminate \/ flag m k = Some v \/ flag m k = None) ->
  evolves m (update k (set_dependenciesExists v) m).
Proof.
  unfold flag. induction m as [|[k' p] r IH]; simpl; intros H.
  - constructor.
  - destruct (String.eqb k' k) eqn:E; simpl in *.
    + constructor; [|apply evolves_refl]. simpl. split; [reflexivity|]. split.
      * unfold same_but_flag. destruct p; reflexivity.
      * intros Hn. destruct H as [H|[H|H]]; inversion H; congruence.
    + constructor; [|apply IH; assumption]. simpl.
      split; [reflexivity|]. split; auto using same_but_flag_refl.
Qed.

Lemma flag_update_eq m k v p :
  find k m = Some p -> flag (update k (set_dependenciesExists v) m) k = Some v.
Proof. intros H. unfold flag. rewrite find_update_eq, H. reflexivity. Qed.

Lemma flag_update_ne m k k' f : k <> k' -> flag (update k f m) k' = flag m k'.
Proof. intros H. unfold flag. rewrite find_update_ne; auto. Qed.

Lemma evolves_flag m m' k v :
  evolves m m' -> flag m k = Some v -> v <> Indeterminate -> flag m' k = Some v.
Proof.
  unfold flag. intros H Hf Hv. destruct (find k m) as [p|] eqn:E; [|discriminate].
  destruct (evolves_find _ _ _ _ H E) as (p' & -> & _ & Hm). simpl in *.
  inversion Hf; subst. rewrite Hm; auto.
Qed.

Lemma evolves_flag_some m m' k v :
  evolves m m' -> flag m k = Some v -> exists v', flag m' k = Some v'.
Proof.
  unfold flag. intros H Hf. destruct (find k m) as [p|] eqn:E; [|discriminate].
  destruct (evolves_find _ _ _ _ H E) as (p' & -> & _). simpl. eauto.
Qed.


Lemma ok_dep_evolves m m' d : evolves m m' -> ok_dep m d <-> ok_dep m' d.
Proof.
  intros H. split; intros (q & Hq & Hc).
  - destruct (evolves_find _ _ _ _ H Hq) as (q' & Hq' & Hs & _).
    exists q'. split; auto. rewrite (same_but_flag_info _ _ Hs). auto.
  - destruct (evolves_find_inv _ _ _ _ H Hq) as (q' & Hq' & Hs & _).
    exists q'. split; auto. rewrite <- (same_but_flag_info _ _ Hs). auto.
Qed.

Lemma deps_ok_evolves m m' k : evolves m m' -> deps_ok m k <-> deps_ok m' k.
Proof.
  intros H. split; intros (p & Hp & Hall).
  - destruct (evolves_find _ _ _ _ H Hp) as (p' & Hp' & Hs & _).
    exists p'. split; auto. rewrite (same_but_flag_info _ _ Hs).
    eapply Forall_impl; [|exact Hall]. intros d. apply (proj1 (ok_dep_evolves _ _ _ H)).
  - destruct (evolves_find_inv _ _ _ _ H Hp) as (p' & Hp' & Hs & _).
    exists p'. split; auto. rewrite <- (same_but_flag_info _ _ Hs).
    eapply Forall_impl; [|exact Hall]. intros d. apply (proj2 (ok_dep_evolves _ _ _ H)).
Qed.

Lemma deps_bad_evolves m m' k : evolves m m' -> deps_bad m k <-> deps_bad m' k.
Proof.
  intros H. split; intros (p & Hp & Hex).
  - destruct (evolves_find _ _ _ _ H Hp) as (p' & Hp' & Hs & _).
    exists p'. split; auto. rewrite (same_but_flag_info _ _ Hs).
    eapply Exists_impl; [|exact Hex]. intros d Hd Hok. apply Hd.
    apply (proj2 (ok_dep_evolves _ _ _ H)). exact Hok.
  - destruct (evolves_find_inv _ _ _ _ H Hp) as (p' & Hp' & Hs & _).
    exists p'. split; auto. rewrite <- (same_but_flag_info _ _ Hs).
    eapply Exists_impl; [|exact Hex]. intros d Hd Hok. apply Hd.
    apply (proj1 (ok_dep_evolves _ _ _ H)). exact Hok.
Qed.

Lemma deps_ok_bad m k : deps_ok m k -> deps_bad m k -> False.
Proof.
  intros (p & Hp & Hall) (p' & Hp' & Hex). rewrite Hp in Hp'. inversion Hp'; subst.
  apply Exists_exists in Hex. destruct Hex as (d & Hin & Hn).
  rewrite Forall_forall in Hall. auto.
Qed.

Lemma deps_resolved_ok m m' k : deps_resolved m m' k -> deps_ok m k.
Proof.
  intros (p & Hp & Hall). exists p. split; auto.
  eapply Forall_impl; [|exact Hall]. simpl. tauto.
Qed.

Lemma step_refl m : step m m.
Proof.
  split; [apply evolves_refl|]. split; [auto|].
  split; intros x H1 H2; rewrite H1 in H2; discriminate.
Qed.

Lemma step_trans m1 m2 m3 : step m1 m2 -> step m2 m3 -> step m1 m3.
Proof.
  intros (E1 & F1 & B1 & G1) (E2 & F2 & B2 & G2).
  split; [eapply evolves_trans; eauto|]. split.
  { intros x Hx. destruct (F1 x Hx) as (Hx2 & Hf2). destruct (F2 x Hx2) as (Hx3 & Hf3).
    split; auto. congruence. }
  split.
  - intros x H1 H3. destruct (evolves_flag_some _ _ _ _ E1 H1) as (v & Hv).
    destruct v.
    + rewrite (evolves_flag _ _ _ _ E2 Hv) in H3; discriminate.
    + auto.
    + apply (proj2 (deps_bad_evolves _ _ _ E1)). auto.
  - intros x H1 H3. destruct (evolves_flag_some _ _ _ _ E1 H1) as (v & Hv).
    destruct v.
    + destruct (G1 x H1 Hv) as (p & Hp & Hall). exists p. split; auto.
      eapply Forall_impl; [|exact Hall]. simpl. intros d (Hd & Hy). split; auto.
      eapply evolves_flag; eauto. discriminate.
    + rewrite (evolves_flag _ _ _ _ E2 Hv) in H3; discriminate.
    + destruct (G2 x Hv H3) as (p & Hp & Hall).
      destruct (evolves_find_inv _ _ _ _ E1 Hp) as (p1 & Hp1 & Hs & _).
      exists p1. split; auto. rewrite <- (same_but_flag_info _ _ Hs).
      eapply Forall_impl; [|exact Hall]. simpl. intros d (Hd & Hy). split; auto.
      apply (proj2 (ok_dep_evolves _ _ _ E1)). auto.
Qed.

Lemma split_compare {A : Type} (pre : list A) d rest pre' d' post' :
  pre ++ d :: rest = pre' ++ d' :: post' ->
  In d' pre \/ (pre = pre' /\ d = d' /\ rest = post') \/ In d pre'.
Proof.
  revert pre'. induction pre as [|a pre IH]; intros [|a' pre'] H; simpl in *;
    inversion H; subst; auto.
  destruct (IH _ H2) as [?|[(-> & -> & ->)|?]]; auto.
Qed.

Lemma update_same k f m p :
  find k m = Some p -> f p = p -> update k f m = m.
Proof.
  induction m as [|[k' q] r IH]; simpl; intros Hf Hp; auto.
  destruct (String.eqb k' k).
  - inversion Hf; subst. rewrite Hp. reflexivity.
  - rewrite IH; auto.
Qed.

Lemma update_same_find k f m :
  (exists p, find k m = Some p /\ f p = p) -> find k (update k f m) = find k m.
Proof.
  intros (p & Hp & Hf). rewrite (update_same _ _ _ _ Hp Hf). reflexivity.
Qed.

Lemma failing_flag m k :
  failing m k -> flag m k = Some TriFalse \/ flag m k = Some Indeterminate.
Proof.
  destruct 1 as [k H | k p pre d post Hp Hf _ _ _ _]; auto.
  right. unfold flag. rewrite Hp. simpl. congruence.
Qed.

Lemma failing_update_no m key x :
  flag m key <> Some TriTrue -> failing m x ->
  failing (update key (set_dependenciesExists TriFalse) m) x.
Proof.
  intros Hkey Hx.
  assert (Ev : evolves m (update key (set_dependenciesExists TriFalse) m)).
  { apply evolves_update. destruct (flag m key) as [[| |]|]; auto. congruence. }
  induction Hx as [x H | x p pre d post Hp Hf Hdeps Hpre Hd Hfail IH].
  - apply failing_no. destruct (string_dec key x) as [->|Hne].
    + unfold flag in H. destruct (find x m) eqn:E; [|discriminate].
      eapply flag_update_eq; eauto.
    + rewrite flag_update_ne; auto.
  - destruct (string_dec key x) as [->|Hne].
    + apply failing_no. eapply flag_update_eq; eauto.
    + eapply failing_blocked with (p := p); eauto.
      * rewrite find_update_ne; auto.
      * eapply Forall_impl; [|exact Hpre]. simpl. intros e (He & Hy). split.
        -- apply (proj1 (ok_dep_evolves _ _ _ Ev)). auto.
        -- eapply evolves_flag; eauto. discriminate.
      * apply (proj1 (ok_dep_evolves _ _ _ Ev)). auto.
Qed.

Lemma failing_update_yes m key x :
  ~ failing m key -> failing m x ->
  failing (update key (set_dependenciesExists TriTrue) m) x.
Proof.
  intros Hkey Hx.
  assert (Ev : evolves m (update key (set_dependenciesExists TriTrue) m)).
  { apply evolves_update. destruct (flag m key) as [[| |]|] eqn:E; auto.
    exfalso. apply Hkey. apply failing_no. auto. }
  induction Hx as [x H | x p pre d post Hp Hf Hdeps Hpre Hd Hfail IH].
  - apply failing_no. destruct (string_dec key x) as [->|Hne].
    + exfalso. apply Hkey. apply failing_no. auto.
    + rewrite flag_update_ne; auto.
  - destruct (string_dec key x) as [->|Hne].
    + exfalso. apply Hkey. eapply failing_blocked; eauto.
    + eapply failing_blocked with (p := p); eauto.
      * rewrite find_update_ne; auto.
      * eapply Forall_impl; [|exact Hpre]. simpl. intros e (He & Hy). split.
        -- apply (proj1 (ok_dep_evolves _ _ _ Ev)). auto.
        -- eapply evolves_flag; eauto. discriminate.
      * apply (proj1 (ok_dep_evolves _ _ _ Ev)). auto.
Qed.

(** *** Fuel: more fuel never changes a returned result *)

Lemma checkLoop_mono rec rec' key pp cb deps :
  (forall k m r, rec k m = Done r -> rec' k m = Done r) ->
  forall m tr r,
    checkLoop rec key pp cb deps m tr = Done r ->
    checkLoop rec' key pp cb deps m tr = Done r.
Proof.
  intros Hrec. induction deps as [|d rest IH]; simpl; intros m tr r H; auto.
  destruct (find (dep_name d) m) as [dp|]; auto.
  destruct (negb (compatible (version (info dp)) (dep_version d))); auto.
  destruct (rec (dep_name d) m) as [[[rc m1] tr1]| |] eqn:E; try discriminate.
  rewrite (Hrec _ _ _ E). destruct (to_bool rc); auto.
Qed.

Lemma checkDependencies_mono cb fuel fuel' key m r :
  fuel <= fuel' ->
  checkDependencies fuel cb key m = Done r ->
  checkDependencies fuel' cb key m = Done r.
Proof.
  revert fuel' key m r. induction fuel as [|f IH]; intros fuel' key m r Hle H.
  - discriminate.
  - destruct fuel' as [|f']; [lia|]. simpl in *.
    destruct (find key m) as [p|]; auto.
    destruct (dependenciesExists p); auto.
    eapply checkLoop_mono; [|exact H]. intros k m0 r0. apply IH. lia.
Qed.

(** *** A failing record fails again, without any write or callback *)

Lemma checkLoop_failing rec key pp cb pre d post m retCode :
  Forall (fun e => ok_dep m e /\ rec (dep_name e) m = Done (SUCCESS, m, [])) pre ->
  ok_dep m d ->
  rec (dep_name d) m = Done (retCode, m, []) ->
  to_bool retCode = false ->
  forall tr,
    checkLoop rec key pp cb (pre ++ d :: post) m tr = Done (retCode, m, tr).
Proof.
  intros Hpre (q & Hq & Hc) Hd Hrc. induction Hpre as [|e pre ((qe & Hqe & Hce) & He) _ IH];
    intros tr; simpl.
  - rewrite Hq, Hc, Hd, Hrc. simpl. rewrite app_nil_r. reflexivity.
  - rewrite Hqe, Hce, He. simpl. rewrite app_nil_r. apply IH.
Qed.

Lemma checkDependencies_failing cb m k :
  failing m k ->
  exists fuel retCode,
    to_bool retCode = false /\ checkDependencies fuel cb k m = Done (retCode, m, []).
Proof.
  induction 1 as [k H | k p pre d post Hp Hf Hdeps Hpre Hd Hfail (fuel & rc & Hrc & IH)].
  - unfold flag in H. destruct (find k m) as [p|] eqn:E; [|discriminate].
    simpl in H. inversion H as [Hflag].
    exists 1. simpl. rewrite E, Hflag.
    destruct (Nat.eqb (count (name (info p)) m) 0);
      [exists LOAD_DEPENDENCY_NOT_FOUND | exists LOAD_DEPENDENCY_BAD_VERSION];
      split; reflexivity.
  - exists (S (S fuel)), rc. split; auto.
    cbn [checkDependencies]. rewrite Hp, Hf, Hdeps.
    apply checkLoop_failing; auto.
    + eapply Forall_impl; [|exact Hpre]. simpl. intros e (He & Hy). split; auto.
      unfold flag in Hy. destruct (find (dep_name e) m) as [q|] eqn:E; [|discriminate].
      simpl in Hy. inversion Hy as [Hq]. cbn [checkDependencies].
      rewrite Hq. reflexivity.
    + exact (checkDependencies_mono cb fuel (S fuel) _ _ _ (Nat.le_succ_diag_r _) IH).
Qed.

(** *** What a returned check establishes *)

Lemma not_failing_when_deps_yes m key p :
  find key m = Some p ->
  flag m key <> Some TriFalse ->
  Forall (fun e => ok_dep m e /\ flag m (dep_name e) = Some TriTrue)
         (dependencies (info p)) ->
  ~ failing m key.
Proof.
  intros Hp Hno Hall Hf.
  destruct Hf as [k H | k p' pre d post Hp' Hf' Hdeps _ _ Hfail]; [contradiction|].
  rewrite Hp in Hp'. inversion Hp'; subst p'.
  rewrite Forall_forall in Hall.
  destruct (Hall d) as (_ & Hy). { rewrite Hdeps. apply in_or_app. right. left. reflexivity. }
  destruct (failing_flag _ _ Hfail) as [Hx|Hx]; rewrite Hx in Hy; discriminate.
Qed.

Lemma checkLoop_checked rec key pp cb plugin m_entry :
  (forall k m rc m' tr, rec k m = Done (rc, m', tr) -> checked k m rc m') ->
  find key m_entry = Some plugin ->
  dependenciesExists plugin = Indeterminate ->
  forall deps pre m0 tr0 rc m' tr,
    dependencies (info plugin) = pre ++ deps ->
    step m_entry m0 ->
    Forall (fun e => ok_dep m0 e /\ flag m0 (dep_name e) = Some TriTrue) pre ->
    checkLoop rec key pp cb deps m0 tr0 = Done (rc, m', tr) ->
    checked key m_entry rc m'.
Proof.
  intros Hrec Hentry Hind.
  assert (Hflag_entry : flag m_entry key = Some Indeterminate).
  { unfold flag. rewrite Hentry. simpl. congruence. }
  induction deps as [|d rest IH]; intros pre m0 tr0 rc m' tr Hdeps Hstep Hpre H; simpl in H.
  - (* every dependency passed: the flag becomes true *)
    inversion H; subst; clear H. rewrite app_nil_r in Hdeps.
    destruct Hstep as (E0 & F0 & B0 & G0).
    destruct (evolves_find _ _ _ _ E0 Hentry) as (p0 & Hp0 & Hs0 & _).
    assert (Hinfo : info p0 = info plugin) by (apply same_but_flag_info; auto).
    assert (Hall0 : Forall (fun e => ok_dep m0 e /\ flag m0 (dep_name e) = Some TriTrue)
                           (dependencies (info p0))) by (rewrite Hinfo, Hdeps; auto).
    assert (Hnotno : flag m0 key <> Some TriFalse).
    { intros Hno. apply (deps_ok_bad m_entry key).
      - apply (proj2 (deps_ok_evolves _ _ _ E0)). exists p0. split; auto.
        eapply Forall_impl; [|exact Hall0]. simpl. tauto.
      - auto. }
    assert (Hnf : ~ failing m0 key) by (eapply not_failing_when_deps_yes; eauto).
    assert (Ev : evolves m0 (update key (set_dependenciesExists TriTrue) m0)).
    { apply evolves_update. destruct (flag m0 key) as [[| |]|]; auto. congruence. }
    assert (Hstep' : step m0 (update key (set_dependenciesExists TriTrue) m0)).
    { split; [exact Ev|]. split.
      { intros x Hx. split; [apply failing_update_yes; auto|].
        apply find_update_ne. intros ->. contradiction. }
      split.
      - intros x H1 H2. destruct (string_dec key x) as [->|Hne].
        + rewrite (flag_update_eq _ _ _ _ Hp0) in H2. discriminate.
        + rewrite flag_update_ne in H2; auto. rewrite H1 in H2. discriminate.
      - intros x H1 H2. destruct (string_dec key x) as [->|Hne].
        + exists p0. split; auto.
          eapply Forall_impl; [|exact Hall0]. simpl. intros e (He & Hy). split; auto.
          eapply evolves_flag; eauto. discriminate.
        + rewrite flag_update_ne in H2; auto. rewrite H1 in H2. discriminate. }
    split; [eapply step_trans; [|exact Hstep']; split; auto|].
    split; intros Hrc; [|discriminate].
    eapply flag_update_eq; eauto.
  - destruct Hstep as (E0 & F0 & B0 & G0).
    destruct (evolves_find _ _ _ _ E0 Hentry) as (p0 & Hp0 & Hs0 & _).
    assert (Hinfo : info p0 = info plugin) by (apply same_but_flag_info; auto).
    assert (Hbad : ~ ok_dep m0 d -> to_bool rc = false ->
                   checked key m_entry rc
                     (update key (set_dependenciesExists TriFalse) m0)).
    { intros Hnok Hrcf.
      assert (Hnotyes : flag m0 key <> Some TriTrue).
      { intros Hyes. destruct (G0 key Hflag_entry Hyes) as (p & Hp & Hall).
        rewrite Hentry in Hp. inversion Hp; subst p.
        rewrite Forall_forall in Hall. destruct (Hall d) as (Hok & _).
        { rewrite Hdeps. apply in_or_app. right. left. reflexivity. }
        apply Hnok. apply (proj1 (ok_dep_evolves _ _ _ E0)). auto. }
      assert (Ev : evolves m0 (update key (set_dependenciesExists TriFalse) m0)).
      { apply evolves_update. destruct (flag m0 key) as [[| |]|]; auto. congruence. }
      assert (Hstep' : step m0 (update key (set_dependenciesExists TriFalse) m0)).
      { split; [exact Ev|]. split.
        { intros x Hx. split; [apply failing_update_no; auto|].
          destruct (string_dec key x) as [<-|Hne]; [|apply find_update_ne; auto].
          apply update_same_find.
          destruct Hx as [k Hk | k p pre' d' post' Hp Hf Hdeps' Hpre' Hd' Hfail'].
          - unfold flag in Hk. rewrite Hp0 in Hk. simpl in Hk. exists p0. split; auto.
            destruct p0; simpl in *. inversion Hk; subst. reflexivity.
          - exfalso. rewrite Hp0 in Hp. inversion Hp; subst p.
            rewrite Hinfo, Hdeps in Hdeps'.
            destruct (split_compare _ _ _ _ _ _ Hdeps') as [Hin|[(-> & -> & ->)|Hin]].
            + rewrite Forall_forall in Hpre. destruct (Hpre _ Hin) as (_ & Hy).
              destruct (failing_flag _ _ Hfail') as [Hx|Hx]; rewrite Hx in Hy; discriminate.
            + contradiction.
            + rewrite Forall_forall in Hpre'. destruct (Hpre' _ Hin) as (Hok & _).
              contradiction. }
        split.
        - intros x H1 H2. destruct (string_dec key x) as [->|Hne].
          + exists p0. split; auto. rewrite Hinfo, Hdeps.
            apply Exists_exists. exists d. split; auto.
            apply in_or_app. right. left. reflexivity.
          + rewrite flag_update_ne in H2; auto. rewrite H1 in H2. discriminate.
        - intros x H1 H2. destruct (string_dec key x) as [->|Hne].
          + rewrite (flag_update_eq _ _ _ _ Hp0) in H2. discriminate.
          + rewrite flag_update_ne in H2; auto. rewrite H1 in H2. discriminate. }
      split; [eapply step_trans; [|exact Hstep']; split; auto|].
      assert (Hfl : failing (update key (set_dependenciesExists TriFalse) m0) key).
      { apply failing_no. eapply flag_update_eq; eauto. }
      split; intros Hrc; auto. congruence. }
    destruct (find (dep_name d) m0) as [dp|] eqn:Edp.
    + destruct (compatible (version (info dp)) (dep_version d)) eqn:Ec; simpl in H.
      * assert (Hokd : ok_dep m0 d) by (exists dp; auto).
        destruct (rec (dep_name d) m0) as [[[rc1 m1] tr1]| |] eqn:Erec; try discriminate.
        destruct (Hrec _ _ _ _ _ Erec) as (Hstep1 & Hsucc & Hfail).
        assert (E1 : evolves m0 m1) by (destruct Hstep1; auto).
        assert (Hstep01 : step m_entry m1).
        { eapply step_trans; [|exact Hstep1]. split; auto. }
        assert (Hpre1 : Forall (fun e => ok_dep m1 e /\ flag m1 (dep_name e) = Some TriTrue) pre).
        { eapply Forall_impl; [|exact Hpre]. simpl. intros e (He & Hy). split.
          - apply (proj1 (ok_dep_evolves _ _ _ E1)). auto.
          - eapply evolves_flag; eauto. discriminate. }
        assert (Hokd1 : ok_dep m1 d) by (apply (proj1 (ok_dep_evolves _ _ _ E1)); auto).
        destruct (to_bool rc1) eqn:Erc.
        -- apply (IH (pre ++ [d]) m1 (tr0 ++ tr1) rc m' tr); auto.
           ++ rewrite <- app_assoc. simpl. auto.
           ++ apply Forall_app. split; auto.
        -- inversion H; subst; clear H.
           split; [exact Hstep01|]. split; intros Hrc; [congruence|].
           specialize (Hfail eq_refl).
           destruct Hstep01 as (E01 & F01 & B01 & G01).
           destruct (evolves_find _ _ _ _ E01 Hentry) as (p1 & Hp1 & Hs1 & _).
           assert (Hinfo1 : info p1 = info plugin) by (apply same_but_flag_info; auto).
           destruct (dependenciesExists p1) eqn:Ef1.
           ++ exfalso.
              assert (Hy : flag m' key = Some TriTrue).
              { unfold flag. rewrite Hp1. simpl. congruence. }
              destruct (G01 key Hflag_entry Hy) as (p & Hp & Hall).
              rewrite Hentry in Hp. inversion Hp; subst p.
              rewrite Forall_forall in Hall. destruct (Hall d) as (_ & Hyd).
              { rewrite Hdeps. apply in_or_app. right. left. reflexivity. }
              destruct (failing_flag _ _ Hfail) as [Hx|Hx]; rewrite Hx in Hyd; discriminate.
           ++ apply failing_no. unfold flag. rewrite Hp1. simpl. congruence.
           ++ eapply failing_blocked with (p := p1) (pre := pre) (d := d) (post := rest); eauto.
              rewrite Hinfo1. auto.
      * inversion H; subst; clear H. apply Hbad; [|reflexivity].
        intros (q & Hq & Hcq). rewrite Edp in Hq. inversion Hq; subst q. congruence.
    + inversion H; subst; clear H. apply Hbad; [|reflexivity].
      intros (q & Hq & Hcq). rewrite Edp in Hq. discriminate.
Qed.

Lemma checkDependencies_checked cb fuel :
  forall k m rc m' tr,
    checkDependencies fuel cb k m = Done (rc, m', tr) -> checked k m rc m'.
Proof.
  induction fuel as [|f IH]; intros k m rc m' tr H; simpl in H; [discriminate|].
  destruct (find k m) as [p|] eqn:Ep; [|discriminate].
  destruct (dependenciesExists p) eqn:Ef.
  - inversion H; subst. split; [apply step_refl|]. split; intros Hrc; [|discriminate].
    unfold flag. rewrite Ep. simpl. congruence.
  - inversion H; subst. split; [apply step_refl|].
    assert (Hrc : to_bool (if Nat.eqb (count (name (info p)) m') 0
                           then LOAD_DEPENDENCY_NOT_FOUND
                           else LOAD_DEPENDENCY_BAD_VERSION) = false).
    { destruct (Nat.eqb _ _); reflexivity. }
    split; intros Hrc'; [congruence|].
    apply failing_no. unfold flag. rewrite Ep. simpl. congruence.
  - exact (checkLoop_checked (checkDependencies f cb) k (path p) cb p m IH Ep Ef
             (dependencies (info p)) [] m [] rc m' tr eq_refl (step_refl m)
             (Forall_nil _) H).
Qed.

(** *** The topological sort *)

Lemma emitted_spec order p :
  Graph.emitted order p = true <-> exists j, In j order /\ Z.of_nat j = p.
Proof.
  unfold Graph.emitted. rewrite existsb_exists. split.
  - intros (j & Hj & He). apply Z.eqb_eq in He. eauto.
  - intros (j & Hj & He). exists j. split; auto. apply Z.eqb_eq. auto.
Qed.

Lemma pick_spec order nodes : forall s i,
  Graph.pick order s nodes = Some i ->
  s <= i /\ i - s < length nodes /\ ~ In i order /\
  Graph.ready order (nth (i - s) nodes emptyNode) = true.
Proof.
  induction nodes as [|n r IH]; simpl; intros s i H; [discriminate|].
  destruct (negb (existsb (Nat.eqb s) order) && Graph.ready order n) eqn:E.
  - inversion H; subst. apply andb_prop in E. destruct E as (E1 & E2).
    rewrite Nat.sub_diag. repeat split; auto; try lia.
    intros Hin. apply negb_true_iff in E1.
    assert (existsb (Nat.eqb i) order = true); [|congruence].
    apply existsb_exists. exists i. split; auto. apply Nat.eqb_refl.
  - destruct (IH _ _ H) as (H1 & H2 & H3 & H4).
    replace (i - s) with (S (i - S s)) by lia. repeat split; auto; lia.
Qed.

Lemma extend_spec nodes rounds : forall order,
  NoDup order ->
  (forall i, In i order -> i < length nodes) ->
  parents_earlier nodes (rev order) ->
  let order' := Graph.extend rounds nodes order in
  NoDup order' /\ (forall i, In i order' -> i < length nodes) /\
  parents_earlier nodes (rev order').
Proof.
  induction rounds as [|r IH]; simpl; intros order Hnd Hlt Hpar; auto.
  destruct (Graph.pick order 0 nodes) as [i|] eqn:E; auto.
  destruct (pick_spec _ _ _ _ E) as (_ & Hi & Hnin & Hready).
  rewrite Nat.sub_0_r in *.
  apply IH.
  - apply NoDup_app; auto.
    + constructor; [intros []|constructor].
    + intros x Hx [<-|[]]. contradiction.
  - intros j Hj. apply in_app_or in Hj. destruct Hj as [Hj|[<-|[]]]; auto.
  - rewrite rev_app_distr. simpl. split; auto.
    intros p Hp. unfold Graph.ready in Hready. rewrite forallb_forall in Hready.
    destruct (proj1 (emitted_spec _ _) (Hready _ Hp)) as (j & Hj & He).
    exists j. split; auto. apply -> in_rev. auto.
Qed.

Lemma parents_earlier_app nodes a : forall b,
  parents_earlier nodes (b ++ a) -> parents_earlier nodes a.
Proof. induction b as [|x b IH]; simpl; auto. intros (_ & H). auto. Qed.

(** When the sort reports no error its result lists every node exactly
    once, and each node after all of its parents. *)
Lemma topologicalSort_sound nodes order :
  Graph.topologicalSort nodes = (order, false) ->
  exists ids,
    order = map (fun i => node_name (nth i nodes emptyNode)) ids /\
    NoDup ids /\
    (forall i, In i ids <-> i < length nodes) /\
    (forall l1 i l2, ids = l1 ++ i :: l2 ->
       forall p, In p (parentNodes (nth i nodes emptyNode)) ->
                 exists j, In j l1 /\ Z.of_nat j = p).
Proof.
  unfold Graph.topologicalSort. intros H.
  destruct (extend_spec nodes (length nodes) [] (NoDup_nil _)
              (fun i (F : In i []) => match F with end) I) as (Hnd & Hlt & Hpar).
  set (ids := Graph.extend (length nodes) nodes []) in *.
  destruct (Nat.eqb (length ids) (length nodes)) eqn:E; [|discriminate].
  inversion H; subst; clear H. apply Nat.eqb_eq in E.
  exists ids. split; auto. split; auto. split.
  - intros i. split; auto. intros Hi.
    assert (Hincl : incl (seq 0 (length nodes)) ids).
    { apply NoDup_length_incl; auto.
      - rewrite length_seq. lia.
      - intros j Hj. apply in_seq. specialize (Hlt _ Hj). lia. }
    apply Hincl. apply in_seq. lia.
  - intros l1 i l2 Hsplit p Hp. rewrite Hsplit in Hpar.
    rewrite rev_app_distr in Hpar. simpl in Hpar. rewrite <- app_assoc in Hpar.
    apply parents_earlier_app in Hpar. simpl in Hpar. destruct Hpar as (Hpar & _).
    destruct (Hpar _ Hp) as (j & Hj & He). exists j. split; auto.
    apply in_rev. auto.
Qed.

Lemma topologicalSort_error nodes order :
  Graph.topologicalSort nodes = (order, true) -> order = [].
Proof.
  unfold Graph.topologicalSort.
  destruct (Nat.eqb _ _); intros H; inversion H; reflexivity.
Qed.

(** *** Positions in the registry *)

Lemma keys_app (a b : PluginsMap) : keys (a ++ b) = keys a ++ keys b.
Proof. unfold keys. apply map_app. Qed.

Lemma find_app k (a b : PluginsMap) :
  find k (a ++ b) = match find k a with Some p => Some p | None => find k b end.
Proof.
  induction a as [|[k' p] r IH]; simpl; auto. destruct (String.eqb k' k); auto.
Qed.

Lemma update_app_r k f (a b : PluginsMap) :
  ~ In k (keys a) -> update k f (a ++ b) = a ++ update k f b.
Proof.
  induction a as [|[k' p] r IH]; simpl; intros H; auto.
  destruct (String.eqb k' k) eqn:E.
  - apply String.eqb_eq in E. subst. exfalso. apply H. auto.
  - rewrite IH; auto.
Qed.

Lemma update_head k f p (r : PluginsMap) : update k f ((k, p) :: r) = (k, f p) :: r.
Proof. simpl. rewrite String.eqb_refl. reflexivity. Qed.

Lemma find_head k p (r : PluginsMap) : find k ((k, p) :: r) = Some p.
Proof. simpl. rewrite String.eqb_refl. reflexivity. Qed.

Lemma find_middle k p (a b : PluginsMap) :
  ~ In k (keys a) -> find k (a ++ (k, p) :: b) = Some p.
Proof.
  intros H. rewrite find_app. apply find_none_iff in H. rewrite H. apply find_head.
Qed.

Lemma find_in_unique k p (m : PluginsMap) :
  NoDup (keys m) -> In (k, p) m -> find k m = Some p.
Proof.
  induction m as [|[k' q] r IH]; simpl; intros Hnd Hin; [contradiction|].
  inversion Hnd; subst. destruct Hin as [Heq|Hin].
  - inversion Heq; subst. rewrite String.eqb_refl. reflexivity.
  - destruct (String.eqb k' k) eqn:E; auto.
    apply String.eqb_eq in E. subst. exfalso. apply H1.
    change k with (fst (k, p)). apply in_map. auto.
Qed.

Lemma find_in k p (m : PluginsMap) : find k m = Some p -> In (k, p) m.
Proof.
  induction m as [|[k' q] r IH]; simpl; intros H; [discriminate|].
  destruct (String.eqb k' k) eqn:E; auto.
  apply String.eqb_eq in E. inversion H; subst. auto.
Qed.

Lemma Forall2_eq_on {A : Type} (R : A -> A -> Prop) (a b : list A) :
  Forall2 R a b ->
  (forall e e', In e a -> In e' b -> R e e' -> e = e') ->
  a = b.
Proof.
  induction 1 as [|x y a b Hxy _ IH]; intros H; auto.
  rewrite (H x y); simpl; auto. rewrite IH; auto.
  intros e e' He He'. apply H; simpl; auto.
Qed.

Lemma evolves_app_inv a b m' :
  evolves (a ++ b) m' ->
  exists a' b', m' = a' ++ b' /\ evolves a a' /\ evolves b b'.
Proof.
  intros H. apply Forall2_app_inv_l in H.
  destruct H as (a' & b' & Ha & Hb & ->). eauto.
Qed.

(** *** Views *)

Lemma same_view_refl m : same_view m m.
Proof. intros k. reflexivity. Qed.


Lemma same_view_update k f m :
  (forall p, check_view (f p) = check_view p) -> same_view m (update k f m).
Proof.
  intros Hf x. destruct (string_dec k x) as [->|Hne].
  - rewrite find_update_eq. destruct (find x m); simpl; auto. rewrite Hf. auto.
  - rewrite find_update_ne; auto.
Qed.

Lemma same_view_replace pre k p p' post :
  check_view p' = check_view p ->
  same_view (pre ++ (k, p) :: post) (pre ++ (k, p') :: post).
Proof.
  intros H x. rewrite !find_app. destruct (find x pre); auto. simpl.
  destruct (String.eqb k x); simpl; congruence.
Qed.

Lemma same_static_replace pre k p p' post :
  static_part p' = static_part p ->
  same_static (pre ++ (k, p) :: post) (pre ++ (k, p') :: post).
Proof.
  intros H. unfold same_static. rewrite !map_app. simpl. rewrite H. reflexivity.
Qed.

Lemma same_view_flag m m' k : same_view m m' -> flag m' k = flag m k.
Proof.
  intros H. specialize (H k). unfold flag.
  destruct (find k m), (find k m'); simpl in *; inversion H; auto.
Qed.

Lemma same_view_ok_dep m m' d : same_view m m' -> ok_dep m d -> ok_dep m' d.
Proof.
  intros H (q & Hq & Hc). specialize (H (dep_name d)). rewrite Hq in H.
  destruct (find (dep_name d) m') as [q'|] eqn:E; simpl in H; inversion H.
  exists q'. split; auto. congruence.
Qed.

Lemma same_view_failing m m' x : same_view m m' -> failing m x -> failing m' x.
Proof.
  intros H Hx. induction Hx as [x Hf | x p pre d post Hp Hf Hdeps Hpre Hd Hfail IH].
  - apply failing_no. rewrite (same_view_flag _ _ _ H). auto.
  - pose proof (H x) as Hx. rewrite Hp in Hx.
    destruct (find x m') as [p'|] eqn:Ep'; simpl in Hx; inversion Hx.
    eapply failing_blocked with (p := p') (pre := pre) (d := d) (post := post); eauto.
    + congruence.
    + congruence.
    + eapply Forall_impl; [|exact Hpre]. simpl. intros e (He & Hy). split.
      * eapply same_view_ok_dep; eauto.
      * rewrite (same_view_flag _ _ _ H). auto.
    + eapply same_view_ok_dep; eauto.
Qed.

Lemma same_graph_view m m' : same_graph m m' -> same_view m m'.
Proof.
  unfold same_graph. revert m'.
  induction m as [|[k p] r IH]; intros [|[k' p'] r'] H; simpl in H; inversion H.
  - intros x. reflexivity.
  - subst. intros x. simpl. destruct (String.eqb k' x).
    + simpl. unfold check_view. unfold graph_part in H2. inversion H2. congruence.
    + apply IH. auto.
Qed.

Lemma same_graph_keys m m' : same_graph m m' -> keys m' = keys m.
Proof.
  unfold same_graph, keys. intros H.
  apply (f_equal (map fst)) in H. rewrite !map_map in H. simpl in H. auto.
Qed.

Lemma same_static_keys m m' : same_static m m' -> keys m' = keys m.
Proof.
  unfold same_static, keys. intros H.
  apply (f_equal (map fst)) in H. rewrite !map_map in H. simpl in H. auto.
Qed.

Lemma same_static_update k f m :
  (forall p, static_part (f p) = static_part p) -> same_static m (update k f m).
Proof.
  intros Hf. unfold same_static. induction m as [|[k' p] r IH]; simpl; auto.
  destruct (String.eqb k' k); simpl.
  - rewrite Hf. reflexivity.
  - rewrite IH. reflexivity.
Qed.

Lemma evolves_same_static m m' : evolves m m' -> same_static m m'.
Proof.
  unfold same_static. induction 1 as [|[k p] [k' p'] r r' (Hk & Hs & _) _ IH]; simpl; auto.
  simpl in *. subst k'. rewrite IH. unfold same_but_flag in Hs. rewrite Hs.
  reflexivity.
Qed.

Lemma same_static_trans m1 m2 m3 :
  same_static m1 m2 -> same_static m2 m3 -> same_static m1 m3.
Proof. unfold same_static. congruence. Qed.

Lemma same_static_hasInstance m m' k :
  same_static m m' -> hasInstance m' k = hasInstance m k.
Proof.
  unfold same_static, hasInstance. revert m'.
  induction m as [|[k1 p] r IH]; intros [|[k2 p'] r'] H; simpl in H; inversion H; auto.
  subst. simpl. destruct (String.eqb k2 k); auto.
  unfold static_part in H2. inversion H2. congruence.
Qed.

(** *** The events of a check are callback invocations *)

Lemma checkLoop_trace rec key pp cb :
  (forall k m rc m' tr, rec k m = Done (rc, m', tr) -> Forall is_callback tr) ->
  forall deps m tr0 rc m' tr,
    checkLoop rec key pp cb deps m tr0 = Done (rc, m', tr) ->
    exists tr', tr = tr0 ++ tr' /\ Forall is_callback tr'.
Proof.
  intros Hrec. induction deps as [|d rest IH]; simpl; intros m tr0 rc m' tr H.
  - inversion H; subst. exists []. rewrite app_nil_r. auto.
  - assert (Hcb : forall c s, Forall is_callback (callback cb c s)).
    { intros c s. unfold callback. destruct cb; repeat constructor. }
    destruct (find (dep_name d) m) as [dp|].
    + destruct (negb (compatible (version (info dp)) (dep_version d))).
      * inversion H; subst. eauto.
      * destruct (rec (dep_name d) m) as [[[rc1 m1] tr1]| |] eqn:E; try discriminate.
        pose proof (Hrec _ _ _ _ _ E) as Htr1.
        destruct (to_bool rc1).
        -- destruct (IH _ _ _ _ _ H) as (tr' & -> & Htr').
           exists (tr1 ++ tr'). rewrite app_assoc. split; auto.
           apply Forall_app. auto.
        -- inversion H; subst. eauto.
    + inversion H; subst. eauto.
Qed.

Lemma checkDependencies_trace cb fuel : forall k m rc m' tr,
  checkDependencies fuel cb k m = Done (rc, m', tr) -> Forall is_callback tr.
Proof.
  induction fuel as [|f IH]; intros k m rc m' tr H; simpl in H; [discriminate|].
  destruct (find k m) as [p|]; [|discriminate].
  destruct (dependenciesExists p).
  - inversion H; subst. constructor.
  - inversion H; subst. constructor.
  - destruct (checkLoop_trace _ _ _ _ IH _ _ _ _ _ _ H) as (tr' & -> & Htr'). auto.
Qed.

(** *** The first step of [loadPlugins] *)

Lemma assign_app a : forall b n,
  assign (a ++ b) n =
  let '(a', na) := assign a n in
  let '(b', nb) := assign b (n + length na) in
  (a' ++ b', na ++ nb).
Proof.
  induction a as [|[k p] r IH]; intros b n; simpl.
  - rewrite Nat.add_0_r. destruct (assign b n). reflexivity.
  - destruct (is_true (dependenciesExists p)).
    + rewrite IH. destruct (assign r (S n)) as [r' nr]. simpl.
      replace (n + S (length nr)) with (S (n + length nr)) by lia.
      destruct (assign b _). reflexivity.
    + rewrite IH. destruct (assign r n) as [r' nr].
      destruct (assign b _). reflexivity.
Qed.

Lemma set_graphId_same p g : graphId p = g -> set_graphId g p = p.
Proof. intros <-. destruct p; reflexivity. Qed.

Lemma assign_snoc pre nl k p :
  assign pre 0 = (pre, nl) ->
  (if is_true (dependenciesExists p)
   then graphId p = Z.of_nat (length nl) else graphId p = (-1)%Z) ->
  assign (pre ++ [(k, p)]) 0 =
  (pre ++ [(k, p)],
   if is_true (dependenciesExists p) then nl ++ [mkNode k []] else nl).
Proof.
  intros Ha Hg. rewrite assign_app, Ha. simpl.
  destruct (is_true (dependenciesExists p)).
  - rewrite (set_graphId_same _ _ Hg). reflexivity.
  - rewrite (set_graphId_same _ _ Hg), app_nil_r. reflexivity.
Qed.

Lemma checkAll_settles fuel ttc cb : forall todo pre post nl tr m1 nl1 tr1,
  keys post = todo ->
  NoDup (keys (pre ++ post)) ->
  assign pre 0 = (pre, nl) ->
  Forall (fun e => dependenciesExists (snd e) = TriTrue \/
                   failing (pre ++ post) (fst e)) pre ->
  checkAll fuel ttc cb todo (pre ++ post) nl tr = Done (None, m1, nl1, tr1) ->
  settled m1 /\ assign m1 0 = (m1, nl1) /\ same_static (pre ++ post) m1 /\
  exists tr', tr1 = tr ++ tr' /\ Forall is_callback tr'.
Proof.
  induction todo as [|k todo IH]; intros pre post nl tr m1 nl1 tr1 Hkeys Hnd Hassign Hinv H.
  - destruct post; [|discriminate]. simpl in H. inversion H; subst; clear H.
    rewrite app_nil_r in *. split; [exact Hinv|]. split; [exact Hassign|].
    split; [reflexivity|]. exists []. rewrite app_nil_r. auto.
  - destruct post as [|[k0 p] post]; [discriminate|].
    assert (Hk0 : k0 = k) by (simpl in Hkeys; congruence).
    assert (Hkeys' : keys post = todo) by (unfold keys in *; simpl in Hkeys; congruence).
    subst k0. clear Hkeys. rename Hkeys' into Hkeys.
    assert (Hk_pre : ~ In k (keys pre)).
    { rewrite keys_app in Hnd. simpl in Hnd. apply NoDup_remove_2 in Hnd.
      intros Hin. apply Hnd. apply in_or_app. auto. }
    cbn [checkAll] in H.
    rewrite update_app_r, update_head in H by exact Hk_pre.
    set (p0 := set_graphId (-1) p) in *.
    set (m0 := pre ++ (k, p0) :: post) in *.
    assert (Hview0 : same_view (pre ++ (k, p) :: post) m0).
    { apply same_view_replace. reflexivity. }
    assert (Hstatic0 : same_static (pre ++ (k, p) :: post) m0).
    { apply same_static_replace. reflexivity. }
    assert (Hnd0 : NoDup (keys m0)).
    { unfold m0. rewrite keys_app in *. exact Hnd. }
    destruct (checkDependencies fuel cb k m0) as [[[rc mA] trA]| |] eqn:Echk;
      try discriminate.
    destruct (checkDependencies_checked _ _ _ _ _ _ _ Echk)
      as ((Ev & F & B & G) & Hsucc & Hfail).
    pose proof (checkDependencies_trace _ _ _ _ _ _ _ Echk) as HtrA.
    destruct (evolves_app_inv _ _ _ Ev) as (preA & restA & HmA & EvPre & EvRest).
    inversion EvRest as [|e1 [kA pA] r1 postA (HkA & HsA & HmonoA) EvPost]; subst e1 r1 restA.
    simpl in HkA, HsA, HmonoA. subst kA.
    assert (HndA : NoDup (keys mA)) by (rewrite (evolves_keys _ _ Ev); exact Hnd0).
    assert (HpreA : pre = preA).
    { apply (Forall2_eq_on _ _ _ EvPre). intros [x q] [x' q'] Hin Hin' (Hx & Hs & Hmono).
      simpl in *. subst x'. f_equal.
      rewrite Forall_forall in Hinv. destruct (Hinv _ Hin) as [Hy|Hf]; simpl in *.
      - unfold same_but_flag in Hs. rewrite Hs, Hmono, Hy by congruence.
        clear Hs Hmono Hin. destruct q; simpl in *. rewrite Hy. reflexivity.
      - apply (same_view_failing _ _ _ Hview0) in Hf.
        destruct (F _ Hf) as (_ & Hfind).
        rewrite (find_in_unique x q m0) in Hfind; auto.
        + rewrite (find_in_unique x q' mA) in Hfind; auto; [congruence|].
          rewrite HmA. apply in_or_app. auto.
        + unfold m0. apply in_or_app. auto. }
    subst preA.
    assert (HfindA : find k mA = Some pA) by (rewrite HmA; apply find_middle; auto).
    assert (HgA : graphId pA = (-1)%Z).
    { unfold same_but_flag in HsA. rewrite HsA. reflexivity. }
    assert (HinvA : Forall (fun e => dependenciesExists (snd e) = TriTrue \/
                                     failing mA (fst e)) pre).
    { eapply Forall_impl; [|exact Hinv]. simpl. intros e [Hy|Hf]; auto. right.
      apply (same_view_failing _ _ _ Hview0) in Hf. apply F. auto. }
    destruct (negb ttc && negb (to_bool rc)); [discriminate|].
    rewrite HfindA in H.
    assert (HkeysA : keys postA = todo) by (rewrite (evolves_keys _ _ EvPost); auto).
    destruct (is_true (dependenciesExists pA)) eqn:Ey.
    + (* the record is flagged true and receives a node *)
      rewrite HmA, update_app_r, update_head in H by exact Hk_pre.
      set (p2 := set_graphId _ pA) in H.
      assert (Hg2 : graphId p2 = Z.of_nat (length nl)).
      { unfold p2. simpl. rewrite length_app. simpl. lia. }
      change (pre ++ (k, p2) :: postA) with (pre ++ [(k, p2)] ++ postA) in H.
      rewrite app_assoc in H.
      assert (Hview2 : same_view mA ((pre ++ [(k, p2)]) ++ postA)).
      { rewrite <- app_assoc. simpl. rewrite HmA.
        apply same_view_replace. reflexivity. }
      assert (Hnd2 : NoDup (keys ((pre ++ [(k, p2)]) ++ postA))).
      { rewrite <- app_assoc. simpl. rewrite HmA in HndA.
        rewrite keys_app in *. exact HndA. }
      assert (Has2 : assign (pre ++ [(k, p2)]) 0 =
                     (pre ++ [(k, p2)], nl ++ [mkNode k []])).
      { rewrite (assign_snoc pre nl k p2 Hassign); unfold p2; simpl; rewrite Ey; auto. }
      assert (Hinv2 : Forall (fun e => dependenciesExists (snd e) = TriTrue \/
                                failing ((pre ++ [(k, p2)]) ++ postA) (fst e))
                             (pre ++ [(k, p2)])).
      { apply Forall_app. split.
        - eapply Forall_impl; [|exact HinvA]. simpl. intros e [Hy|Hf]; auto. right.
          eapply same_view_failing; eauto.
        - constructor; [|constructor]. left. unfold p2. simpl.
          destruct (dependenciesExists pA); simpl in Ey; congruence. }
      destruct (IH _ _ _ _ _ _ _ HkeysA Hnd2 Has2 Hinv2 H)
        as (Hset & Has & Hst & tr' & -> & Htr').
      split; [exact Hset|]. split; [exact Has|]. split.
      -- eapply same_static_trans; [exact Hstatic0|].
         eapply same_static_trans; [apply evolves_same_static; exact Ev|].
         eapply same_static_trans; [|exact Hst].
         rewrite <- app_assoc. simpl. rewrite HmA.
         apply same_static_replace. reflexivity.
      -- exists (trA ++ tr'). rewrite app_assoc. split; auto.
         apply Forall_app. auto.
    + (* the record is not flagged true: its check failed for good *)
      assert (Hrc : to_bool rc = false).
      { destruct (to_bool rc) eqn:E; auto. specialize (Hsucc eq_refl).
        unfold flag in Hsucc. rewrite HfindA in Hsucc. simpl in Hsucc.
        inversion Hsucc as [Hy]. rewrite Hy in Ey. discriminate. }
      specialize (Hfail Hrc).
      rewrite HmA in H.
      change (pre ++ (k, pA) :: postA) with (pre ++ [(k, pA)] ++ postA) in H.
      rewrite app_assoc in H.
      assert (Hnd2 : NoDup (keys ((pre ++ [(k, pA)]) ++ postA))).
      { rewrite <- app_assoc. simpl. rewrite <- HmA. exact HndA. }
      assert (Has2 : assign (pre ++ [(k, pA)]) 0 = (pre ++ [(k, pA)], nl)).
      { rewrite (assign_snoc pre nl k pA Hassign); rewrite Ey; auto. }
      assert (Hinv2 : Forall (fun e => dependenciesExists (snd e) = TriTrue \/
                                failing ((pre ++ [(k, pA)]) ++ postA) (fst e))
                             (pre ++ [(k, pA)])).
      { rewrite <- app_assoc. simpl. rewrite <- HmA.
        apply Forall_app. split; auto. }
      destruct (IH _ _ _ _ _ _ _ HkeysA Hnd2 Has2 Hinv2 H)
        as (Hset & Has & Hst & tr' & -> & Htr').
      split; [exact Hset|]. split; [exact Has|]. split.
      -- eapply same_static_trans; [exact Hstatic0|].
         eapply same_static_trans; [apply evolves_same_static; exact Ev|].
         rewrite <- app_assoc in Hst. simpl in Hst. rewrite <- HmA in Hst. exact Hst.
      -- exists (trA ++ tr'). rewrite app_assoc. split; auto.
         apply Forall_app. auto.
Qed.

Lemma checkAll_early fuel ttc cb : forall todo m nl tr rc m1 nl1 tr1,
  checkAll fuel ttc cb todo m nl tr = Done (Some rc, m1, nl1, tr1) ->
  ttc = false /\ to_bool rc = false.
Proof.
  induction todo as [|k todo IH]; simpl; intros m nl tr rc m1 nl1 tr1 H; [discriminate|].
  destruct (checkDependencies fuel cb k _) as [[[rc0 mA] trA]| |]; try discriminate.
  destruct ttc; simpl in H.
  - destruct (find k mA) as [p|]; [|discriminate].
    destruct (is_true (dependenciesExists p)); destruct (IH _ _ _ _ _ _ _ H); discriminate.
  - destruct (to_bool rc0) eqn:E; simpl in H.
    + destruct (find k mA) as [p|]; [|discriminate].
      destruct (is_true (dependenciesExists p)); eapply IH; eauto.
    + inversion H; subst. auto.
Qed.

(** *** The parent lists *)

Lemma pushParents_spec ids : forall i nl nl',
  pushParents i ids nl = Some nl' ->
  map node_name nl' = map node_name nl /\
  (forall j, incl (parentNodes (nth j nl emptyNode)) (parentNodes (nth j nl' emptyNode))) /\
  incl ids (parentNodes (nth i nl' emptyNode)).
Proof.
  induction i as [|i IH]; intros [|n r] nl' H; simpl in H; try discriminate.
  - inversion H; subst; clear H. simpl. split; auto. split.
    + intros [|j]; simpl; [apply incl_appl|]; apply incl_refl.
    + apply incl_appr. apply incl_refl.
  - destruct (pushParents i ids r) as [r'|] eqn:E; [|discriminate].
    inversion H; subst; clear H. destruct (IH _ _ E) as (Hn & Hm & Hi).
    simpl. split; [congruence|]. split; auto.
    intros [|j]; simpl; auto. apply incl_refl.
Qed.

Lemma parentIds_spec m : forall deps ids,
  parentIds m deps = Done ids ->
  forall d, In d deps ->
    exists q, find (dep_name d) m = Some q /\ In (graphId q) ids.
Proof.
  induction deps as [|d0 rest IH]; simpl; intros ids H d Hd; [contradiction|].
  destruct (find (dep_name d0) m) as [q|] eqn:E; [|discriminate].
  destruct (parentIds m rest) as [ids'| |] eqn:E'; try discriminate.
  inversion H; subst; clear H. destruct Hd as [<-|Hd].
  - exists q. simpl. auto.
  - destruct (IH _ eq_refl _ Hd) as (q' & Hq' & Hin). exists q'. simpl. auto.
Qed.

Lemma parentIds_nil m deps : parentIds m deps = Done [] -> deps = [].
Proof.
  destruct deps as [|d rest]; simpl; auto.
  destruct (find (dep_name d) m); [|discriminate].
  destruct (parentIds m rest); discriminate.
Qed.

Lemma fillParents_spec m : forall entries nl nl',
  fillParents entries m nl = Done nl' ->
  map node_name nl' = map node_name nl /\
  (forall j, incl (parentNodes (nth j nl emptyNode)) (parentNodes (nth j nl' emptyNode))) /\
  (forall k p d, In (k, p) entries -> graphId p <> (-1)%Z ->
     In d (dependencies (info p)) ->
     exists q, find (dep_name d) m = Some q /\
               In (graphId q) (parentNodes (nth (Z.to_nat (graphId p)) nl' emptyNode))).
Proof.
  induction entries as [|[k0 p0] rest IH]; simpl; intros nl nl' H.
  - inversion H; subst. split; auto. split; [intros j; apply incl_refl|].
    intros k p d [].
  - destruct (Z.eqb (graphId p0) (-1)) eqn:Eg.
    + apply Z.eqb_eq in Eg. destruct (IH _ _ H) as (Hn & Hm & Hp).
      split; auto. split; auto. intros k p d [Heq|Hin] Hg Hd; [|eauto].
      inversion Heq; subst. contradiction.
    + destruct (parentIds m (dependencies (info p0))) as [ids| |] eqn:Eids;
        try discriminate.
      destruct ids as [|g ids].
      * apply parentIds_nil in Eids. destruct (IH _ _ H) as (Hn & Hm & Hp).
        split; auto. split; auto. intros k p d [Heq|Hin] Hg Hd; [|eauto].
        inversion Heq; subst. rewrite Eids in Hd. contradiction.
      * destruct (Z.ltb (graphId p0) 0); [discriminate|].
        destruct (pushParents (Z.to_nat (graphId p0)) (g :: ids) nl) as [nl0|] eqn:Epush;
          [|discriminate].
        destruct (pushParents_spec _ _ _ _ Epush) as (Hn0 & Hm0 & Hi0).
        destruct (IH _ _ H) as (Hn & Hm & Hp).
        split; [congruence|]. split.
        -- intros j. eapply incl_tran; [apply Hm0|apply Hm].
        -- intros k p d [Heq|Hin] Hg Hd; [|eauto].
           inversion Heq; subst.
           destruct (parentIds_spec _ _ _ Eids _ Hd) as (q & Hq & Hin).
           exists q. split; auto. apply Hm. apply Hi0. auto.
Qed.

(** *** The load loop *)

Lemma hasInstance_update_ne m k k' f :
  k <> k' -> hasInstance (update k f m) k' = hasInstance m k'.
Proof. intros H. unfold hasInstance. rewrite find_update_ne; auto. Qed.

Lemma same_graph_update k f m :
  (forall p, graph_part (f p) = graph_part p) -> same_graph m (update k f m).
Proof.
  intros Hf. unfold same_graph. induction m as [|[k' p] r IH]; simpl; auto.
  destruct (String.eqb k' k); simpl.
  - rewrite Hf. reflexivity.
  - rewrite IH. reflexivity.
Qed.

Lemma same_graph_trans m1 m2 m3 :
  same_graph m1 m2 -> same_graph m2 m3 -> same_graph m1 m3.
Proof. unfold same_graph. congruence. Qed.

Lemma loadAll_spec : forall order m m' tr,
  loadAll order m = Done (m', tr) ->
  same_graph m m' /\
  (forall k, hasInstance m k = true -> hasInstance m' k = true) /\
  (forall k, In k order -> hasInstance m' k = true) /\
  created_of tr = loaded_of tr /\
  (NoDup order ->
   loaded_of tr = filter (fun k => negb (hasInstance m k)) order).
Proof.
  induction order as [|key rest IH]; simpl; intros m m' tr H.
  - inversion H; subst. split; [reflexivity|]. split; [auto|].
    split; [intros k []|]. split; reflexivity.
  - destruct (find key m) as [plugin|] eqn:Ef; [|discriminate].
    destruct (iplugin plugin) as [i|] eqn:Ei.
    + destruct (IH _ _ _ H) as (Hg & Hmono & Hall & Hc & Hl).
      assert (Hkey : hasInstance m key = true).
      { unfold hasInstance. rewrite Ef, Ei. reflexivity. }
      split; auto. split; auto. split; [|split; auto].
      * intros k [<-|Hin]; auto.
      * intros Hnd. inversion Hnd; subst. rewrite Hkey. simpl. auto.
    + destruct (hasSymbol (lib plugin) jp_createPlugin); [|discriminate].
      set (created := fun p => set_iplugin (Some (instance_of key)) (set_creator true p)) in *.
      destruct (loadAll rest (update key created m)) as [[m2 tr2]| |] eqn:E;
        try discriminate.
      inversion H; subst; clear H.
      destruct (IH _ _ _ E) as (Hg & Hmono & Hall & Hc & Hl).
      assert (Hkey : hasInstance (update key created m) key = true).
      { unfold hasInstance. rewrite find_update_eq, Ef. reflexivity. }
      assert (Hkey0 : hasInstance m key = false).
      { unfold hasInstance. rewrite Ef, Ei. reflexivity. }
      split; [|split; [|split; [|split]]].
      * eapply same_graph_trans; [|exact Hg]. apply same_graph_update.
        intros p. reflexivity.
      * intros k Hk. apply Hmono. destruct (string_dec key k) as [<-|Hne]; auto.
        rewrite hasInstance_update_ne; auto.
      * intros k [<-|Hin]; auto.
      * simpl. rewrite Hc. reflexivity.
      * intros Hnd. inversion Hnd; subst. rewrite Hkey0. simpl. f_equal.
        rewrite Hl; auto. apply filter_ext_in. intros k Hk.
        rewrite hasInstance_update_ne; auto. intros <-. contradiction.
Qed.

Lemma loadAll_loaded : forall order m,
  (forall k, In k order -> hasInstance m k = true) ->
  loadAll order m = Done (m, []).
Proof.
  induction order as [|key rest IH]; simpl; intros m H; auto.
  assert (Hk : hasInstance m key = true) by auto.
  unfold hasInstance in Hk. destruct (find key m) as [p|]; [|discriminate].
  destruct (iplugin p); [|discriminate]. apply IH. auto.
Qed.

(** *** Names of the nodes *)

Lemma assign_names : forall m n m' nl,
  assign m n = (m', nl) ->
  map node_name nl =
  keys (filter (fun e => is_true (dependenciesExists (snd e))) m).
Proof.
  induction m as [|[k p] r IH]; simpl; intros n m' nl H.
  - inversion H; subst. reflexivity.
  - destruct (is_true (dependenciesExists p)).
    + destruct (assign r (S n)) as [r' nodes] eqn:E. inversion H; subst.
      simpl. f_equal. eapply IH; eauto.
    + destruct (assign r n) as [r' nodes] eqn:E. inversion H; subst.
      eapply IH; eauto.
Qed.

Lemma NoDup_keys_filter f (m : PluginsMap) :
  NoDup (keys m) -> NoDup (keys (filter f m)).
Proof.
  unfold keys. induction m as [|[k p] r IH]; simpl; intros H; auto.
  inversion H; subst. destruct (f (k, p)); simpl; auto.
  constructor; auto. intros Hin. apply H2.
  apply in_map_iff in Hin. destruct Hin as (e & He & Hin).
  apply filter_In in Hin. apply in_map_iff. exists e.
  destruct Hin. split; auto.
Qed.

Lemma assign_yes : forall m n nl k p,
  assign m n = (m, nl) ->
  find k m = Some p ->
  dependenciesExists p = TriTrue ->
  exists a, graphId p = Z.of_nat (n + a) /\ a < length nl /\
            node_name (nth a nl emptyNode) = k.
Proof.
  induction m as [|[k0 p0] r IH]; simpl; intros n nl k p Ha Hf Hy; [discriminate|].
  destruct (String.eqb k0 k) eqn:Ek.
  - apply String.eqb_eq in Ek. inversion Hf; subst. rewrite Hy in Ha. simpl in Ha.
    destruct (assign r (S n)) as [r' nodes]. inversion Ha; subst.
    exists 0. simpl. rewrite Nat.add_0_r. split; [|split; auto; lia].
    reflexivity.
  - destruct (is_true (dependenciesExists p0)).
    + destruct (assign r (S n)) as [r' nodes] eqn:E. inversion Ha; subst.
      destruct (IH _ _ _ _ E Hf Hy) as (a & Hg & Hlt & Hn).
      exists (S a). simpl. split; [rewrite Hg; f_equal; lia|]. split; auto. lia.
    + destruct (assign r n) as [r' nodes] eqn:E. inversion Ha; subst.
      eauto.
Qed.

Lemma same_graph_find m m' k p' :
  same_graph m m' -> find k m' = Some p' ->
  exists p, find k m = Some p /\ graph_part p = graph_part p'.
Proof.
  unfold same_graph. revert m'.
  induction m as [|[k1 p1] r IH]; intros [|[k2 p2] r'] H Hf; simpl in *;
    try discriminate.
  inversion H; subst. destruct (String.eqb k2 k).
  - inversion Hf; subst. exists p1. split; auto. unfold graph_part. congruence.
  - eauto.
Qed.

Lemma same_graph_sym m m' : same_graph m m' -> same_graph m' m.
Proof. unfold same_graph. congruence. Qed.

Lemma before_filter {A : Type} (f : A -> bool) x y l :
  before x y l -> f x = true -> f y = true -> before x y (filter f l).
Proof.
  intros (l1 & l2 & l3 & ->) Hx Hy.
  exists (filter f l1), (filter f l2), (filter f l3).
  rewrite filter_app. simpl. rewrite Hx, filter_app. simpl. rewrite Hy. reflexivity.
Qed.

Lemma before_in {A : Type} (x y : A) l : before x y l -> In x l /\ In y l.
Proof.
  intros (l1 & l2 & l3 & ->). split; apply in_or_app; right; simpl; auto.
  right. apply in_or_app. right. simpl. auto.
Qed.

Lemma loaded_of_app a b : loaded_of (a ++ b) = loaded_of a ++ loaded_of b.
Proof. unfold loaded_of. apply flat_map_app. Qed.

Lemma created_of_app a b : created_of (a ++ b) = created_of a ++ created_of b.
Proof. unfold created_of. apply flat_map_app. Qed.

Lemma callbacks_not_loaded tr :
  Forall is_callback tr -> loaded_of tr = [] /\ created_of tr = [].
Proof.
  induction 1 as [|e tr He _ (IH1 & IH2)]; simpl; auto.
  destruct e; simpl in *; try contradiction. auto.
Qed.

Lemma sorted_names_NoDup nodes order :
  NoDup (map node_name nodes) ->
  Graph.topologicalSort nodes = (order, false) ->
  NoDup order.
Proof.
  intros Hnd H. destruct (topologicalSort_sound _ _ H) as (ids & -> & Hids & Hall & _).
  apply NoDup_map_NoDup_ForallPairs; auto.
  intros i j Hi Hj Heq. apply Hall in Hi. apply Hall in Hj.
  rewrite NoDup_nth with (d := node_name emptyNode) in Hnd.
  apply Hnd; rewrite ?length_map; auto.
  rewrite !map_nth. auto.
Qed.

Lemma names_nth (nl nl' : NodeList) a :
  map node_name nl' = map node_name nl ->
  node_name (nth a nl' emptyNode) = node_name (nth a nl emptyNode).
Proof.
  intros H. rewrite <- !map_nth with (f := node_name). rewrite H. reflexivity.
Qed.

(** A call that returns [SUCCESS] went through the four steps. *)
Lemma loadPlugins_success fuel ttc cb st st' tr :
  loadPlugins fuel ttc cb st = Done (SUCCESS, st', tr) ->
  exists m1 nl tr1 nl' order m' tr4,
    checkAll fuel ttc cb (keys (pluginsMap st)) (pluginsMap st) [] [] =
      Done (None, m1, nl, tr1) /\
    fillParents m1 m1 nl = Done nl' /\
    Graph.topologicalSort nl' = (order, false) /\
    loadAll order m1 = Done (m', tr4) /\
    st' = mkPlugMgrPrivate m' order (locations st) /\
    tr = tr1 ++ tr4.
Proof.
  unfold loadPlugins. intros H.
  destruct (checkAll fuel ttc cb _ _ _ _) as [[[[[rc|] m1] nl] tr1]| |] eqn:E1;
    try discriminate.
  - inversion H; subst. destruct (checkAll_early _ _ _ _ _ _ _ _ _ _ _ E1).
    discriminate.
  - destruct (fillParents m1 m1 nl) as [nl'| |] eqn:E2; try discriminate.
    destruct (Graph.topologicalSort nl') as [order [|]] eqn:E3; [discriminate|].
    destruct (loadAll order m1) as [[m' tr4]| |] eqn:E4; try discriminate.
    inversion H; subst. exists m1, nl, tr1, nl', order, m', tr4. auto 10.
Qed.

(** ** Load order *)

(** C1.  Let [loadPlugins] return [SUCCESS] on a registry with pairwise
    distinct names, and let [A] and [B] be records of the resulting
    registry, both flagged as resolved, with [B] among the declared
    dependencies of [A].  Then [B] stands before [A] in the load order
    list.  The [loaded()] notifications of the call are those of the
    names of the load order that had no instance before the call, in
    load order; so [B] is notified before [A] when both are loaded by
    the call, and whenever [A] is notified by the call, [B] was notified
    earlier in it or had been loaded by an earlier call. *)
Theorem load_order_respects_dependencies
    fuel tryToContinue cb st st' tr A B pa pb :
  unique_keys (pluginsMap st) ->
  loadPlugins fuel tryToContinue cb st = Done (SUCCESS, st', tr) ->
  find A (pluginsMap st') = Some pa ->
  find B (pluginsMap st') = Some pb ->
  dependenciesExists pa = TriTrue ->
  dependenciesExists pb = TriTrue ->
  In B (map dep_name (dependencies (info pa))) ->
  before B A (loadOrderList st') /\
  loaded_of tr =
    filter (fun k => negb (hasInstance (pluginsMap st) k)) (loadOrderList st') /\
  (hasInstance (pluginsMap st) A = false ->
   hasInstance (pluginsMap st) B = false ->
   before B A (loaded_of tr)) /\
  (In A (loaded_of tr) ->
   before B A (loaded_of tr) \/ hasInstance (pluginsMap st) B = true).
Proof.
  intros Hnd H HA HB HyA HyB Hdep.
  destruct (loadPlugins_success _ _ _ _ _ _ H)
    as (m1 & nl & tr1 & nl' & order & m' & tr4 & E1 & E2 & E3 & E4 & -> & ->).
  simpl in *.
  destruct (checkAll_settles fuel tryToContinue cb _ [] (pluginsMap st) [] [] m1 nl tr1
              eq_refl Hnd eq_refl (Forall_nil _) E1)
    as (Hset & Hassign & Hstatic & tr' & Htr1 & Hcb).
  simpl in Htr1, Hstatic. subst tr1.
  destruct (fillParents_spec _ _ _ _ E2) as (Hnames & _ & Hparents).
  destruct (loadAll_spec _ _ _ _ E4) as (Hgraph & _ & _ & _ & Hloaded).
  assert (Hnd1 : NoDup (keys m1)) by (rewrite (same_static_keys _ _ Hstatic); exact Hnd).
  assert (Hnd_order : NoDup order).
  { eapply sorted_names_NoDup; [|exact E3]. rewrite Hnames.
    rewrite (assign_names _ _ _ _ Hassign). apply NoDup_keys_filter. exact Hnd1. }
  (* the load order *)
  assert (Hbefore : before B A order).
  { destruct (same_graph_find _ _ _ _ Hgraph HA) as (pa1 & HA1 & HgA).
    destruct (same_graph_find _ _ _ _ Hgraph HB) as (pb1 & HB1 & HgB).
    unfold graph_part in HgA, HgB.
    assert (HyA1 : dependenciesExists pa1 = TriTrue) by congruence.
    assert (HyB1 : dependenciesExists pb1 = TriTrue) by congruence.
    assert (HiA : info pa1 = info pa) by congruence.
    destruct (assign_yes _ _ _ _ _ Hassign HA1 HyA1) as (a & Hga & Hla & Hna).
    destruct (assign_yes _ _ _ _ _ Hassign HB1 HyB1) as (b & Hgb & Hlb & Hnb).
    simpl in Hga, Hgb.
    apply in_map_iff in Hdep. destruct Hdep as (d & Hd & Hin).
    rewrite <- HiA in Hin.
    destruct (Hparents A pa1 d (find_in _ _ _ HA1)) as (q & Hq & Hpar); auto.
    { rewrite Hga. lia. }
    rewrite Hd, HB1 in Hq. inversion Hq; subst q; clear Hq.
    rewrite Hga, Hgb, Nat2Z.id in Hpar.
    destruct (topologicalSort_sound _ _ E3) as (ids & -> & Hids & Hall & Hearlier).
    assert (Hlen : length nl' = length nl).
    { rewrite <- (length_map node_name nl'), Hnames, length_map. reflexivity. }
    assert (Ha : In a ids) by (apply Hall; lia).
    destruct (in_split _ _ Ha) as (l1 & l2 & Hsplit).
    destruct (Hearlier _ _ _ Hsplit _ Hpar) as (j & Hj & Hjb).
    apply Nat2Z.inj in Hjb. subst j.
    destruct (in_split _ _ Hj) as (l1a & l1b & ->).
    exists (map (fun i => node_name (nth i nl' emptyNode)) l1a),
           (map (fun i => node_name (nth i nl' emptyNode)) l1b),
           (map (fun i => node_name (nth i nl' emptyNode)) l2).
    rewrite Hsplit, <- app_assoc. simpl.
    rewrite map_app. simpl. rewrite map_app. simpl.
    rewrite !(names_nth nl nl' _ Hnames), Hna, Hnb. reflexivity. }
  (* the notifications *)
  assert (Hnotified :
    loaded_of (tr' ++ tr4) = filter (fun k => negb (hasInstance (pluginsMap st) k)) order).
  { rewrite loaded_of_app. destruct (callbacks_not_loaded _ Hcb) as (-> & _). simpl.
    rewrite (Hloaded Hnd_order). apply filter_ext. intros k.
    rewrite (same_static_hasInstance _ _ k Hstatic). reflexivity. }
  split; [exact Hbefore|]. split; [exact Hnotified|].
  assert (Hboth : hasInstance (pluginsMap st) A = false ->
                  hasInstance (pluginsMap st) B = false ->
                  before B A (loaded_of (tr' ++ tr4))).
  { intros HlA HlB. rewrite Hnotified. apply before_filter; auto.
    - rewrite HlB. reflexivity.
    - rewrite HlA. reflexivity. }
  split; [exact Hboth|].
  intros HinA. rewrite Hnotified in HinA. apply filter_In in HinA.
  destruct HinA as (_ & HlA). apply negb_true_iff in HlA.
  destruct (hasInstance (pluginsMap st) B) eqn:HlB; auto.
Qed.

(** *** A second pass over a settled registry *)

Lemma checkAll_fixed ttc cb : forall todo pre post nl nl_post tr,
  keys post = todo ->
  NoDup (keys (pre ++ post)) ->
  settled (pre ++ post) ->
  assign post (length nl) = (post, nl_post) ->
  exists F, forall fuel, F <= fuel ->
    exists early nl',
      checkAll fuel ttc cb todo (pre ++ post) nl tr =
        Done (early, pre ++ post, nl', tr) /\
      (early = None -> nl' = nl ++ nl_post) /\
      (ttc = true -> early = None) /\
      (forall rc, early = Some rc -> to_bool rc = false).
Proof.
  induction todo as [|k todo IH]; intros pre post nl nl_post tr Hkeys Hnd Hset Hassign.
  - destruct post; [|discriminate]. simpl in Hassign. inversion Hassign; subst.
    exists 0. intros fuel _. exists None, nl. simpl. rewrite !app_nil_r.
    repeat split; auto. discriminate.
  - destruct post as [|[k0 p] post]; [discriminate|].
    assert (Hk0 : k0 = k) by (simpl in Hkeys; congruence).
    assert (Hkeys' : keys post = todo) by (unfold keys in *; simpl in Hkeys; congruence).
    subst k0. clear Hkeys.
    assert (Hk_pre : ~ In k (keys pre)).
    { rewrite keys_app in Hnd. simpl in Hnd. apply NoDup_remove_2 in Hnd.
      intros Hin. apply Hnd. apply in_or_app. auto. }
    assert (Hfind : find k (pre ++ (k, p) :: post) = Some p) by (apply find_middle; auto).
    assert (Hnd' : NoDup (keys ((pre ++ [(k, p)]) ++ post))).
    { rewrite <- app_assoc. exact Hnd. }
    assert (Hset' : settled ((pre ++ [(k, p)]) ++ post)).
    { rewrite <- app_assoc. exact Hset. }
    assert (Hentry : dependenciesExists p = TriTrue \/ failing (pre ++ (k, p) :: post) k).
    { unfold settled in Hset. rewrite Forall_forall in Hset.
      apply (Hset (k, p)). apply in_or_app. right. left. reflexivity. }
    simpl in Hassign.
    destruct (is_true (dependenciesExists p)) eqn:Ey.
    + (* flagged true: the check returns at once and the node is created again *)
      destruct (assign post (S (length nl))) as [post1 nodes] eqn:Ea.
      injection Hassign as Hp Hpost Hnodes. subst post1 nl_post.
      assert (Hlen : S (length nl) = length (nl ++ [mkNode k []])).
      { rewrite length_app. simpl. lia. }
      rewrite Hlen in Ea.
      destruct (IH (pre ++ [(k, p)]) post (nl ++ [mkNode k []]) nodes tr
                  Hkeys' Hnd' Hset' Ea) as (F & HF).
      exists (S F). intros fuel Hfuel.
      destruct (HF fuel) as (early & nl' & Hrun & Hnone & Httc & Hrc); [lia|].
      exists early, nl'. split; [|split; [|split]]; auto.
      * destruct fuel as [|fuel]; [lia|]. cbn [checkAll].
        rewrite update_app_r, update_head by exact Hk_pre.
        cbn [checkDependencies]. rewrite find_middle by exact Hk_pre.
        assert (Hy : dependenciesExists p = TriTrue).
        { destruct (dependenciesExists p); simpl in Ey; congruence. }
        cbn [dependenciesExists set_graphId]. rewrite Hy.
        cbn [to_bool negb andb]. rewrite andb_false_r.
        rewrite find_middle by exact Hk_pre.
        cbn [dependenciesExists set_graphId is_true].
        rewrite update_app_r, update_head by exact Hk_pre.
        replace (set_graphId (Z.of_nat (length (nl ++ [mkNode k []])) - 1)
                   (set_graphId (-1) p)) with p.
        -- rewrite Ey, ?app_nil_r.
           change (pre ++ (k, p) :: post) with (pre ++ [(k, p)] ++ post).
           rewrite app_assoc. exact Hrun.
        -- rewrite <- Hp at 1. destruct p; unfold set_graphId; simpl. f_equal.
           rewrite length_app. simpl. lia.
      * intros Hn. rewrite (Hnone Hn), <- app_assoc. reflexivity.
    + (* not flagged true: the check fails again and writes nothing *)
      destruct (assign post (length nl)) as [post1 nodes] eqn:Ea.
      injection Hassign as Hp Hpost Hnodes. subst post1 nodes.
      assert (Hfail : failing (pre ++ (k, p) :: post) k).
      { destruct Hentry as [Hy|Hf]; auto. rewrite Hy in Ey. discriminate. }
      assert (Hm0 : update k (set_graphId (-1)) (pre ++ (k, p) :: post) =
                    pre ++ (k, p) :: post).
      { eapply update_same; eauto. }
      destruct (checkDependencies_failing cb _ _ Hfail) as (f0 & rc0 & Hrc0 & Hchk).
      destruct (IH (pre ++ [(k, p)]) post nl nl_post tr Hkeys' Hnd' Hset' Ea) as (F & HF).
      exists (Nat.max f0 F). intros fuel Hfuel.
      assert (Hchk' : checkDependencies fuel cb k (pre ++ (k, p) :: post) =
                      Done (rc0, pre ++ (k, p) :: post, [])).
      { eapply checkDependencies_mono; [|exact Hchk]. lia. }
      destruct ttc.
      * destruct (HF fuel) as (early & nl' & Hrun & Hnone & Httc & Hrc); [lia|].
        exists early, nl'. split; [|split; [|split]]; auto.
        cbn [checkAll]. rewrite Hm0, Hchk'. cbn [negb andb]. rewrite Hfind, Ey.
        rewrite app_nil_r.
        change (pre ++ (k, p) :: post) with (pre ++ [(k, p)] ++ post).
        rewrite app_assoc. exact Hrun.
      * exists (Some rc0), nl. split; [|split; [|split]].
        -- cbn [checkAll]. rewrite Hm0, Hchk', Hrc0. cbn [negb andb].
           rewrite app_nil_r. reflexivity.
        -- discriminate.
        -- discriminate.
        -- intros rc Hrc. inversion Hrc; subst. exact Hrc0.
Qed.

Lemma same_graph_in m m' e' :
  same_graph m m' -> In e' m' ->
  exists e, In e m /\ fst e = fst e' /\ graph_part (snd e) = graph_part (snd e').
Proof.
  unfold same_graph. intros H Hin.
  assert (Hin' : In (fst e', graph_part (snd e'))
                    (map (fun e => (fst e, graph_part (snd e))) m)).
  { rewrite H. apply in_map_iff. exists e'. auto. }
  apply in_map_iff in Hin'. destruct Hin' as (e & He & Hine).
  exists e. split; [exact Hine|]. injection He. intros.
  split; [assumption|]. unfold graph_part. congruence.
Qed.

Lemma same_graph_cons_inv k p r k' p' r' :
  same_graph ((k, p) :: r) ((k', p') :: r') ->
  k = k' /\ graph_part p = graph_part p' /\ same_graph r r'.
Proof.
  unfold same_graph. simpl. intros H. injection H. intros.
  split; [assumption|]. split; [unfold graph_part; congruence|assumption].
Qed.

Lemma settled_same_graph m m' : same_graph m m' -> settled m -> settled m'.
Proof.
  intros H Hset. unfold settled in *. rewrite Forall_forall in *. intros e' Hin.
  destruct (same_graph_in _ _ _ H Hin) as (e & He & Hk & Hg).
  destruct (Hset _ He) as [Hy|Hf].
  - left. unfold graph_part in Hg. congruence.
  - right. rewrite <- Hk. eapply same_view_failing; [|exact Hf].
    apply same_graph_view. exact H.
Qed.

Lemma assign_same_graph : forall m m' n nl,
  same_graph m m' -> assign m n = (m, nl) -> assign m' n = (m', nl).
Proof.
  induction m as [|[k p] r IH]; intros [|[k' p'] r'] n nl H Ha;
    try (unfold same_graph in H; simpl in H; discriminate).
  - simpl in *. congruence.
  - destruct (same_graph_cons_inv _ _ _ _ _ _ H) as (Hk & Hg & Hr). subst k'. simpl in *.
    symmetry in Hg.
    assert (Hflag : dependenciesExists p' = dependenciesExists p)
      by (unfold graph_part in Hg; congruence).
    assert (Hgid : graphId p' = graphId p) by (unfold graph_part in Hg; congruence).
    rewrite Hflag. destruct (is_true (dependenciesExists p)).
    + destruct (assign r (S n)) as [r1 nodes] eqn:E. inversion Ha as [[Hp Hr1 Hn]].
      rewrite Hr1 in E. rewrite (IH _ _ _ Hr E).
      rewrite (set_graphId_same p' (Z.of_nat n)); [subst nl; reflexivity|].
      rewrite Hgid, <- Hp. reflexivity.
    + destruct (assign r n) as [r1 nodes] eqn:E. inversion Ha as [[Hp Hr1 Hn]].
      rewrite Hr1 in E. subst nodes. rewrite (IH _ _ _ Hr E).
      rewrite (set_graphId_same p' (-1)); [reflexivity|].
      rewrite Hgid, <- Hp. reflexivity.
Qed.

Lemma same_graph_find_none m m' k :
  same_graph m m' -> find k m = None -> find k m' = None.
Proof.
  intros H Hn. apply find_none_iff. rewrite (same_graph_keys _ _ H).
  apply find_none_iff. exact Hn.
Qed.

Lemma parentIds_same_graph m m' :
  same_graph m m' -> forall deps, parentIds m' deps = parentIds m deps.
Proof.
  intros H. induction deps as [|d rest IH]; simpl; auto.
  destruct (find (dep_name d) m') as [q'|] eqn:E'.
  - destruct (same_graph_find _ _ _ _ H E') as (q & -> & Hg).
    rewrite IH. unfold graph_part in Hg.
    replace (graphId q') with (graphId q) by congruence. reflexivity.
  - apply (same_graph_find_none _ _ _ (same_graph_sym _ _ H)) in E'. rewrite E'.
    reflexivity.
Qed.

Lemma fillParents_same_graph m m' :
  same_graph m m' ->
  forall entries entries' nl,
    same_graph entries entries' ->
    fillParents entries' m' nl = fillParents entries m nl.
Proof.
  intros H.
  induction entries as [|[k p] r IH]; intros [|[k' p'] r'] nl He;
    try (unfold same_graph in He; simpl in He; discriminate); auto.
  destruct (same_graph_cons_inv _ _ _ _ _ _ He) as (Hk & Hg & Hr). simpl.
  symmetry in Hg.
  assert (Hgid : graphId p' = graphId p) by (unfold graph_part in Hg; congruence).
  assert (Hinfo : info p' = info p) by (unfold graph_part in Hg; congruence).
  rewrite Hgid, Hinfo, (parentIds_same_graph _ _ H).
  destruct (Z.eqb (graphId p) (-1)); auto.
  destruct (parentIds m (dependencies (info p))) as [[|g ids]| |]; auto.
  destruct (Z.ltb (graphId p) 0); auto.
  destruct (pushParents _ _ nl); auto.
Qed.

(** ** Reloading *)

(** C7.  After a call of [loadPlugins] that returned [SUCCESS] on a
    registry with pairwise distinct names, a second call on the state the
    first one left (whatever its arguments, for every sufficiently large
    bound on the recursion depth) returns that very state, load order list
    included, and causes no event at all: no factory is invoked and no
    [loaded()] is delivered.  The second call returns [SUCCESS] again,
    unless it is told not to continue and a record still fails its
    dependency check. *)
Theorem second_load_changes_nothing fuel tryToContinue cb st st1 tr1 :
  unique_keys (pluginsMap st) ->
  loadPlugins fuel tryToContinue cb st = Done (SUCCESS, st1, tr1) ->
  exists F, forall fuel2 tryToContinue2 cb2, F <= fuel2 ->
    exists retCode,
      loadPlugins fuel2 tryToContinue2 cb2 st1 = Done (retCode, st1, []) /\
      (tryToContinue2 = true -> retCode = SUCCESS) /\
      (retCode <> SUCCESS -> to_bool retCode = false /\ tryToContinue2 = false).
Proof.
  intros Hnd H.
  destruct (loadPlugins_success _ _ _ _ _ _ H)
    as (m1 & nl & trc & nl' & order & m' & tr4 & E1 & E2 & E3 & E4 & -> & ->).
  destruct (checkAll_settles fuel tryToContinue cb _ [] (pluginsMap st) [] [] m1 nl trc
              eq_refl Hnd eq_refl (Forall_nil _) E1)
    as (Hset & Hassign & Hstatic & _).
  simpl in Hstatic.
  destruct (loadAll_spec _ _ _ _ E4) as (Hgraph & _ & Hall & _ & _).
  assert (Hnd' : NoDup (keys ([] ++ m'))).
  { simpl. rewrite (same_graph_keys _ _ Hgraph), (same_static_keys _ _ Hstatic).
    exact Hnd. }
  assert (Hset' : settled ([] ++ m')) by (eapply settled_same_graph; eauto).
  assert (Hassign' : assign m' (length (@nil Node)) = (m', nl))
    by (eapply assign_same_graph; eauto).
  assert (Hfixed : forall ttc2 cb2, exists F, forall fuel2, F <= fuel2 ->
            exists early nl2,
              checkAll fuel2 ttc2 cb2 (keys m') m' [] [] = Done (early, m', nl2, []) /\
              (early = None -> nl2 = nl) /\
              (ttc2 = true -> early = None) /\
              (forall rc, early = Some rc -> to_bool rc = false)).
  { intros ttc2 cb2.
    exact (checkAll_fixed ttc2 cb2 (keys m') [] m' [] nl [] eq_refl Hnd' Hset' Hassign'). }
  destruct (Hfixed true true) as (F1 & HF1). destruct (Hfixed true false) as (F2 & HF2).
  destruct (Hfixed false true) as (F3 & HF3). destruct (Hfixed false false) as (F4 & HF4).
  exists (F1 + F2 + F3 + F4). intros fuel2 ttc2 cb2 Hfuel.
  assert (Hrun : exists early nl2,
            checkAll fuel2 ttc2 cb2 (keys m') m' [] [] = Done (early, m', nl2, []) /\
            (early = None -> nl2 = nl) /\
            (ttc2 = true -> early = None) /\
            (forall rc, early = Some rc -> to_bool rc = false)).
  { destruct ttc2, cb2; [apply HF1|apply HF2|apply HF3|apply HF4]; lia. }
  destruct Hrun as (early & nl2 & Hrun & Hnone & Httc & Hrc).
  unfold loadPlugins. cbn [pluginsMap loadOrderList locations]. rewrite Hrun.
  destruct early as [rc|].
  - exists rc. split; [reflexivity|]. split.
    + intros Ht. specialize (Httc Ht). discriminate.
    + intros _. split; [apply Hrc; reflexivity|].
      destruct ttc2; auto. specialize (Httc eq_refl). discriminate.
  - rewrite (Hnone eq_refl).
    rewrite (fillParents_same_graph _ _ Hgraph m1 m' nl Hgraph), E2, E3.
    rewrite (loadAll_loaded _ _ Hall). exists SUCCESS.
    split; [reflexivity|]. split; [reflexivity|]. intros Hne. contradiction.
Qed.

(** ** Unloading *)

Lemma about_of_app a b : about_of (a ++ b) = about_of a ++ about_of b.
Proof. unfold about_of. apply flat_map_app. Qed.

Lemma leaked_of_app a b : leaked_of (a ++ b) = leaked_of a ++ leaked_of b.
Proof. unfold leaked_of. apply flat_map_app. Qed.

Lemma refused_of_app a b : refused_of (a ++ b) = refused_of a ++ refused_of b.
Proof. unfold refused_of. apply flat_map_app. Qed.

(** One record: [unloadPlugin] followed by the destruction of the record. *)
Lemma unloadPlugin_spec plugin unloaded plugin' ev :
  unloadPlugin plugin = (unloaded, plugin', ev) ->
  about_of (ev ++ destroyPlugin plugin') = instance_list plugin /\
  (unloaded = true ->
   leaked_of (ev ++ destroyPlugin plugin') = [] /\
   refused_of (ev ++ destroyPlugin plugin') = []) /\
  (unloaded = false -> refused_of (ev ++ destroyPlugin plugin') <> []) /\
  incl (leaked_of (ev ++ destroyPlugin plugin')) (refused_of (ev ++ destroyPlugin plugin')).
Proof.
  unfold unloadPlugin, destroyPlugin, unload, isLoaded, instance_list.
  destruct plugin as [ip cr [lp [f|] n] pth inf fl gid]; simpl.
  - destruct n as [|n]; simpl; intros H; inversion H; subst; clear H; simpl.
    + destruct ip; simpl; repeat split; auto; try discriminate; apply incl_refl.
    + destruct n as [|n]; simpl; destruct ip; simpl; repeat split;
        auto; try discriminate; try apply incl_nil_l;
        intros x [<-|[]]; simpl; auto.
  - intros H; inversion H; subst; clear H; simpl.
    destruct ip; simpl; repeat split; auto; try discriminate; apply incl_refl.
Qed.

Lemma find_erase k k' m : find k' (erase k m) = if String.eqb k k' then None else find k' m.
Proof.
  destruct (String.eqb k k') eqn:E.
  - apply String.eqb_eq in E. subst. apply find_erase_eq.
  - apply String.eqb_neq in E. apply find_erase_ne. exact E.
Qed.

Lemma remaining_cons k names m :
  remaining (k :: names) m = remaining names (erase k m).
Proof.
  unfold remaining, erase. induction m as [|[k' p] r IH]; simpl; auto.
  rewrite (String.eqb_sym k' k).
  destruct (String.eqb k k') eqn:E; simpl.
  - exact IH.
  - simpl in IH. destruct (existsb (String.eqb k') names); simpl; rewrite IH; reflexivity.
Qed.

Lemma instances_of_erase k names m :
  ~ In k names -> instances_of (erase k m) names = instances_of m names.
Proof.
  unfold instances_of. intros Hnin. induction names as [|x names IH]; simpl; auto.
  rewrite find_erase. destruct (String.eqb k x) eqn:E.
  - apply String.eqb_eq in E. subst. exfalso. apply Hnin. left. reflexivity.
  - rewrite IH; auto. intros Hin. apply Hnin. right. exact Hin.
Qed.

Lemma unloadOrdered_spec : forall names m all m' all' tr,
  unloadOrdered names m all = Done (m', all', tr) ->
  NoDup names /\ (forall k, In k names -> find k m <> None) /\
  m' = remaining names m /\
  about_of tr = instances_of m names /\
  (all' = true -> all = true /\ leaked_of tr = [] /\ refused_of tr = []) /\
  (all' = false -> all = false \/ refused_of tr <> []) /\
  incl (leaked_of tr) (refused_of tr).
Proof.
  induction names as [|k names IH]; simpl; intros m all m' all' tr H.
  - inversion H; subst; clear H. split; [constructor|]. split; [intros k []|].
    split.
    { unfold remaining. simpl. induction m' as [|e r IHr]; simpl; congruence. }
    split; [reflexivity|]. split; [auto|]. split; [auto|]. apply incl_refl.
  - destruct (find k m) as [plugin|] eqn:Ef; [|discriminate].
    destruct (unloadPlugin plugin) as [[unloaded plugin'] ev] eqn:Eu.
    destruct (unloadOrdered names (erase k m) (all && unloaded))
      as [[[m2 all2] tr2]| |] eqn:Er; try discriminate.
    inversion H; subst; clear H.
    destruct (IH _ _ _ _ _ Er) as (Hnd & Hfound & Hrem & Habout & Htrue & Hfalse & Hincl).
    destruct (unloadPlugin_spec _ _ _ _ Eu) as (Ha & Hok & Hrefused & Hincl0).
    assert (Hincl' : incl (leaked_of (ev ++ destroyPlugin plugin' ++ tr2))
                          (refused_of (ev ++ destroyPlugin plugin' ++ tr2))).
    { rewrite app_assoc, leaked_of_app, refused_of_app. apply incl_app_app; assumption. }
    assert (Hk : ~ In k names).
    { intros Hin. apply (Hfound _ Hin). apply find_erase_eq. }
    split; [constructor; assumption|]. split.
    { intros x [<-|Hin]; [congruence|]. specialize (Hfound _ Hin).
      rewrite find_erase in Hfound. destruct (String.eqb k x); congruence. }
    split; [rewrite remaining_cons; exact Hrem|]. split.
    { rewrite app_assoc, about_of_app, Ha, Habout.
      rewrite instances_of_erase; auto. }
    split; [|split; [|exact Hincl']].
    + intros Hall. destruct (Htrue Hall) as (Hand & Hl & Hr).
      apply andb_prop in Hand. destruct Hand as [Hall1 Hall2]. subst.
      destruct (Hok eq_refl) as (Hl0 & Hr0).
      rewrite app_assoc, leaked_of_app, refused_of_app, Hl, Hr, Hl0, Hr0. auto.
    + intros Hall. destruct (Hfalse Hall) as [Hand|Hr].
      * apply andb_false_iff in Hand. destruct Hand as [-> | ->]; auto.
        right. rewrite app_assoc, refused_of_app.
        intros Heq. apply app_eq_nil in Heq. destruct Heq as (Heq & _).
        exact (Hrefused eq_refl Heq).
      * right. rewrite app_assoc, refused_of_app.
        intros Heq. apply app_eq_nil in Heq. destruct Heq as (_ & Heq). auto.
Qed.

Lemma unloadOrdered_fault : forall names m all,
  (exists k, In k names /\ find k m = None) ->
  unloadOrdered names m all = Fault NullDeref.
Proof.
  induction names as [|k names IH]; simpl; intros m all (x & Hin & Hx); [contradiction|].
  destruct (find k m) as [plugin|] eqn:Ef; [|reflexivity].
  destruct (unloadPlugin plugin) as [[unloaded plugin'] ev].
  rewrite IH; [reflexivity|].
  destruct Hin as [<-|Hin]; [congruence|].
  exists x. split; auto. rewrite find_erase. destruct (String.eqb k x); auto.
Qed.

Lemma unloadOrdered_done : forall names m all,
  NoDup names -> (forall k, In k names -> find k m <> None) ->
  exists m' all' tr, unloadOrdered names m all = Done (m', all', tr).
Proof.
  induction names as [|k names IH]; simpl; intros m all Hnd Hfound; eauto.
  inversion Hnd; subst.
  destruct (find k m) as [plugin|] eqn:Ef; [|exfalso; apply (Hfound k); auto].
  destruct (unloadPlugin plugin) as [[unloaded plugin'] ev].
  destruct (IH (erase k m) (all && unloaded)) as (m' & all' & tr & ->); eauto.
  intros x Hin. rewrite find_erase. destruct (String.eqb k x) eqn:E.
  - apply String.eqb_eq in E. subst. contradiction.
  - apply Hfound. auto.
Qed.

Lemma unloadRemaining_spec : forall m all all' tr,
  unloadRemaining m all = (all', tr) ->
  about_of tr = entry_instances m /\
  (all' = true -> all = true /\ leaked_of tr = [] /\ refused_of tr = []) /\
  (all' = false -> all = false \/ refused_of tr <> []) /\
  incl (leaked_of tr) (refused_of tr).
Proof.
  induction m as [|[k plugin] r IH]; simpl; intros all all' tr H.
  - inversion H; subst. split; [auto|]. split; [auto|]. split; [auto|]. apply incl_refl.
  - destruct (unloadPlugin plugin) as [[unloaded plugin'] ev] eqn:Eu.
    destruct (unloadRemaining r (all && unloaded)) as [all2 tr2] eqn:Er.
    inversion H; subst; clear H.
    destruct (IH _ _ _ Er) as (Habout & Htrue & Hfalse & Hincl).
    destruct (unloadPlugin_spec _ _ _ _ Eu) as (Ha & Hok & Hrefused & Hincl0).
    assert (Hincl' : incl (leaked_of (ev ++ destroyPlugin plugin' ++ tr2))
                          (refused_of (ev ++ destroyPlugin plugin' ++ tr2))).
    { rewrite app_assoc, leaked_of_app, refused_of_app. apply incl_app_app; assumption. }
    split.
    { rewrite app_assoc, about_of_app, Ha, Habout. reflexivity. }
    split; [|split; [|exact Hincl']].
    + intros Hall. destruct (Htrue Hall) as (Hand & Hl & Hr).
      apply andb_prop in Hand. destruct Hand as [Hall1 Hall2]. subst.
      destruct (Hok eq_refl) as (Hl0 & Hr0).
      rewrite app_assoc, leaked_of_app, refused_of_app, Hl, Hr, Hl0, Hr0. auto.
    + intros Hall. destruct (Hfalse Hall) as [Hand|Hr].
      * apply andb_false_iff in Hand. destruct Hand as [-> | ->]; auto.
        right. rewrite app_assoc, refused_of_app.
        intros Heq. apply app_eq_nil in Heq. destruct Heq as (Heq & _).
        exact (Hrefused eq_refl Heq).
      * right. rewrite app_assoc, refused_of_app.
        intros Heq. apply app_eq_nil in Heq. destruct Heq as (_ & Heq). auto.
Qed.

(** C6, as the code has it.  When [unloadPlugins] returns, it has called
    [aboutToBeUnloaded()] on the instances held by the records of the load
    order list, last name first, and then on those held by the records
    left in the registry, in iteration order; the registry and the
    locations list are empty whatever the return code.  The return code is
    [SUCCESS] or [UNLOAD_NOT_ALL]: with [SUCCESS] no unload was refused
    and no image outlives its record; [UNLOAD_NOT_ALL] is returned exactly
    when some unload request was refused, and only an image whose unload
    was refused can stay loaded. *)
Theorem unloadPlugins_releases_on_success cb st retCode st' tr :
  unloadPlugins cb st = Done (retCode, st', tr) ->
  about_of tr =
    instances_of (pluginsMap st) (rev (loadOrderList st)) ++
    entry_instances (remaining (rev (loadOrderList st)) (pluginsMap st)) /\
  pluginsMap st' = [] /\ locations st' = [] /\
  (retCode = SUCCESS \/ retCode = UNLOAD_NOT_ALL) /\
  (retCode = SUCCESS -> leaked_of tr = [] /\ refused_of tr = []) /\
  (retCode = UNLOAD_NOT_ALL <-> refused_of tr <> []) /\
  incl (leaked_of tr) (refused_of tr).
Proof.
  unfold unloadPlugins. intros H.
  destruct (unloadOrdered (rev (loadOrderList st)) (pluginsMap st) true)
    as [[[m all1] tr1]| |] eqn:E1; try discriminate.
  destruct (unloadRemaining m all1) as [allUnloaded tr2] eqn:E2.
  destruct (unloadOrdered_spec _ _ _ _ _ _ E1) as (_ & _ & Hm & Ha1 & Ht1 & Hf1 & Hi1).
  destruct (unloadRemaining_spec _ _ _ _ E2) as (Ha2 & Ht2 & Hf2 & Hi2).
  assert (Hcb : forall c d, about_of (callback cb c d) = [] /\
                            leaked_of (callback cb c d) = [] /\
                            refused_of (callback cb c d) = []).
  { intros c d. unfold callback. destruct cb; auto. }
  destruct (Hcb UNLOAD_NOT_ALL None) as (Hc1 & Hc2 & Hc3).
  destruct allUnloaded; inversion H; subst; clear H; simpl.
  - destruct (Ht2 eq_refl) as (-> & Hl2 & Hr2). destruct (Ht1 eq_refl) as (_ & Hl1 & Hr1).
    rewrite about_of_app, leaked_of_app, refused_of_app, Ha1, Ha2, Hl1, Hl2, Hr1, Hr2.
    simpl. repeat split; auto; try discriminate; try contradiction.
    apply incl_refl.
  - assert (Hrefused : refused_of (tr1 ++ tr2) <> []).
    { rewrite refused_of_app. intros Heq. apply app_eq_nil in Heq. destruct Heq as (H1 & H2).
      destruct (Hf2 eq_refl) as [->|Hr]; [|contradiction].
      destruct (Hf1 eq_refl) as [Hx|Hr]; [discriminate|contradiction]. }
    rewrite !app_assoc, about_of_app, leaked_of_app, refused_of_app, Hc1, Hc2, Hc3.
    rewrite !app_nil_r.
    rewrite about_of_app, Ha1, Ha2.
    split; [reflexivity|]. split; [reflexivity|]. split; [reflexivity|].
    split; [auto|]. split; [discriminate|]. split; [split; auto|].
    rewrite leaked_of_app, refused_of_app. apply incl_app_app; assumption.
Qed.

(** C10.  [unloadPlugins] leaves the load order list as it is.  It
    dereferences a null record pointer as soon as a name of the list is not
    a key of the registry, and it returns when the names of the list are
    pairwise distinct keys of the registry.  So after a call that returned
    with a load order list that is not empty (the registry is empty then),
    any further call dereferences a null pointer. *)
Theorem unloadPlugins_twice_dereferences_null cb st :
  ((exists k, In k (loadOrderList st) /\ find k (pluginsMap st) = None) ->
   unloadPlugins cb st = Fault NullDeref) /\
  (NoDup (loadOrderList st) ->
   (forall k, In k (loadOrderList st) -> find k (pluginsMap st) <> None) ->
   exists retCode st' tr, unloadPlugins cb st = Done (retCode, st', tr)) /\
  (forall retCode st' tr,
     unloadPlugins cb st = Done (retCode, st', tr) ->
     loadOrderList st' = loadOrderList st /\ pluginsMap st' = [] /\
     (loadOrderList st <> [] ->
      forall cb', unloadPlugins cb' st' = Fault NullDeref)).
Proof.
  split; [|split].
  - intros (k & Hin & Hk). unfold unloadPlugins.
    rewrite unloadOrdered_fault; [reflexivity|].
    exists k. split; auto. apply -> in_rev. exact Hin.
  - intros Hnd Hfound. unfold unloadPlugins.
    destruct (unloadOrdered_done (rev (loadOrderList st)) (pluginsMap st) true)
      as (m & all1 & tr1 & ->).
    + apply NoDup_rev. exact Hnd.
    + intros k Hin. apply Hfound. apply in_rev. exact Hin.
    + destruct (unloadRemaining m all1) as [[|] tr2]; eauto.
  - intros retCode st' tr H.
    assert (Hst' : st' = mkPlugMgrPrivate [] (loadOrderList st) []).
    { unfold unloadPlugins in H.
      destruct (unloadOrdered _ _ _) as [[[m all1] tr1]| |]; try discriminate.
      destruct (unloadRemaining m all1) as [[|] tr2]; inversion H; reflexivity. }
    subst st'. simpl. split; [reflexivity|]. split; [reflexivity|].
    intros Hne cb'. unfold unloadPlugins. simpl.
    rewrite unloadOrdered_fault; [reflexivity|].
    destruct (loadOrderList st) as [|k rest]; [contradiction|].
    exists k. split; [|reflexivity]. apply -> in_rev. left. reflexivity.
Qed.

(** ** The memo of the dependency check *)

(** Once the flag of a record is false, the check returns
    [LOAD_DEPENDENCY_BAD_VERSION] whenever the name of the record's own
    metadata is a key of the registry, whatever its dependencies are. *)
Lemma checkDependencies_memo_false fuel cb key m p :
  find key m = Some p ->
  dependenciesExists p = TriFalse ->
  find (name (info p)) m <> None ->
  checkDependencies (S fuel) cb key m = Done (LOAD_DEPENDENCY_BAD_VERSION, m, []).
Proof.
  intros Hp Hf Hname. simpl. rewrite Hp, Hf. unfold count.
  destruct (find (name (info p)) m); [reflexivity|contradiction].
Qed.

(** A record that declares itself as its first dependency, at a version
    its own version is compatible with: the check calls itself on the same
    record in the same state, at every depth. *)
Lemma checkDependencies_self_dependency cb key m p d rest :
  find key m = Some p ->
  dependenciesExists p = Indeterminate ->
  dependencies (info p) = d :: rest ->
  dep_name d = key ->
  compatible (version (info p)) (dep_version d) = true ->
  forall fuel, checkDependencies fuel cb key m = OutOfFuel.
Proof.
  intros Hp Hf Hdeps Hd Hc. induction fuel as [|fuel IH]; [reflexivity|].
  simpl. rewrite Hp, Hf, Hdeps. simpl. rewrite Hd, Hp, Hc. simpl.
  rewrite IH. reflexivity.
Qed.

(** Two records that declare each other as their first dependency, at
    compatible versions: the check alternates between them for ever. *)
Lemma checkDependencies_mutual_dependency cb a b m pa pb da resta db restb :
  find a m = Some pa -> find b m = Some pb ->
  dependenciesExists pa = Indeterminate -> dependenciesExists pb = Indeterminate ->
  dependencies (info pa) = da :: resta -> dep_name da = b ->
  dependencies (info pb) = db :: restb -> dep_name db = a ->
  compatible (version (info pb)) (dep_version da) = true ->
  compatible (version (info pa)) (dep_version db) = true ->
  forall fuel,
    checkDependencies fuel cb a m = OutOfFuel /\
    checkDependencies fuel cb b m = OutOfFuel.
Proof.
  intros Ha Hb Hfa Hfb Hda Hna Hdb Hnb Hca Hcb.
  induction fuel as [|fuel (IHa & IHb)]; [split; reflexivity|].
  split; simpl.
  - rewrite Ha, Hfa, Hda. simpl. rewrite Hna, Hb, Hca. simpl. rewrite IHb. reflexivity.
  - rewrite Hb, Hfb, Hdb. simpl. rewrite Hnb, Ha, Hcb. simpl. rewrite IHa. reflexivity.
Qed.

(** ** Discovery *)

Section DiscoveryProofs.

Variable JP_PLUGIN_API : string.
Variable json_parse : string -> option json.


Lemma mapM_Forall2 {A B : Type} (f : A -> option B) : forall l l',
  mapM f l = Some l' -> Forall2 (fun a b => f a = Some b) l l'.
Proof.
  induction l as [|a r IH]; simpl; intros l' H.
  - inversion H. constructor.
  - destruct (f a) as [b|] eqn:E; simpl in H; [|discriminate].
    destruct (mapM f r) as [bs|]; simpl in H; [|discriminate].
    inversion H; subst. constructor; auto.
Qed.

Lemma parseDependency_spec jdep dep :
  parseDependency jdep = Some dep ->
  get_string_at "name" jdep = Some (dep_name dep) /\
  get_string_at "version" jdep = Some (dep_version dep).
Proof.
  unfold parseDependency.
  destruct (get_string_at "name" jdep) as [n|]; simpl; [|discriminate].
  destruct (get_string_at "version" jdep) as [v|]; simpl; [|discriminate].
  intros H. inversion H. auto.
Qed.

(** What the body of [parseMetadata] returns is what the descriptor
    declares, under an API version the manager is compatible with. *)
Lemma parseTree_spec tree i :
  parseTree JP_PLUGIN_API tree = Some i ->
  declares tree i /\
  exists api, get_string_at "api" tree = Some api /\
              compatible api JP_PLUGIN_API = true.
Proof.
  unfold parseTree, declares.
  destruct (get_string_at "api" tree) as [api|]; simpl; [|discriminate].
  destruct (compatible api JP_PLUGIN_API) eqn:Eapi; [|discriminate].
  destruct (get_string_at "name" tree) as [s1|]; simpl; [|discriminate].
  destruct (get_string_at "prettyName" tree) as [s2|]; simpl; [|discriminate].
  destruct (get_string_at "version" tree) as [s3|]; simpl; [|discriminate].
  destruct (get_string_at "author" tree) as [s4|]; simpl; [|discriminate].
  destruct (get_string_at "url" tree) as [s5|]; simpl; [|discriminate].
  destruct (get_string_at "license" tree) as [s6|]; simpl; [|discriminate].
  destruct (get_string_at "copyright" tree) as [s7|]; simpl; [|discriminate].
  destruct (at_key "dependencies" tree) as [jsonDep|]; simpl; [|discriminate].
  destruct (mapM parseDependency (elements jsonDep)) as [deps|] eqn:Ed; simpl;
    [|discriminate].
  intros H. inversion H; subst; clear H. simpl.
  split; [|eauto]. repeat (split; [reflexivity|]).
  exists jsonDep. split; [reflexivity|].
  apply mapM_Forall2 in Ed. eapply Forall2_impl; [|exact Ed].
  intros jdep dep. apply parseDependency_spec.
Qed.

(** An accepted descriptor parses to a tree that declares the fields
    [parseMetadata] returns. *)
Lemma parseMetadata_accepted metadata :
  name (parseMetadata JP_PLUGIN_API json_parse metadata) <> "" ->
  exists tree,
    json_parse metadata = Some tree /\
    declares tree (parseMetadata JP_PLUGIN_API json_parse metadata).
Proof.
  unfold parseMetadata.
  destruct (json_parse metadata) as [tree|]; simpl; [|intros H; contradiction H; reflexivity].
  destruct (parseTree JP_PLUGIN_API tree) as [i|] eqn:E;
    [|intros H; contradiction H; reflexivity].
  intros _. exists tree. split; [reflexivity|].
  apply parseTree_spec in E. tauto.
Qed.

Lemma toPluginInfo_snapshot i : snapshot_of i (toPluginInfo i).
Proof. unfold snapshot_of, toPluginInfo, strdup. simpl. repeat split. Qed.

(** *** One candidate *)

Lemma load_plugin_library dl candidate :
  is_plugin_library (dl candidate) = true ->
  load dl candidate =
    (mkSharedLibrary candidate (Some (dl candidate)) (unload_refusals (dl candidate)),
     [LibLoad candidate]).
Proof.
  unfold is_plugin_library, load. intros H.
  destruct (loadable (dl candidate)); [reflexivity|discriminate].
Qed.

Lemma count_one k m : Nat.eqb (count k m) 1 = true <-> find k m <> None.
Proof.
  unfold count. destruct (find k m); simpl; split; congruence.
Qed.

Lemma destroy_rejected candidate f :
  destroyPlugin
    (set_path candidate
       (set_lib (mkSharedLibrary candidate (Some f) (unload_refusals f)) newPlugin)) =
  rejected_events candidate f.
Proof.
  unfold destroyPlugin, rejected_events, unload, isLoaded. simpl.
  destruct (unload_refusals f); reflexivity.
Qed.

(** A plugin library whose name is registered already. *)
Lemma searchCandidate_duplicate dl cb candidate m found :
  is_plugin_library (dl candidate) = true ->
  find (exported_name (dl candidate)) m <> None ->
  searchCandidate JP_PLUGIN_API json_parse dl cb candidate m found =
    (m, found,
     [LibLoad candidate] ++
     callback cb SEARCH_NAME_ALREADY_EXISTS (Some (c_str candidate)) ++
     rejected_events candidate (dl candidate)).
Proof.
  intros Hlib Hdup. unfold searchCandidate. rewrite (load_plugin_library _ _ Hlib).
  unfold is_plugin_library in Hlib. unfold isLoaded, hasSymbol, get_cstring. simpl.
  apply andb_prop in Hlib. destruct Hlib as (Hlib & ->).
  apply andb_prop in Hlib. destruct Hlib as (Hlib & ->).
  apply andb_prop in Hlib. destruct Hlib as (_ & ->). simpl.
  fold (exported_name (dl candidate)).
  rewrite (proj2 (count_one _ _) Hdup), destroy_rejected. reflexivity.
Qed.

(** A plugin library with a new name: it is admitted when its descriptor
    is accepted. *)
Lemma searchCandidate_new dl cb candidate m found :
  is_plugin_library (dl candidate) = true ->
  find (exported_name (dl candidate)) m = None ->
  let i := parseMetadata JP_PLUGIN_API json_parse
             (exported_metadata (dl candidate)) in
  searchCandidate JP_PLUGIN_API json_parse dl cb candidate m found =
    if String.eqb (name i) "" then
      (m, found,
       [LibLoad candidate] ++
       callback cb SEARCH_CANNOT_PARSE_METADATA (Some (c_str candidate)) ++
       rejected_events candidate (dl candidate))
    else
      (m ++ [(exported_name (dl candidate), discovered candidate (dl candidate) i)],
       true, [LibLoad candidate]).
Proof.
  intros Hlib Hnew. unfold searchCandidate. rewrite (load_plugin_library _ _ Hlib).
  unfold is_plugin_library in Hlib. unfold isLoaded, hasSymbol, get_cstring. simpl.
  apply andb_prop in Hlib. destruct Hlib as (Hlib & ->).
  apply andb_prop in Hlib. destruct Hlib as (Hlib & ->).
  apply andb_prop in Hlib. destruct Hlib as (_ & ->). simpl.
  fold (exported_name (dl candidate)). fold (exported_metadata (dl candidate)).
  unfold count. rewrite Hnew. simpl.
  destruct (String.eqb _ ""); [rewrite destroy_rejected; reflexivity|].
  unfold insert. rewrite Hnew. reflexivity.
Qed.

(** Whatever the candidate, the registry stays as it is or grows by one
    record under a new name. *)
Lemma searchCandidate_registry dl cb candidate m found m' found' ev :
  searchCandidate JP_PLUGIN_API json_parse dl cb candidate m found =
    (m', found', ev) ->
  m' = m \/ exists k p, find k m = None /\ m' = m ++ [(k, p)].
Proof.
  intros H. destruct (is_plugin_library (dl candidate)) eqn:Hlib.
  - destruct (find (exported_name (dl candidate)) m) as [p|] eqn:Ef.
    + rewrite searchCandidate_duplicate in H by (auto; congruence).
      inversion H; auto.
    + rewrite (searchCandidate_new _ _ _ _ _ Hlib Ef) in H.
      destruct (String.eqb _ ""); inversion H; subst; eauto.
  - left. unfold searchCandidate in H.
    destruct (load dl candidate) as [l ev0] eqn:El.
    assert (Hno : isLoaded l && hasSymbol l has_jp_name && hasSymbol l has_jp_metadata
                  && hasSymbol l jp_createPlugin = false).
    { unfold load in El. unfold is_plugin_library in Hlib.
      destruct (loadable (dl candidate)); inversion El; subst; auto. }
    rewrite Hno in H. inversion H. reflexivity.
Qed.

Lemma find_snoc_other k k' p (m : PluginsMap) q :
  find k m = Some q -> find k (m ++ [(k', p)]) = Some q.
Proof. intros H. rewrite find_app, H. reflexivity. Qed.

Lemma unique_keys_snoc k p (m : PluginsMap) :
  unique_keys m -> find k m = None -> unique_keys (m ++ [(k, p)]).
Proof.
  unfold unique_keys. intros Hnd Hk. rewrite keys_app. simpl.
  apply NoDup_app; auto.
  - constructor; [intros []|constructor].
  - intros x Hx [<-|[]]. apply find_none_iff in Hk. contradiction.
Qed.

(** *** The loop over the listed files *)

Lemma searchLoop_registry dl cb : forall libList m found m' found' ev,
  searchLoop JP_PLUGIN_API json_parse dl cb libList m found = (m', found', ev) ->
  (unique_keys m -> unique_keys m') /\
  (forall k p, find k m = Some p -> find k m' = Some p).
Proof.
  induction libList as [|c rest IH]; simpl; intros m found m' found' ev H.
  - inversion H; subst. auto.
  - destruct (searchCandidate _ _ dl cb c m found) as [[m1 found1] ev1] eqn:E1.
    destruct (searchLoop _ _ dl cb rest m1 found1) as [[m2 found2] ev2] eqn:E2.
    inversion H; subst; clear H.
    destruct (IH _ _ _ _ _ E2) as (Hu & Hf).
    destruct (searchCandidate_registry _ _ _ _ _ _ _ _ E1) as [->|(k & p & Hk & ->)]; auto.
    split.
    + intros Hnd. apply Hu. apply unique_keys_snoc; auto.
    + intros x q Hx. apply Hf. apply find_snoc_other. exact Hx.
Qed.

Lemma searchLoop_app dl cb : forall l1 l2 m found,
  searchLoop JP_PLUGIN_API json_parse dl cb (l1 ++ l2) m found =
  let '(m1, found1, ev1) :=
    searchLoop JP_PLUGIN_API json_parse dl cb l1 m found in
  let '(m2, found2, ev2) :=
    searchLoop JP_PLUGIN_API json_parse dl cb l2 m1 found1 in
  (m2, found2, ev1 ++ ev2).
Proof.
  induction l1 as [|c rest IH]; simpl; intros l2 m found.
  - destruct (searchLoop _ _ dl cb l2 m found) as [[m2 found2] ev2]. reflexivity.
  - destruct (searchCandidate _ _ dl cb c m found) as [[m1 found1] ev1].
    rewrite IH.
    destruct (searchLoop _ _ dl cb rest m1 found1) as [[m2 found2] ev2].
    destruct (searchLoop _ _ dl cb l2 m2 found2) as [[m3 found3] ev3].
    rewrite app_assoc. reflexivity.
Qed.

(** A call whose listing contains [candidate]: the loop before it, its own
    iteration and the loop after it. *)
Lemma searchForPlugins_at env pluginDir recursive cb st retCode st' tr listed l1 candidate l2 :
  searchForPlugins JP_PLUGIN_API json_parse env pluginDir recursive cb st =
    (retCode, st', tr) ->
  listLibrariesInDir env pluginDir recursive = (listed, l1 ++ candidate :: l2) ->
  exists m1 found1 ev1 m2 found2 ev2 found3 ev3 ev0,
    searchLoop JP_PLUGIN_API json_parse (dlopen env) cb l1 (pluginsMap st) false =
      (m1, found1, ev1) /\
    searchCandidate JP_PLUGIN_API json_parse (dlopen env) cb candidate m1 found1 =
      (m2, found2, ev2) /\
    searchLoop JP_PLUGIN_API json_parse (dlopen env) cb l2 m2 found2 =
      (pluginsMap st', found3, ev3) /\
    tr = ev0 ++ ev1 ++ ev2 ++ ev3 /\
    loadOrderList st' = loadOrderList st.
Proof.
  unfold searchForPlugins. intros H Hlist. rewrite Hlist in H.
  assert (Hnonempty : match l1 ++ candidate :: l2 with [] => true | _ => false end = false).
  { destruct l1; reflexivity. }
  rewrite Hnonempty, andb_false_r in H.
  rewrite searchLoop_app in H.
  destruct (searchLoop _ _ (dlopen env) cb l1 (pluginsMap st) false)
    as [[m1 found1] ev1] eqn:E1.
  simpl in H.
  destruct (searchCandidate _ _ (dlopen env) cb candidate m1 found1)
    as [[m2 found2] ev2] eqn:E2.
  destruct (searchLoop _ _ (dlopen env) cb l2 m2 found2) as [[m3 found3] ev3] eqn:E3.
  exists m1, found1, ev1, m2, found2, ev2, found3, ev3.
  exists (if listed then []
          else callback cb SEARCH_LISTFILES_ERROR (Some (strerror env))).
  destruct found3; inversion H; subst; simpl; auto.
Qed.

Lemma searchAll_unique : forall calls st,
  unique_keys (pluginsMap st) ->
  unique_keys (pluginsMap (searchAll JP_PLUGIN_API json_parse calls st)).
Proof.
  induction calls as [|[[[env pluginDir] recursive] cb] rest IH]; simpl; intros st Hnd; auto.
  apply IH. unfold searchForPlugins.
  destruct (listLibrariesInDir env pluginDir recursive) as [listed libList].
  destruct (negb listed && _); [exact Hnd|].
  destruct (searchLoop _ _ (dlopen env) cb libList (pluginsMap st) false)
    as [[m found] ev] eqn:E.
  destruct (searchLoop_registry _ _ _ _ _ _ _ _ E) as (Hu & _).
  destruct found; simpl; auto.
Qed.

Lemma searchForPlugins_registry env pluginDir recursive cb st retCode st' tr :
  searchForPlugins JP_PLUGIN_API json_parse env pluginDir recursive cb st =
    (retCode, st', tr) ->
  (unique_keys (pluginsMap st) -> unique_keys (pluginsMap st')) /\
  (forall k p, find k (pluginsMap st) = Some p -> find k (pluginsMap st') = Some p).
Proof.
  unfold searchForPlugins.
  destruct (listLibrariesInDir env pluginDir recursive) as [listed libList].
  destruct (negb listed && _); [intros H; inversion H; subst; auto|].
  destruct (searchLoop _ _ (dlopen env) cb libList (pluginsMap st) false)
    as [[m found] ev] eqn:E.
  destruct (searchLoop_registry _ _ _ _ _ _ _ _ E) as (Hu & Hf).
  destruct found; intros H; inversion H; subst; simpl; auto.
Qed.

(** C5.  Starting from the empty manager, after any sequence of calls of
    [searchForPlugins] the names of the registry are pairwise distinct:
    every name is the key of exactly one record.  A single call keeps
    them distinct and keeps every record it found registered.  When a
    listed file is a plugin library whose [jp_name] is, at its turn in the
    loop, the name of a registered record, its iteration leaves the
    registry as it is, the callback (when one is given) receives
    [SEARCH_NAME_ALREADY_EXISTS] with the path of the file, and the record
    registered under that name is still the same when the call returns. *)
Theorem search_keeps_names_unique :
  (forall calls,
     unique_keys (pluginsMap (searchAll JP_PLUGIN_API json_parse calls emptyManager))) /\
  (forall env pluginDir recursive cb st retCode st' tr,
     searchForPlugins JP_PLUGIN_API json_parse env pluginDir recursive cb st =
       (retCode, st', tr) ->
     (unique_keys (pluginsMap st) -> unique_keys (pluginsMap st')) /\
     (forall k p, find k (pluginsMap st) = Some p -> find k (pluginsMap st') = Some p) /\
     (forall listed l1 candidate l2 m1 found1 ev1 p,
        listLibrariesInDir env pluginDir recursive = (listed, l1 ++ candidate :: l2) ->
        searchLoop JP_PLUGIN_API json_parse (dlopen env) cb l1 (pluginsMap st) false =
          (m1, found1, ev1) ->
        is_plugin_library (dlopen env candidate) = true ->
        find (exported_name (dlopen env candidate)) m1 = Some p ->
        searchCandidate JP_PLUGIN_API json_parse (dlopen env) cb candidate m1 found1 =
          (m1, found1,
           [LibLoad candidate] ++
           callback cb SEARCH_NAME_ALREADY_EXISTS (Some (c_str candidate)) ++
           rejected_events candidate (dlopen env candidate)) /\
        (cb = true ->
         In (Callback SEARCH_NAME_ALREADY_EXISTS (Some (c_str candidate))) tr) /\
        find (exported_name (dlopen env candidate)) (pluginsMap st') = Some p)).
Proof.
  split.
  - intros calls. apply searchAll_unique. constructor.
  - intros env pluginDir recursive cb st retCode st' tr H.
    destruct (searchForPlugins_registry _ _ _ _ _ _ _ _ H) as (Hu & Hf).
    split; [exact Hu|]. split; [exact Hf|].
    intros listed l1 candidate l2 m1 found1 ev1 p Hlist Hl1 Hlib Hdup.
    destruct (searchForPlugins_at _ _ _ _ _ _ _ _ _ _ _ _ H Hlist)
      as (m1' & found1' & ev1' & m2 & found2 & ev2 & found3 & ev3 & ev0 &
          E1 & E2 & E3 & -> & _).
    rewrite Hl1 in E1. inversion E1; subst m1' found1' ev1'; clear E1.
    assert (Hdup' : find (exported_name (dlopen env candidate)) m1 <> None) by congruence.
    pose proof (searchCandidate_duplicate (dlopen env) cb candidate m1 found1 Hlib Hdup')
      as Hc.
    split; [exact Hc|]. rewrite Hc in E2. inversion E2; subst m2 found2 ev2; clear E2.
    split.
    + intros ->. apply in_or_app. right. apply in_or_app. right.
      apply in_or_app. left. simpl. auto.
    + destruct (searchLoop_registry _ _ _ _ _ _ _ _ E3) as (_ & Hkeep). auto.
Qed.

(** C9, as the code has it.  When a listed plugin library is rejected
    because its [jp_name] is registered already, the events of the call
    show, in this order, the load of its image, the callback (when one is
    given) and the unload request made by the destructor of the candidate
    record when the iteration ends.  The image is released then; it stays
    loaded only when the operating system refuses that request. *)
Theorem rejected_duplicate_is_unloaded
    env pluginDir recursive cb st retCode st' tr listed l1 candidate l2 m1 found1 ev1 :
  searchForPlugins JP_PLUGIN_API json_parse env pluginDir recursive cb st =
    (retCode, st', tr) ->
  listLibrariesInDir env pluginDir recursive = (listed, l1 ++ candidate :: l2) ->
  searchLoop JP_PLUGIN_API json_parse (dlopen env) cb l1 (pluginsMap st) false =
    (m1, found1, ev1) ->
  is_plugin_library (dlopen env candidate) = true ->
  find (exported_name (dlopen env candidate)) m1 <> None ->
  (exists earlier later,
     tr = earlier ++
          ([LibLoad candidate] ++
           callback cb SEARCH_NAME_ALREADY_EXISTS (Some (c_str candidate)) ++
           rejected_events candidate (dlopen env candidate)) ++
          later) /\
  (unload_refusals (dlopen env candidate) = 0 ->
   rejected_events candidate (dlopen env candidate) = [LibUnload candidate true]) /\
  (unload_refusals (dlopen env candidate) <> 0 ->
   rejected_events candidate (dlopen env candidate) =
     [LibUnload candidate false; Leaked candidate]).
Proof.
  intros H Hlist Hl1 Hlib Hdup.
  destruct (searchForPlugins_at _ _ _ _ _ _ _ _ _ _ _ _ H Hlist)
    as (m1' & found1' & ev1' & m2 & found2 & ev2 & found3 & ev3 & ev0 &
        E1 & E2 & E3 & -> & _).
  rewrite Hl1 in E1. inversion E1; subst m1' found1' ev1'; clear E1.
  rewrite (searchCandidate_duplicate (dlopen env) cb candidate m1 found1 Hlib Hdup) in E2.
  inversion E2; subst m2 found2 ev2; clear E2.
  split; [|split].
  - exists (ev0 ++ ev1), ev3. apply app_assoc.
  - unfold rejected_events. intros ->. reflexivity.
  - unfold rejected_events. destruct (unload_refusals (dlopen env candidate));
      [intros Hne; contradiction Hne; reflexivity|reflexivity].
Qed.

Lemma pluginInfo_find st k p :
  find k (pluginsMap st) = Some p -> pluginInfo st k = toPluginInfo (info p).
Proof.
  intros H. unfold pluginInfo, hasPlugin, count. rewrite H. reflexivity.
Qed.

(** C8, as the code has it.  Let a listed plugin library, whose [jp_name]
    is not yet registered at its turn, carry a descriptor [parseMetadata]
    accepts.  The descriptor parses to a JSON value that declares exactly
    the fields of the metadata kept, and [pluginInfo], applied to the
    [jp_name] the record is registered under, returns these fields as C
    strings, the dependencies in declaration order.  Applied to the name
    the descriptor declares it returns them when that name is the
    [jp_name]. *)
Theorem pluginInfo_returns_descriptor
    env pluginDir recursive cb st retCode st' tr listed l1 candidate l2 m1 found1 ev1 :
  searchForPlugins JP_PLUGIN_API json_parse env pluginDir recursive cb st =
    (retCode, st', tr) ->
  listLibrariesInDir env pluginDir recursive = (listed, l1 ++ candidate :: l2) ->
  searchLoop JP_PLUGIN_API json_parse (dlopen env) cb l1 (pluginsMap st) false =
    (m1, found1, ev1) ->
  is_plugin_library (dlopen env candidate) = true ->
  find (exported_name (dlopen env candidate)) m1 = None ->
  name (parseMetadata JP_PLUGIN_API json_parse
          (exported_metadata (dlopen env candidate))) <> "" ->
  (exists tree,
     json_parse (exported_metadata (dlopen env candidate)) = Some tree /\
     declares tree (parseMetadata JP_PLUGIN_API json_parse
                      (exported_metadata (dlopen env candidate)))) /\
  snapshot_of (parseMetadata JP_PLUGIN_API json_parse
                 (exported_metadata (dlopen env candidate)))
              (pluginInfo st' (exported_name (dlopen env candidate))) /\
  (name (parseMetadata JP_PLUGIN_API json_parse
           (exported_metadata (dlopen env candidate))) =
   exported_name (dlopen env candidate) ->
   snapshot_of (parseMetadata JP_PLUGIN_API json_parse
                  (exported_metadata (dlopen env candidate)))
               (pluginInfo st'
                  (name (parseMetadata JP_PLUGIN_API json_parse
                           (exported_metadata (dlopen env candidate)))))).
Proof.
  intros H Hlist Hl1 Hlib Hnew Hacc.
  destruct (searchForPlugins_at _ _ _ _ _ _ _ _ _ _ _ _ H Hlist)
    as (m1' & found1' & ev1' & m2 & found2 & ev2 & found3 & ev3 & ev0 &
        E1 & E2 & E3 & -> & _).
  rewrite Hl1 in E1. inversion E1; subst m1' found1' ev1'; clear E1.
  rewrite (searchCandidate_new (dlopen env) cb candidate m1 found1 Hlib Hnew) in E2.
  apply String.eqb_neq in Hacc. rewrite Hacc in E2. apply String.eqb_neq in Hacc.
  inversion E2; subst m2 found2 ev2; clear E2.
  destruct (searchLoop_registry _ _ _ _ _ _ _ _ E3) as (_ & Hkeep).
  assert (Hfind : find (exported_name (dlopen env candidate)) (pluginsMap st') =
                  Some (discovered candidate (dlopen env candidate)
                          (parseMetadata JP_PLUGIN_API json_parse
                             (exported_metadata (dlopen env candidate))))).
  { apply Hkeep. apply find_middle. apply find_none_iff. exact Hnew. }
  split; [apply parseMetadata_accepted; exact Hacc|].
  assert (Hsnap : snapshot_of (parseMetadata JP_PLUGIN_API json_parse
                                 (exported_metadata (dlopen env candidate)))
                              (pluginInfo st' (exported_name (dlopen env candidate)))).
  { rewrite (pluginInfo_find _ _ _ Hfind). apply toPluginInfo_snapshot. }
  split; [exact Hsnap|]. intros ->. exact Hsnap.
Qed.

End DiscoveryProofs.

(** * Further properties of the operations *)

(** ** Discovery: return codes, locations and library handles *)

Section DiscoveryMore.

Variable JP_PLUGIN_API : string.
Variable json_parse : string -> option json.

Lemma loads_of_app a b : loads_of (a ++ b) = loads_of a ++ loads_of b.
Proof. apply flat_map_app. Qed.

Lemma unloads_of_app a b : unloads_of (a ++ b) = unloads_of a ++ unloads_of b.
Proof. apply flat_map_app. Qed.

Lemma callbacks_of_app a b : callbacks_of (a ++ b) = callbacks_of a ++ callbacks_of b.
Proof. apply flat_map_app. Qed.

Lemma callback_quiet cb code detail :
  loads_of (callback cb code detail) = [] /\
  unloads_of (callback cb code detail) = [] /\
  leaked_of (callback cb code detail) = [] /\
  refused_of (callback cb code detail) = [] /\
  about_of (callback cb code detail) = [].
Proof. destruct cb; simpl; auto. Qed.

Lemma rejected_events_spec candidate f :
  loads_of (rejected_events candidate f) = [] /\
  unloads_of (rejected_events candidate f) = [candidate] /\
  leaked_of (rejected_events candidate f) = refused_of (rejected_events candidate f) /\
  about_of (rejected_events candidate f) = [] /\
  callbacks_of (rejected_events candidate f) = [].
Proof. unfold rejected_events. destruct (unload_refusals f); simpl; auto. Qed.

(** A file that is no plugin library: it is unloaded again when it could
    be loaded, and no callback is made. *)
Lemma searchCandidate_other dl cb candidate m found :
  is_plugin_library (dl candidate) = false ->
  searchCandidate JP_PLUGIN_API json_parse dl cb candidate m found =
    (m, found,
     if loadable (dl candidate)
     then [LibLoad candidate] ++ rejected_events candidate (dl candidate)
     else []).
Proof.
  unfold is_plugin_library, searchCandidate, load. intros H.
  destruct (loadable (dl candidate)) eqn:El; [|reflexivity].
  unfold isLoaded, hasSymbol. cbn [image]. simpl in H. simpl andb.
  rewrite H. f_equal. f_equal.
  unfold destroyPlugin, rejected_events, unload, isLoaded. simpl.
  destruct (unload_refusals (dl candidate)); reflexivity.
Qed.

Lemma rejected_account cb code detail candidate f :
  let ev := LibLoad candidate :: callback cb code detail ++ rejected_events candidate f in
  loads_of ev = [candidate] /\
  length (loads_of ev) = length (unloads_of ev) /\
  leaked_of ev = refused_of ev /\
  about_of ev = [] /\
  length (callbacks_of ev) <= 1.
Proof.
  unfold rejected_events.
  destruct cb, (unload_refusals f); simpl; repeat split; auto.
Qed.

(** What one candidate contributes: at most one record under a new name,
    one load when the file is loadable, and one unload request unless the
    record is registered. *)
Lemma searchCandidate_account dl cb candidate m found m' found' ev :
  searchCandidate JP_PLUGIN_API json_parse dl cb candidate m found =
    (m', found', ev) ->
  exists added,
    m' = m ++ added /\
    found' = (found || negb (Nat.eqb (length added) 0)) /\
    Forall (registered_from JP_PLUGIN_API json_parse dl [candidate]) added /\
    (forall k, In k (keys added) -> find k m = None) /\
    NoDup (keys added) /\
    loads_of ev = (if loadable (dl candidate) then [candidate] else []) /\
    length (loads_of ev) = length added + length (unloads_of ev) /\
    leaked_of ev = refused_of ev /\
    about_of ev = [] /\
    (added <> [] -> callbacks_of ev = []) /\
    length (callbacks_of ev) <= 1.
Proof.
  intros H.
  assert (Hnone : forall b code detail,
            (m, found,
             [LibLoad candidate] ++ callback b code detail ++
             rejected_events candidate (dl candidate)) = (m', found', ev) ->
            loadable (dl candidate) = true ->
            exists added,
              m' = m ++ added /\
              found' = (found || negb (Nat.eqb (length added) 0)) /\
              Forall (registered_from JP_PLUGIN_API json_parse dl [candidate]) added /\
              (forall k, In k (keys added) -> find k m = None) /\
              NoDup (keys added) /\
              loads_of ev = (if loadable (dl candidate) then [candidate] else []) /\
              length (loads_of ev) = length added + length (unloads_of ev) /\
              leaked_of ev = refused_of ev /\
              about_of ev = [] /\
              (added <> [] -> callbacks_of ev = []) /\
              length (callbacks_of ev) <= 1).
  { intros b code detail E Hload. injection E as <- <- <-. exists [].
    rewrite app_nil_r, orb_false_r, Hload.
    destruct (rejected_account b code detail candidate (dl candidate))
      as (A1 & A2 & A3 & A4 & A5).
    split; [reflexivity|]. split; [reflexivity|]. split; [constructor|].
    split; [intros k []|]. split; [constructor|].
    split; [exact A1|]. split; [exact A2|]. split; [exact A3|].
    split; [exact A4|]. split; [congruence|exact A5]. }
  destruct (is_plugin_library (dl candidate)) eqn:Hlib.
  - assert (Hload : loadable (dl candidate) = true).
    { unfold is_plugin_library in Hlib.
      destruct (loadable (dl candidate)); [reflexivity|discriminate]. }
    destruct (find (exported_name (dl candidate)) m) eqn:Hf.
    + rewrite searchCandidate_duplicate in H by (assumption || congruence).
      exact (Hnone _ _ _ H Hload).
    + rewrite searchCandidate_new in H by assumption.
      destruct (String.eqb _ "") eqn:En; [exact (Hnone _ _ _ H Hload)|].
      clear Hnone. injection H as <- <- <-. rewrite Hload.
      eexists [_]. split; [reflexivity|].
      split; [simpl; symmetry; apply orb_true_r|].
      split.
      { constructor; [|constructor]. exists candidate.
        split; [left; reflexivity|]. split; [assumption|].
        split; [reflexivity|]. split; [reflexivity|].
        simpl. apply String.eqb_neq. exact En. }
      split; [intros k [<-|[]]; exact Hf|].
      split; [constructor; [intros []|constructor]|].
      simpl. repeat split; auto.
  - rewrite searchCandidate_other in H by assumption.
    destruct (loadable (dl candidate)) eqn:Hload.
    + change ([LibLoad candidate] ++ rejected_events candidate (dl candidate))
        with ([LibLoad candidate] ++ callback false SUCCESS None ++
              rejected_events candidate (dl candidate)) in H.
      exact (Hnone _ _ _ H eq_refl).
    + injection H as <- <- <-. exists [].
      rewrite app_nil_r, orb_false_r. simpl.
      split; [reflexivity|]. split; [reflexivity|]. split; [constructor|].
      split; [intros k []|]. split; [constructor|].
      repeat split; auto.
Qed.

(** The same account for the loop over the listed files. *)
Lemma searchLoop_account dl cb : forall libList m found m' found' ev,
  searchLoop JP_PLUGIN_API json_parse dl cb libList m found = (m', found', ev) ->
  exists added,
    m' = m ++ added /\
    found' = (found || negb (Nat.eqb (length added) 0)) /\
    Forall (registered_from JP_PLUGIN_API json_parse dl libList) added /\
    (forall k, In k (keys added) -> find k m = None) /\
    NoDup (keys added) /\
    loads_of ev = filter (fun c => loadable (dl c)) libList /\
    length (loads_of ev) = length added + length (unloads_of ev) /\
    leaked_of ev = refused_of ev /\
    about_of ev = [] /\
    length (callbacks_of ev) + length added <= length libList.
Proof.
  induction libList as [|candidate rest IH]; intros m found m' found' ev H.
  - simpl in H. injection H as <- <- <-. exists [].
    rewrite app_nil_r, orb_false_r. simpl.
    split; [reflexivity|]. split; [reflexivity|]. split; [constructor|].
    split; [intros k []|]. split; [constructor|]. auto 10.
  - simpl in H.
    destruct (searchCandidate JP_PLUGIN_API json_parse dl cb candidate m found)
      as [[m1 found1] ev1] eqn:E1.
    destruct (searchLoop JP_PLUGIN_API json_parse dl cb rest m1 found1)
      as [[m2 found2] ev2] eqn:E2.
    injection H as <- <- <-.
    destruct (searchCandidate_account _ _ _ _ _ _ _ _ E1)
      as (a1 & -> & -> & F1 & N1 & D1 & L1 & C1 & K1 & B1 & Q1 & S1).
    destruct (IH _ _ _ _ _ E2)
      as (a2 & -> & -> & F2 & N2 & D2 & L2 & C2 & K2 & B2 & S2).
    exists (a1 ++ a2).
    split; [symmetry; apply app_assoc|].
    split.
    { rewrite length_app. destruct found, a1, a2; reflexivity. }
    split.
    { apply Forall_app. split.
      - eapply Forall_impl; [|exact F1].
        intros e (c & [<-|[]] & R). exists candidate.
        split; [left; reflexivity|exact R].
      - eapply Forall_impl; [|exact F2].
        intros e (c & Hin & R). exists c. split; [right; exact Hin|exact R]. }
    split.
    { intros k Hk. unfold keys in Hk. rewrite map_app in Hk.
      apply in_app_or in Hk. destruct Hk as [Hk|Hk]; [apply N1; exact Hk|].
      specialize (N2 k Hk). rewrite find_app in N2.
      destruct (find k m); [discriminate|reflexivity]. }
    split.
    { unfold keys. rewrite map_app. apply NoDup_app; [exact D1|exact D2|].
      intros k Hk1 Hk2. specialize (N2 k Hk2). rewrite find_app in N2.
      destruct (find k m) eqn:Ek; [discriminate|].
      apply in_keys_find in Hk1. destruct Hk1 as (p & Hp). congruence. }
    rewrite loads_of_app, unloads_of_app, leaked_of_app, refused_of_app,
      about_of_app, callbacks_of_app, !length_app, L1, L2, K1, K2, B1, B2.
    split.
    { simpl. destruct (loadable (dl candidate)); reflexivity. }
    split; [rewrite L1 in C1; rewrite L2 in C2; lia|].
    split; [reflexivity|]. split; [reflexivity|].
    simpl. destruct a1 as [|e1 a1'].
    + simpl. lia.
    + rewrite (Q1 ltac:(discriminate)). simpl.
      inversion D1 as [|? ? Hn Hd]; subst.
      destruct a1'; [simpl; lia|].
      exfalso. inversion F1 as [|? ? (c1 & [<-|[]] & _ & X1 & _) F1']; subst.
      inversion F1' as [|? ? (c2 & [<-|[]] & _ & X2 & _) _]; subst.
      apply Hn. left. congruence.
Qed.

(** The two ways a call ends: the early return after a failed scan that
    listed nothing, and the loop over the listed files. *)
Lemma searchForPlugins_cases env pluginDir recursive cb st retCode st' tr :
  searchForPlugins JP_PLUGIN_API json_parse env pluginDir recursive cb st =
    (retCode, st', tr) ->
  (listLibrariesInDir env pluginDir recursive = (false, []) /\
   retCode = SEARCH_LISTFILES_ERROR /\ st' = st /\
   tr = callback cb SEARCH_LISTFILES_ERROR (Some (strerror env))) \/
  (listLibrariesInDir env pluginDir recursive <> (false, []) /\
   exists m found ev,
     searchLoop JP_PLUGIN_API json_parse (dlopen env) cb
       (snd (listLibrariesInDir env pluginDir recursive)) (pluginsMap st) false =
       (m, found, ev) /\
     tr = (if fst (listLibrariesInDir env pluginDir recursive) then []
           else callback cb SEARCH_LISTFILES_ERROR (Some (strerror env))) ++ ev /\
     loadOrderList st' = loadOrderList st /\ pluginsMap st' = m /\
     (found = true ->
      retCode = SUCCESS /\
      locations st' =
        if existsb (String.eqb pluginDir) (locations st)
        then locations st else locations st ++ [pluginDir]) /\
     (found = false ->
      retCode = SEARCH_NOTHING_FOUND /\ locations st' = locations st)).
Proof.
  unfold searchForPlugins.
  destruct (listLibrariesInDir env pluginDir recursive) as [listed libList].
  destruct listed, libList as [|c rest]; simpl negb; simpl andb; cbv iota.
  1, 2, 4:
    destruct (searchLoop JP_PLUGIN_API json_parse (dlopen env) cb _ (pluginsMap st) false)
      as [[m found] ev] eqn:E;
    intros H; right; split; [discriminate|];
    exists m, found, ev; simpl fst; simpl snd;
    (split; [first [exact E | reflexivity]|]);
    destruct found; injection H as <- <- <-; simpl;
    (split; [reflexivity|]); (split; [reflexivity|]); (split; [reflexivity|]);
    split; intros X; try discriminate X; split; reflexivity.
  intros H. injection H as <- <- <-. left. repeat split; reflexivity.
Qed.

(** X1.  [searchForPlugins] returns [SEARCH_LISTFILES_ERROR] exactly when
    the scan of the directory fails and lists no file; the manager is then
    left as it was and the only event is the callback, which receives the
    message of [strerror(errno)].  When the scan fails but lists files,
    that callback comes first and the listed files are processed. *)
Theorem searchForPlugins_listing_error env pluginDir recursive cb st retCode st' tr :
  searchForPlugins JP_PLUGIN_API json_parse env pluginDir recursive cb st =
    (retCode, st', tr) ->
  (retCode = SEARCH_LISTFILES_ERROR <->
   listLibrariesInDir env pluginDir recursive = (false, [])) /\
  (retCode = SEARCH_LISTFILES_ERROR ->
   st' = st /\ tr = callback cb SEARCH_LISTFILES_ERROR (Some (strerror env))) /\
  (fst (listLibrariesInDir env pluginDir recursive) = false ->
   exists rest,
     tr = callback cb SEARCH_LISTFILES_ERROR (Some (strerror env)) ++ rest /\
     loads_of rest =
       filter (fun c => loadable (dlopen env c))
              (snd (listLibrariesInDir env pluginDir recursive))).
Proof.
  intros H. destruct (searchForPlugins_cases _ _ _ _ _ _ _ _ H)
    as [(Hl & -> & -> & ->)|(Hl & m & found & ev & E & -> & _ & _ & Ht & Hf)].
  - split; [split; auto|]. split; [auto|].
    intros _. exists []. rewrite app_nil_r, Hl. split; reflexivity.
  - assert (Hrc : retCode <> SEARCH_LISTFILES_ERROR).
    { destruct found.
      - destruct (Ht eq_refl) as (-> & _). discriminate.
      - destruct (Hf eq_refl) as (-> & _). discriminate. }
    split; [split; intros X; contradiction|].
    split; [intros X; contradiction|].
    intros Hfst. rewrite Hfst. exists ev. split; [reflexivity|].
    destruct (searchLoop_account _ _ _ _ _ _ _ _ E) as (a & _ & _ & _ & _ & _ & L & _).
    exact L.
Qed.

Lemma searchForPlugins_added env pluginDir recursive cb st retCode st' tr :
  searchForPlugins JP_PLUGIN_API json_parse env pluginDir recursive cb st =
    (retCode, st', tr) ->
  exists added,
    pluginsMap st' = pluginsMap st ++ added /\
    (retCode = SUCCESS <-> added <> []) /\
    (retCode = SUCCESS \/ retCode = SEARCH_NOTHING_FOUND \/
     retCode = SEARCH_LISTFILES_ERROR) /\
    Forall (registered_from JP_PLUGIN_API json_parse (dlopen env)
              (snd (listLibrariesInDir env pluginDir recursive))) added /\
    (forall k, In k (keys added) -> find k (pluginsMap st) = None) /\
    NoDup (keys added) /\
    loadOrderList st' = loadOrderList st /\
    length (callbacks_of tr) + length added <=
      S (length (snd (listLibrariesInDir env pluginDir recursive))).
Proof.
  intros H. destruct (searchForPlugins_cases _ _ _ _ _ _ _ _ H)
    as [(Hl & -> & -> & ->)|(Hl & m & found & ev & E & -> & Ho & Hm & Ht & Hf)].
  - exists []. rewrite app_nil_r, Hl.
    split; [reflexivity|]. split; [split; [discriminate|congruence]|].
    split; [auto|]. split; [constructor|]. split; [intros k []|].
    split; [constructor|]. split; [reflexivity|].
    destruct cb; simpl; lia.
  - destruct (searchLoop_account _ _ _ _ _ _ _ _ E)
      as (a & Ea & Efound & Fa & Na & Da & _ & _ & _ & _ & Sa).
    exists a. rewrite Hm. split; [exact Ea|].
    simpl in Efound.
    split.
    { destruct found.
      - destruct (Ht eq_refl) as (-> & _). split; [|reflexivity].
        intros _ ->. discriminate.
      - destruct (Hf eq_refl) as (-> & _). split; [discriminate|].
        intros Ha. destruct a; [contradiction|discriminate]. }
    split.
    { destruct found.
      - destruct (Ht eq_refl) as (-> & _). auto.
      - destruct (Hf eq_refl) as (-> & _). auto. }
    split; [exact Fa|]. split; [exact Na|]. split; [exact Da|].
    split; [exact Ho|].
    rewrite callbacks_of_app, length_app.
    destruct (fst (listLibrariesInDir env pluginDir recursive)); [simpl; lia|].
    destruct cb; simpl; lia.
Qed.


Lemma existsb_eqb_In x l : existsb (String.eqb x) l = true <-> In x l.
Proof.
  rewrite existsb_exists. split.
  - intros (y & Hy & E). apply String.eqb_eq in E. subst. exact Hy.
  - intros H. exists x. split; [exact H|apply String.eqb_refl].
Qed.

Lemma searchForPlugins_locations_step env pluginDir recursive cb st retCode st' tr :
  searchForPlugins JP_PLUGIN_API json_parse env pluginDir recursive cb st =
    (retCode, st', tr) ->
  (retCode = SUCCESS -> In pluginDir (locations st')) /\
  (retCode <> SUCCESS -> locations st' = locations st) /\
  (locations st' = locations st \/
   locations st' = locations st ++ [pluginDir] /\
   ~ In pluginDir (locations st) /\ retCode = SUCCESS) /\
  (NoDup (locations st) -> NoDup (locations st')).
Proof.
  intros H. destruct (searchForPlugins_cases _ _ _ _ _ _ _ _ H)
    as [(Hl & -> & -> & ->)|(Hl & m & found & ev & E & -> & Ho & Hm & Ht & Hf)].
  - split; [discriminate|]. split; [reflexivity|]. split; [left; reflexivity|auto].
  - destruct found.
    + destruct (Ht eq_refl) as (-> & Hloc).
      destruct (existsb (String.eqb pluginDir) (locations st)) eqn:Ex.
      * apply existsb_eqb_In in Ex. rewrite Hloc.
        split; [intros _; exact Ex|]. split; [intros X; contradiction|].
        split; [left; reflexivity|auto].
      * assert (Hnot : ~ In pluginDir (locations st)).
        { intros Hin. apply existsb_eqb_In in Hin. congruence. }
        rewrite Hloc.
        split; [intros _; apply in_or_app; right; left; reflexivity|].
        split; [intros X; contradiction|].
        split; [right; auto|].
        intros Hnd. apply NoDup_app; [exact Hnd|constructor; [intros []|constructor]|].
        intros x Hx [<-|[]]. contradiction.
    + destruct (Hf eq_refl) as (-> & ->).
      split; [discriminate|]. split; [reflexivity|]. split; [left; reflexivity|auto].
Qed.

Lemma searchAll_locations : forall calls st,
  NoDup (locations st) ->
  NoDup (locations (searchAll JP_PLUGIN_API json_parse calls st)).
Proof.
  induction calls as [|[[[env pluginDir] recursive] cb] rest IH]; intros st Hnd;
    [exact Hnd|].
  simpl. apply IH.
  destruct (searchForPlugins JP_PLUGIN_API json_parse env pluginDir recursive cb st)
    as [[rc st1] tr] eqn:E.
  simpl. exact (proj2 (proj2 (proj2 (searchForPlugins_locations_step _ _ _ _ _ _ _ _ E)))
                  Hnd).
Qed.

(** X3.  The locations list never holds a directory twice, whatever
    sequence of calls of [searchForPlugins] a new manager receives.  A
    call that returns [SUCCESS] leaves the searched directory in the list,
    appending it when it was not there; any other call leaves the list as
    it was. *)
Theorem searchForPlugins_locations :
  (forall calls,
     NoDup (locations (searchAll JP_PLUGIN_API json_parse calls emptyManager))) /\
  (forall env pluginDir recursive cb st retCode st' tr,
     searchForPlugins JP_PLUGIN_API json_parse env pluginDir recursive cb st =
       (retCode, st', tr) ->
     (retCode = SUCCESS -> In pluginDir (locations st')) /\
     (retCode <> SUCCESS -> locations st' = locations st) /\
     (locations st' = locations st \/
      locations st' = locations st ++ [pluginDir] /\
      ~ In pluginDir (locations st) /\ retCode = SUCCESS) /\
     (NoDup (locations st) -> NoDup (locations st'))).
Proof.
  split.
  - intros calls. apply searchAll_locations. constructor.
  - intros env pluginDir recursive cb st retCode st' tr H.
    exact (searchForPlugins_locations_step _ _ _ _ _ _ _ _ H).
Qed.

(** X4.  A call of [searchForPlugins] loads every listed file that can be
    loaded, once and in the order of the list, and keeps loaded only what
    it registers: every loaded file is registered or receives an unload
    request.  An image outlives the call without a record only when that
    request is refused, and no plugin is notified. *)
Theorem searchForPlugins_library_handles
    env pluginDir recursive cb st retCode st' tr :
  searchForPlugins JP_PLUGIN_API json_parse env pluginDir recursive cb st =
    (retCode, st', tr) ->
  loads_of tr =
    filter (fun c => loadable (dlopen env c))
           (snd (listLibrariesInDir env pluginDir recursive)) /\
  length (loads_of tr) + length (pluginsMap st) =
    length (pluginsMap st') + length (unloads_of tr) /\
  leaked_of tr = refused_of tr /\
  about_of tr = [].
Proof.
  intros H. destruct (searchForPlugins_cases _ _ _ _ _ _ _ _ H)
    as [(Hl & -> & -> & ->)|(Hl & m & found & ev & E & -> & Ho & Hm & Ht & Hf)].
  - rewrite Hl. destruct cb; simpl; repeat split; lia.
  - destruct (searchLoop_account _ _ _ _ _ _ _ _ E)
      as (a & Ea & _ & _ & _ & _ & L & C & K & B & _).
    destruct (callback_quiet cb SEARCH_LISTFILES_ERROR (Some (strerror env)))
      as (Q1 & Q2 & Q3 & Q4 & Q5).
    rewrite Hm, Ea, length_app.
    rewrite loads_of_app, unloads_of_app, leaked_of_app, refused_of_app, about_of_app.
    destruct (fst (listLibrariesInDir env pluginDir recursive)).
    + simpl. repeat split; try assumption. lia.
    + rewrite Q1, Q2, Q3, Q4, Q5. simpl. repeat split; try assumption. lia.
Qed.

Lemma registered_is_fresh dl libList e :
  registered_from JP_PLUGIN_API json_parse dl libList e -> fresh_record e.
Proof.
  intros (c & _ & Hlib & Hk & Hp & Hn). unfold fresh_record.
  rewrite Hp in *. simpl in *.
  repeat (split; [solve [auto]|]).
  exists (dl c). auto.
Qed.

Lemma searchAll_fresh : forall calls st,
  Forall fresh_record (pluginsMap st) -> loadOrderList st = [] ->
  Forall fresh_record (pluginsMap (searchAll JP_PLUGIN_API json_parse calls st)) /\
  loadOrderList (searchAll JP_PLUGIN_API json_parse calls st) = [].
Proof.
  induction calls as [|[[[env pluginDir] recursive] cb] rest IH]; intros st Hf Ho;
    [split; assumption|].
  simpl.
  destruct (searchForPlugins JP_PLUGIN_API json_parse env pluginDir recursive cb st)
    as [[rc st1] tr] eqn:E.
  simpl. destruct (searchForPlugins_added _ _ _ _ _ _ _ _ E)
    as (a & Ea & _ & _ & Fa & _ & _ & Eo & _).
  apply IH.
  - rewrite Ea. apply Forall_app. split; [exact Hf|].
    eapply Forall_impl; [|exact Fa]. intros e. apply registered_is_fresh.
  - congruence.
Qed.

(** X5.  Whatever sequence of calls of [searchForPlugins] a new manager
    receives, every record of the registry is as discovery leaves it: no
    plugin object, dependencies not yet checked, no graph id, metadata with
    a name, and the library of a plugin library loaded from the path of
    the record and exporting the name the record is registered under.  The
    load-order list is empty and [isPluginLoaded] is false for every
    name. *)
Theorem search_registers_fresh_records calls :
  Forall fresh_record
    (pluginsMap (searchAll JP_PLUGIN_API json_parse calls emptyManager)) /\
  loadOrderList (searchAll JP_PLUGIN_API json_parse calls emptyManager) = [] /\
  (forall n,
     isPluginLoaded (searchAll JP_PLUGIN_API json_parse calls emptyManager) n = false).
Proof.
  destruct (searchAll_fresh calls emptyManager (Forall_nil _) eq_refl) as (Hf & Ho).
  split; [exact Hf|]. split; [exact Ho|].
  intros n. unfold isPluginLoaded.
  destruct (find n _) as [p|] eqn:E; [|apply andb_false_r].
  apply find_in in E. rewrite Forall_forall in Hf.
  destruct (Hf _ E) as (Hi & _). simpl in Hi. rewrite Hi.
  rewrite andb_false_r. apply andb_false_r.
Qed.

End DiscoveryMore.

(** ** The dependency check: what is reported *)

Lemma no_new_failure_refl m : no_new_failure m m.
Proof. intros x H. exact H. Qed.

Lemma no_new_failure_trans m1 m2 m3 :
  no_new_failure m1 m2 -> no_new_failure m2 m3 -> no_new_failure m1 m3.
Proof. intros H1 H2 x H. apply H1, H2, H. Qed.

Lemma flag_update_false m key x :
  flag (update key (set_dependenciesExists TriFalse) m) x = Some TriFalse ->
  x <> key -> flag m x = Some TriFalse.
Proof.
  intros H Hne. rewrite flag_update_ne in H by congruence. exact H.
Qed.

Lemma flag_update_true_false m key x :
  flag (update key (set_dependenciesExists TriTrue) m) x = Some TriFalse ->
  flag m x = Some TriFalse.
Proof.
  intros H. destruct (String.eqb key x) eqn:E.
  - apply String.eqb_eq in E. subst x. unfold flag in H.
    rewrite find_update_eq in H. destruct (find key m); simpl in H; discriminate.
  - apply String.eqb_neq in E. rewrite flag_update_ne in H by exact E. exact H.
Qed.

Lemma checkLoop_report rec key p cb m0 :
  (forall k m rc m' tr, rec k m = Done (rc, m', tr) ->
                        report cb m rc m' tr /\ evolves m m') ->
  find key m0 = Some p -> dependenciesExists p = Indeterminate ->
  forall deps m rc m' tr,
    evolves m0 m -> no_new_failure m0 m ->
    checkLoop rec key (path p) cb deps m [] = Done (rc, m', tr) ->
    report cb m0 rc m' tr.
Proof.
  intros Hrec Hp Hflag.
  assert (Hfail : forall m code,
            evolves m0 m -> no_new_failure m0 m ->
            one_new_failure cb m0 code
              (update key (set_dependenciesExists TriFalse) m)
              (callback cb code (Some (c_str (path p))))).
  { intros m code Hev Hno. exists key, p.
    split; [exact Hp|]. split; [exact Hflag|].
    destruct (evolves_find _ _ _ _ Hev Hp) as (p' & Hp' & _).
    split; [exact (flag_update_eq _ _ _ _ Hp')|].
    split; [|reflexivity].
    intros y Hy Hf. apply Hno. apply (flag_update_false _ _ _ Hf Hy). }
  induction deps as [|d rest IH]; intros m rc m' tr Hev Hno H; simpl in H.
  - injection H as <- <- <-. left. split; [reflexivity|]. split; [reflexivity|].
    intros x Hx. apply Hno. exact (flag_update_true_false _ _ _ Hx).
  - destruct (find (dep_name d) m) as [dp|] eqn:Ed.
    + destruct (negb (compatible (version (info dp)) (dep_version d))).
      * injection H as <- <- <-. right. split; [right; reflexivity|].
        right. apply Hfail; assumption.
      * destruct (rec (dep_name d) m) as [[[rc1 m1] tr1]| |] eqn:Er;
          try discriminate.
        destruct (Hrec _ _ _ _ _ Er) as (Hrep & Hev1).
        destruct (to_bool rc1) eqn:Eb.
        -- destruct Hrep as [(-> & -> & Hno1)|([-> | ->] & _)]; try discriminate.
           simpl in H. apply (IH m1 rc m' tr); [| |exact H].
           ++ eapply evolves_trans; eassumption.
           ++ eapply no_new_failure_trans; eassumption.
        -- injection H as <- <- <-. simpl.
           destruct Hrep as [(-> & _)|(Hcode & Hwhat)]; [discriminate|].
           right. split; [exact Hcode|].
           destruct Hwhat as [(-> & Hno1)|(x & q & Hq & Hqf & Hx & Hothers & ->)].
           ++ left. split; [reflexivity|].
              eapply no_new_failure_trans; eassumption.
           ++ right.
              destruct (evolves_find_inv _ _ _ _ Hev Hq) as (q0 & Hq0 & Hsame & Hmono).
              exists x, q0. split; [exact Hq0|].
              split.
              { destruct (dependenciesExists q0) eqn:E0; [| |reflexivity];
                  rewrite Hmono in Hqf by discriminate; discriminate. }
              split; [exact Hx|].
              split; [intros y Hy Hf; apply Hno; exact (Hothers y Hy Hf)|].
              unfold same_but_flag in Hsame. rewrite Hsame. reflexivity.
    + injection H as <- <- <-. right. split; [left; reflexivity|].
      right. apply Hfail; assumption.
Qed.

Lemma checkDependencies_report cb fuel : forall k m rc m' tr,
  checkDependencies fuel cb k m = Done (rc, m', tr) -> report cb m rc m' tr.
Proof.
  induction fuel as [|f IH]; intros k m rc m' tr H; simpl in H; [discriminate|].
  destruct (find k m) as [p|] eqn:Ep; [|discriminate].
  destruct (dependenciesExists p) eqn:Ef.
  - injection H as <- <- <-. left. split; [reflexivity|]. split; [reflexivity|].
    apply no_new_failure_refl.
  - injection H as <- <- <-. right.
    split; [destruct (Nat.eqb _ 0); auto|].
    left. split; [reflexivity|apply no_new_failure_refl].
  - assert (Hrec : forall k' m1 rc1 m1' tr1,
              checkDependencies f cb k' m1 = Done (rc1, m1', tr1) ->
              report cb m1 rc1 m1' tr1 /\ evolves m1 m1').
    { intros k' m1 rc1 m1' tr1 H1. split; [exact (IH _ _ _ _ _ H1)|].
      exact (proj1 (proj1 (checkDependencies_checked _ _ _ _ _ _ _ H1))). }
    exact (checkLoop_report (checkDependencies f cb) k p cb m Hrec Ep Ef
             (dependencies (info p)) m rc m' tr (evolves_refl m)
             (no_new_failure_refl m) H).
Qed.

(** X6.  A call of [checkDependencies] that returns gives [SUCCESS],
    [LOAD_DEPENDENCY_NOT_FOUND] or [LOAD_DEPENDENCY_BAD_VERSION].  With
    [SUCCESS] there is no callback and no record is newly flagged as
    failed.  Otherwise at most one record is newly flagged as failed: the
    one whose own dependency is missing or incompatible, which may lie
    deeper in the dependencies than the record checked.  The callback,
    when one is given, is called once, with the returned code and the
    path of that record; there is no callback when the failure was
    already recorded. *)
Theorem checkDependencies_reports_once fuel cb k m retCode m' tr :
  checkDependencies fuel cb k m = Done (retCode, m', tr) ->
  (retCode = SUCCESS \/ retCode = LOAD_DEPENDENCY_NOT_FOUND \/
   retCode = LOAD_DEPENDENCY_BAD_VERSION) /\
  (retCode = SUCCESS -> tr = [] /\ no_new_failure m m') /\
  (retCode <> SUCCESS ->
   (tr = [] /\ no_new_failure m m') \/ one_new_failure cb m retCode m' tr) /\
  length tr <= 1.
Proof.
  intros H. pose proof (checkDependencies_report _ _ _ _ _ _ _ H) as Hr.
  destruct Hr as [(-> & -> & Hno)|(Hcode & Hwhat)].
  - split; [auto|]. split; [auto|]. split; [intros X; contradiction|simpl; lia].
  - split; [destruct Hcode; auto|].
    split; [intros ->; destruct Hcode; discriminate|].
    split; [intros _; exact Hwhat|].
    destruct Hwhat as [(-> & _)|(x & p & _ & _ & _ & _ & ->)]; [simpl; lia|].
    destruct cb; simpl; lia.
Qed.

(** X7.  [checkDependencies] writes nothing but dependency flags: the
    registry keeps its names and every record everything but its flag,
    and a flag that is already true or false is never changed.  The call
    returns [SUCCESS] exactly when the record it was called on ends
    flagged true; otherwise that record ends flagged false or is left
    indeterminate. *)
Theorem checkDependencies_decides_flags fuel cb k m retCode m' tr :
  checkDependencies fuel cb k m = Done (retCode, m', tr) ->
  evolves m m' /\ keys m' = keys m /\
  (retCode = SUCCESS <-> flag m' k = Some TriTrue) /\
  (retCode <> SUCCESS ->
   flag m' k = Some TriFalse \/ flag m' k = Some Indeterminate).
Proof.
  intros H.
  destruct (checkDependencies_checked _ _ _ _ _ _ _ H) as ((Hev & _) & Hyes & Hno).
  pose proof (checkDependencies_report _ _ _ _ _ _ _ H) as Hrep.
  assert (Hfail : retCode <> SUCCESS ->
                  flag m' k = Some TriFalse \/ flag m' k = Some Indeterminate).
  { intros Hne. apply failing_flag. apply Hno.
    destruct Hrep as [(-> & _)|([-> | ->] & _)]; [contradiction|reflexivity|reflexivity]. }
  split; [exact Hev|]. split; [exact (evolves_keys _ _ Hev)|].
  split; [|exact Hfail].
  split.
  - intros ->. exact (Hyes eq_refl).
  - intros Hf. destruct retCode; try reflexivity;
      (destruct Hfail as [X|X]; [discriminate|rewrite X in Hf; discriminate
                                |rewrite X in Hf; discriminate]).
Qed.

(** ** [loadPlugins]: return codes, failures and what is kept *)

Lemma same_static_find m m' k p' :
  same_static m m' -> find k m' = Some p' ->
  exists p, find k m = Some p /\ static_part p = static_part p'.
Proof.
  unfold same_static. revert m'.
  induction m as [|[k1 p1] r IH]; intros [|[k2 p2] r'] H Hf; simpl in *;
    try discriminate.
  inversion H; subst. destruct (String.eqb k2 k).
  - inversion Hf; subst. exists p1. split; auto. unfold static_part. congruence.
  - eauto.
Qed.

Lemma same_static_refl m : same_static m m.
Proof. reflexivity. Qed.

Lemma static_path p q : static_part p = static_part q -> path p = path q.
Proof. unfold static_part. congruence. Qed.

(** The first step, whatever its outcome: only flags and graph ids are
    written and only callbacks are made; the early return is taken in
    strict mode only, after at most one callback. *)
Lemma checkAll_generic fuel ttc cb : forall todo m nl tr0 early m1 nl1 tr1,
  checkAll fuel ttc cb todo m nl tr0 = Done (early, m1, nl1, tr1) ->
  same_static m m1 /\
  (exists t, tr1 = tr0 ++ t /\ Forall is_callback t) /\
  (forall rc, early = Some rc ->
     ttc = false /\
     (rc = LOAD_DEPENDENCY_NOT_FOUND \/ rc = LOAD_DEPENDENCY_BAD_VERSION) /\
     exists t, tr1 = tr0 ++ t /\
       (t = [] \/
        exists x p, find x m = Some p /\ t = callback cb rc (Some (c_str (path p))))).
Proof.
  induction todo as [|key rest IH]; intros m nl tr0 early m1 nl1 tr1 H; simpl in H.
  - injection H as <- <- <- <-. split; [apply same_static_refl|].
    split; [exists []; rewrite app_nil_r; auto|]. discriminate.
  - destruct (checkDependencies fuel cb key (update key (set_graphId (-1)) m))
      as [[[rc1 ma] ta]| |] eqn:Ec; try discriminate.
    pose proof (checkDependencies_report _ _ _ _ _ _ _ Ec) as Hrep.
    pose proof (checkDependencies_trace _ _ _ _ _ _ _ Ec) as Hcb.
    pose proof (proj1 (proj1 (checkDependencies_checked _ _ _ _ _ _ _ Ec))) as Hev.
    assert (Hs0 : same_static m (update key (set_graphId (-1)) m)).
    { apply same_static_update. reflexivity. }
    assert (Hsa : same_static m ma).
    { eapply same_static_trans; [exact Hs0|]. apply evolves_same_static. exact Hev. }
    destruct (negb ttc && negb (to_bool rc1)) eqn:Estop.
    + injection H as <- <- <- <-. split; [exact Hsa|].
      split; [exists ta; auto|].
      intros rc Hrc. injection Hrc as <-.
      apply andb_prop in Estop. destruct Estop as (Ettc & Erc).
      split; [destruct ttc; [discriminate|reflexivity]|].
      destruct Hrep as [(-> & _)|(Hcode & Hwhat)]; [discriminate|].
      split; [exact Hcode|]. exists ta. split; [reflexivity|].
      destruct Hwhat as [(-> & _)|(x & p & Hp & _ & _ & _ & ->)]; [left; reflexivity|].
      right. destruct (same_static_find _ _ _ _ Hs0 Hp) as (p0 & Hp0 & Hsp).
      exists x, p0. split; [exact Hp0|]. rewrite (static_path _ _ Hsp). reflexivity.
    + destruct (find key ma) as [plugin|] eqn:Ek; [|discriminate].
      assert (Hnext : forall mb nlb,
                same_static ma mb ->
                checkAll fuel ttc cb rest mb nlb (tr0 ++ ta) =
                  Done (early, m1, nl1, tr1) ->
                same_static m m1 /\
                (exists t, tr1 = tr0 ++ t /\ Forall is_callback t) /\
                (forall rc, early = Some rc ->
                   ttc = false /\
                   (rc = LOAD_DEPENDENCY_NOT_FOUND \/
                    rc = LOAD_DEPENDENCY_BAD_VERSION) /\
                   exists t, tr1 = tr0 ++ t /\
                     (t = [] \/
                      exists x p, find x m = Some p /\
                        t = callback cb rc (Some (c_str (path p)))))).
      { intros mb nlb Hsb Hb.
        destruct (IH _ _ _ _ _ _ _ Hb) as (Hs1 & (t & -> & Ht) & Hearly).
        assert (Hsmb : same_static m mb) by (eapply same_static_trans; eassumption).
        split; [eapply same_static_trans; eassumption|].
        split.
        { exists (ta ++ t). split; [symmetry; apply app_assoc|].
          apply Forall_app. auto. }
        intros rc Hrc. destruct (Hearly rc Hrc) as (-> & Hcode & t' & Et & Hwhat).
        split; [reflexivity|]. split; [exact Hcode|].
        simpl in Estop.
        destruct Hrep as [(_ & -> & _)|(Hfail & _)];
          [|destruct Hfail; subst rc1; discriminate].
        exists t'. split; [rewrite Et, app_nil_r; reflexivity|].
        destruct Hwhat as [->|(x & p & Hp & ->)]; [left; reflexivity|].
        right. destruct (same_static_find _ _ _ _ Hsmb Hp) as (p0 & Hp0 & Hsp).
        exists x, p0. split; [exact Hp0|]. rewrite (static_path _ _ Hsp). reflexivity. }
      destruct (is_true (dependenciesExists plugin)).
      * eapply Hnext; [|exact H]. apply same_static_update. reflexivity.
      * apply (Hnext _ _ (same_static_refl _) H).
Qed.

(** X8.  [loadPlugins] returns [SUCCESS], [LOAD_DEPENDENCY_CYCLE],
    [LOAD_DEPENDENCY_NOT_FOUND] or [LOAD_DEPENDENCY_BAD_VERSION], and the
    last two only when [tryToContinue] is false: the one-argument
    overload, which passes [true], never returns them. *)
Theorem loadPlugins_return_codes fuel tryToContinue cb st retCode st' tr :
  loadPlugins fuel tryToContinue cb st = Done (retCode, st', tr) ->
  retCode = SUCCESS \/ retCode = LOAD_DEPENDENCY_CYCLE \/
  ((retCode = LOAD_DEPENDENCY_NOT_FOUND \/ retCode = LOAD_DEPENDENCY_BAD_VERSION) /\
   tryToContinue = false).
Proof.
  unfold loadPlugins. intros H.
  destruct (checkAll fuel tryToContinue cb (keys (pluginsMap st)) (pluginsMap st) [] [])
    as [[[[early m1] nl] tr1]| |] eqn:Ec; try discriminate.
  destruct early as [rc|].
  - injection H as <- <- <-.
    destruct (checkAll_generic _ _ _ _ _ _ _ _ _ _ _ Ec) as (_ & _ & Hearly).
    destruct (Hearly rc eq_refl) as (-> & Hcode & _). auto.
  - destruct (fillParents m1 m1 nl) as [nl'| |]; try discriminate.
    destruct (Graph.topologicalSort nl') as [order error].
    destruct error.
    + injection H as <- <- <-. auto.
    + destruct (loadAll order m1) as [[m' tr']| |]; try discriminate.
      injection H as <- <- <-. auto.
Qed.

(** X9.  When [loadPlugins] returns [LOAD_DEPENDENCY_NOT_FOUND] or
    [LOAD_DEPENDENCY_BAD_VERSION], the load-order list and the locations
    are as before the call, no record has gained or lost its plugin
    object, library, path or metadata, and the only event is at most one
    callback, which receives the returned code and the path of a
    registered record. *)
Theorem loadPlugins_strict_failure fuel tryToContinue cb st retCode st' tr :
  loadPlugins fuel tryToContinue cb st = Done (retCode, st', tr) ->
  retCode = LOAD_DEPENDENCY_NOT_FOUND \/ retCode = LOAD_DEPENDENCY_BAD_VERSION ->
  loadOrderList st' = loadOrderList st /\
  locations st' = locations st /\
  same_static (pluginsMap st) (pluginsMap st') /\
  (tr = [] \/
   exists x p, find x (pluginsMap st) = Some p /\
               tr = callback cb retCode (Some (c_str (path p)))).
Proof.
  unfold loadPlugins. intros H Hcode.
  destruct (checkAll fuel tryToContinue cb (keys (pluginsMap st)) (pluginsMap st) [] [])
    as [[[[early m1] nl] tr1]| |] eqn:Ec; try discriminate.
  destruct early as [rc|].
  - injection H as <- <- <-. simpl.
    destruct (checkAll_generic _ _ _ _ _ _ _ _ _ _ _ Ec) as (Hs & _ & Hearly).
    destruct (Hearly rc eq_refl) as (_ & _ & t & -> & Hwhat).
    split; [reflexivity|]. split; [reflexivity|]. split; [exact Hs|exact Hwhat].
  - exfalso.
    destruct (fillParents m1 m1 nl) as [nl'| |]; try discriminate.
    destruct (Graph.topologicalSort nl') as [order error].
    destruct error.
    + injection H as <- <- <-. destruct Hcode; discriminate.
    + destruct (loadAll order m1) as [[m' tr']| |]; try discriminate.
      injection H as <- <- <-. destruct Hcode; discriminate.
Qed.

Lemma same_static_sym m m' : same_static m m' -> same_static m' m.
Proof. unfold same_static. congruence. Qed.

Lemma same_static_identity m m' : same_static m m' -> same_identity m m'.
Proof.
  unfold same_static, same_identity. intros H.
  apply (f_equal (map (fun e : string * (option IPlugin * bool * SharedLibrary *
                                         string * PluginInfoStd) =>
                         let '(k, (_, _, l, pa, i)) := e in (k, (l, pa, i))))) in H.
  rewrite !map_map in H. exact H.
Qed.

Lemma same_graph_identity m m' : same_graph m m' -> same_identity m m'.
Proof.
  unfold same_graph, same_identity. intros H.
  apply (f_equal (map (fun e : string * (SharedLibrary * string * PluginInfoStd *
                                         TriBool * Z) =>
                         let '(k, (l, pa, i, _, _)) := e in (k, (l, pa, i))))) in H.
  rewrite !map_map in H. exact H.
Qed.

Lemma same_identity_trans m1 m2 m3 :
  same_identity m1 m2 -> same_identity m2 m3 -> same_identity m1 m3.
Proof. unfold same_identity. congruence. Qed.

Lemma same_identity_keys m m' : same_identity m m' -> keys m' = keys m.
Proof.
  unfold same_identity, keys. intros H.
  apply (f_equal (map fst)) in H. rewrite !map_map in H. simpl in H.
  symmetry. exact H.
Qed.

(** The load loop: the events are the creations of the records that had
    no plugin object, each followed by its [loaded()]; these records end
    with a loaded library and the object built for them, and a record
    that had an object is left as it was. *)
Lemma loadAll_events : forall order m m' tr,
  loadAll order m = Done (m', tr) ->
  tr = creation_events (loaded_of tr) /\
  (forall k, In k (loaded_of tr) ->
     In k order /\ hasInstance m k = false /\
     exists p', find k m' = Some p' /\ isLoaded (lib p') = true /\
                iplugin p' = Some (instance_of k)) /\
  (forall k p, find k m = Some p -> iplugin p <> None -> find k m' = Some p).
Proof.
  induction order as [|key rest IH]; simpl; intros m m' tr H.
  - injection H as <- <-. split; [reflexivity|]. split; [intros k []|auto].
  - destruct (find key m) as [plugin|] eqn:Ef; [|discriminate].
    destruct (iplugin plugin) as [i|] eqn:Ei.
    + destruct (IH _ _ _ H) as (Ht & Hnew & Hold).
      split; [exact Ht|]. split; [|exact Hold].
      intros k Hk. destruct (Hnew k Hk) as (Hin & R). split; [right; exact Hin|exact R].
    + destruct (hasSymbol (lib plugin) jp_createPlugin) eqn:Esym; [|discriminate].
      set (created := fun p => set_iplugin (Some (instance_of key)) (set_creator true p))
        in *.
      destruct (loadAll rest (update key created m)) as [[m2 tr2]| |] eqn:E;
        try discriminate.
      injection H as <- <-.
      destruct (IH _ _ _ E) as (Ht & Hnew & Hold).
      assert (Hkey : find key (update key created m) = Some (created plugin)).
      { rewrite find_update_eq, Ef. reflexivity. }
      split; [simpl; rewrite <- Ht; reflexivity|].
      split.
      * simpl. intros k [<-|Hk].
        -- split; [left; reflexivity|].
           split; [unfold hasInstance; rewrite Ef, Ei; reflexivity|].
           exists (created plugin).
           split; [apply (Hold _ _ Hkey); discriminate|].
           split; [|reflexivity].
           unfold hasSymbol in Esym. unfold isLoaded. simpl.
           destruct (image (lib plugin)); [reflexivity|discriminate].
        -- destruct (Hnew k Hk) as (Hin & Hno & R).
           split; [right; exact Hin|]. split; [|exact R].
           destruct (string_dec key k) as [<-|Hne].
           ++ unfold hasInstance in Hno. rewrite Hkey in Hno. discriminate.
           ++ rewrite hasInstance_update_ne in Hno by exact Hne. exact Hno.
      * intros k p Hp Hi. apply Hold; [|exact Hi].
        destruct (string_dec key k) as [<-|Hne].
        -- rewrite Ef in Hp. injection Hp as <-. congruence.
        -- rewrite find_update_ne by exact Hne. exact Hp.
Qed.

Lemma loadPlugins_identity fuel tryToContinue cb st retCode st' tr :
  loadPlugins fuel tryToContinue cb st = Done (retCode, st', tr) ->
  same_identity (pluginsMap st) (pluginsMap st') /\
  pluginsList st' = pluginsList st /\
  locations st' = locations st /\
  (forall k p, find k (pluginsMap st) = Some p -> iplugin p <> None ->
     exists p', find k (pluginsMap st') = Some p' /\ iplugin p' = iplugin p).
Proof.
  unfold loadPlugins. intros H.
  destruct (checkAll fuel tryToContinue cb (keys (pluginsMap st)) (pluginsMap st) [] [])
    as [[[[early m1] nl] tr1]| |] eqn:Ec; try discriminate.
  destruct (checkAll_generic _ _ _ _ _ _ _ _ _ _ _ Ec) as (Hs & _ & _).
  assert (Hkept : forall k p, find k (pluginsMap st) = Some p -> iplugin p <> None ->
                    exists p1, find k m1 = Some p1 /\ iplugin p1 = iplugin p).
  { intros k p Hp _.
    destruct (same_static_find _ _ _ _ (same_static_sym _ _ Hs) Hp) as (p1 & Hp1 & E).
    exists p1. split; [exact Hp1|]. unfold static_part in E. congruence. }
  assert (Hcheck : forall order,
            same_identity (pluginsMap st) m1 /\
            pluginsList (mkPlugMgrPrivate m1 order (locations st)) = pluginsList st /\
            locations (mkPlugMgrPrivate m1 order (locations st)) = locations st /\
            (forall k p, find k (pluginsMap st) = Some p -> iplugin p <> None ->
               exists p', find k m1 = Some p' /\ iplugin p' = iplugin p)).
  { intros order. split; [apply same_static_identity; exact Hs|].
    split; [exact (same_static_keys _ _ Hs)|]. split; [reflexivity|exact Hkept]. }
  destruct early as [rc|].
  - injection H as <- <- <-. apply Hcheck.
  - destruct (fillParents m1 m1 nl) as [nl'| |]; try discriminate.
    destruct (Graph.topologicalSort nl') as [order error].
    destruct error.
    + injection H as <- <- <-. apply Hcheck.
    + destruct (loadAll order m1) as [[m' tr']| |] eqn:El; try discriminate.
      injection H as <- <- <-.
      destruct (loadAll_spec _ _ _ _ El) as (Hg & _).
      destruct (loadAll_events _ _ _ _ El) as (_ & _ & Hold).
      assert (Hid : same_identity (pluginsMap st) m').
      { eapply same_identity_trans; [apply same_static_identity; exact Hs|].
        apply same_graph_identity. exact Hg. }
      split; [exact Hid|]. split; [exact (same_identity_keys _ _ Hid)|].
      split; [reflexivity|].
      intros k p Hp Hi. destruct (Hkept k p Hp Hi) as (p1 & Hp1 & E1).
      exists p1. split; [|exact E1]. apply Hold; [exact Hp1|congruence].
Qed.

Lemma same_identity_find m : forall m' k,
  same_identity m m' ->
  (find k m = None /\ find k m' = None) \/
  exists p p', find k m = Some p /\ find k m' = Some p' /\ info p' = info p.
Proof.
  unfold same_identity.
  induction m as [|[k1 p1] r IH]; intros [|[k2 p2] r'] k H; simpl in *;
    try discriminate; [left; auto|].
  inversion H; subst. destruct (String.eqb k2 k).
  - right. exists p1, p2. auto.
  - apply IH. assumption.
Qed.

(** X10.  Whatever [loadPlugins] returns, the registry keeps its names in
    their order, and every record its library, path and metadata, so
    that [hasPlugin] and [pluginInfo] answer as before the call; the
    locations are not touched; a record that had a plugin object keeps
    that object: [loadPlugins] never replaces or removes one. *)
Theorem loadPlugins_keeps_registry fuel tryToContinue cb st retCode st' tr :
  loadPlugins fuel tryToContinue cb st = Done (retCode, st', tr) ->
  same_identity (pluginsMap st) (pluginsMap st') /\
  pluginsList st' = pluginsList st /\
  locations st' = locations st /\
  (forall k p, find k (pluginsMap st) = Some p -> iplugin p <> None ->
     exists p', find k (pluginsMap st') = Some p' /\ iplugin p' = iplugin p) /\
  (forall n, hasPlugin st' n = hasPlugin st n /\ pluginInfo st' n = pluginInfo st n).
Proof.
  intros H. destruct (loadPlugins_identity _ _ _ _ _ _ _ H) as (Hid & Hl & Hloc & Hk).
  split; [exact Hid|]. split; [exact Hl|]. split; [exact Hloc|]. split; [exact Hk|].
  intros n. destruct (same_identity_find _ _ n Hid) as [(Ha & Hb)|(p & p' & Ha & Hb & Hi)];
    unfold pluginInfo, hasPlugin, count; rewrite Ha, Hb; [auto|].
  split; [reflexivity|]. simpl. rewrite Hi. reflexivity.
Qed.

(** X11.  The events of a call of [loadPlugins] that returns [SUCCESS]
    are callbacks followed by the creations: for each newly loaded plugin
    the factory call and right after it [loaded()].  A plugin is created
    only for a record that had no plugin object, which is afterwards
    reported by [isPluginLoaded]; and every name of the load-order list
    has a plugin object when the call returns. *)
Theorem loadPlugins_success_events fuel tryToContinue cb st st' tr :
  loadPlugins fuel tryToContinue cb st = Done (SUCCESS, st', tr) ->
  (exists reports,
     tr = reports ++ creation_events (loaded_of tr) /\ Forall is_callback reports) /\
  (forall k, In k (loaded_of tr) ->
     In k (loadOrderList st') /\ hasInstance (pluginsMap st) k = false /\
     isPluginLoaded st' k = true) /\
  (forall k, In k (loadOrderList st') -> hasInstance (pluginsMap st') k = true).
Proof.
  intros H.
  destruct (loadPlugins_success _ _ _ _ _ _ H)
    as (m1 & nl & tr1 & nl' & order & m' & tr4 & Ec & _ & _ & El & -> & ->).
  destruct (checkAll_generic _ _ _ _ _ _ _ _ _ _ _ Ec) as (Hs & (t & Et & Ht) & _).
  simpl in Et. subst tr1.
  destruct (callbacks_not_loaded _ Ht) as (Hl0 & _).
  destruct (loadAll_events _ _ _ _ El) as (Hev & Hnew & _).
  destruct (loadAll_spec _ _ _ _ El) as (_ & _ & Hall & _).
  rewrite loaded_of_app, Hl0. simpl.
  split; [exists t; split; [rewrite <- Hev; reflexivity|exact Ht]|].
  split; [|exact Hall].
  intros k Hk. destruct (Hnew k Hk) as (Hin & Hno & p' & Hp' & Hlib & Hi).
  split; [exact Hin|].
  split; [rewrite <- (same_static_hasInstance _ _ k Hs); exact Hno|].
  unfold isPluginLoaded, hasPlugin, count. simpl. rewrite Hp', Hlib, Hi. reflexivity.
Qed.

(** ** [unloadPlugins]: every library is asked to unload *)

(** The unload request [unloadPlugin] makes for a loaded library. *)
Lemma unloadPlugin_request plugin unloaded plugin' ev :
  unloadPlugin plugin = (unloaded, plugin', ev) ->
  isLoaded (lib plugin) = true ->
  exists b, In (LibUnload (lib_path (lib plugin)) b) ev /\ (unloaded = true -> b = true).
Proof.
  unfold unloadPlugin, unload, isLoaded.
  destruct (image (lib plugin)) as [f|]; [|discriminate].
  intros H _. destruct (refusals (lib plugin)); injection H as <- <- <-.
  - exists true. split; [apply in_or_app; right; left; reflexivity|auto].
  - exists false. split; [apply in_or_app; right; left; reflexivity|].
    simpl. discriminate.
Qed.

Lemma unloadOrdered_requests : forall names m all m' all' tr,
  unloadOrdered names m all = Done (m', all', tr) ->
  forall k p, In k names -> find k m = Some p -> isLoaded (lib p) = true ->
    exists b, In (LibUnload (lib_path (lib p)) b) tr /\ (all' = true -> b = true).
Proof.
  induction names as [|key rest IH]; intros m all m' all' tr H k p Hin Hp Hl;
    [contradiction|].
  pose proof (unloadOrdered_spec _ _ _ _ _ _ H) as (Hnd & _).
  simpl in H. destruct (find key m) as [plugin|] eqn:Ek; [|discriminate].
  destruct (unloadPlugin plugin) as [[unloaded plugin'] ev] eqn:Eu.
  destruct (unloadOrdered rest (erase key m) (all && unloaded))
    as [[[m2 all2] tr2]| |] eqn:Er; try discriminate.
  injection H as <- <- <-.
  destruct (unloadOrdered_spec _ _ _ _ _ _ Er) as (_ & _ & _ & _ & Hall & _).
  inversion Hnd as [|? ? Hnotin Hnd']; subst.
  destruct (string_dec key k) as [<-|Hne].
  - rewrite Ek in Hp. injection Hp as <-.
    destruct (unloadPlugin_request _ _ _ _ Eu Hl) as (b & Hb & Hbt).
    exists b. split; [apply in_or_app; left; exact Hb|].
    intros Ht. apply Hbt. destruct (Hall Ht) as (Ha & _).
    apply andb_prop in Ha. apply Ha.
  - destruct Hin as [Heq|Hin]; [contradiction|].
    rewrite <- (find_erase_ne key k m Hne) in Hp.
    destruct (IH _ _ _ _ _ Er k p Hin Hp Hl) as (b & Hb & Hbt).
    exists b. split; [|exact Hbt].
    apply in_or_app. right. apply in_or_app. right. exact Hb.
Qed.

Lemma unloadRemaining_requests : forall m all all' tr,
  unloadRemaining m all = (all', tr) ->
  forall k p, In (k, p) m -> isLoaded (lib p) = true ->
    exists b, In (LibUnload (lib_path (lib p)) b) tr /\ (all' = true -> b = true).
Proof.
  induction m as [|[k0 plugin] rest IH]; intros all all' tr H k p Hin Hl;
    [contradiction|].
  simpl in H.
  destruct (unloadPlugin plugin) as [[unloaded plugin'] ev] eqn:Eu.
  destruct (unloadRemaining rest (all && unloaded)) as [all2 tr2] eqn:Er.
  injection H as <- <-.
  destruct (unloadRemaining_spec _ _ _ _ Er) as (_ & Hall & _).
  destruct Hin as [E|Hin].
  - injection E as <- <-.
    destruct (unloadPlugin_request _ _ _ _ Eu Hl) as (b & Hb & Hbt).
    exists b. split; [apply in_or_app; left; exact Hb|].
    intros Ht. apply Hbt. destruct (Hall Ht) as (Ha & _).
    apply andb_prop in Ha. apply Ha.
  - destruct (IH _ _ _ Er k p Hin Hl) as (b & Hb & Hbt).
    exists b. split; [|exact Hbt].
    apply in_or_app. right. apply in_or_app. right. exact Hb.
Qed.

Lemma in_remaining names (m : PluginsMap) k p :
  In (k, p) m -> ~ In k names -> In (k, p) (remaining names m).
Proof.
  intros Hin Hnot. unfold remaining. apply filter_In. split; [exact Hin|].
  simpl. destruct (existsb (String.eqb k) names) eqn:E; [|reflexivity].
  apply existsb_exists in E. destruct E as (y & Hy & Ey).
  apply String.eqb_eq in Ey. subst. contradiction.
Qed.

(** X12.  [unloadPlugins] forgets no library: when it returns, the
    library of every registered record that was loaded has received an
    unload request, and when the code is [SUCCESS] that request was
    honoured. *)
Theorem unloadPlugins_requests_every_library cb st retCode st' tr k p :
  unloadPlugins cb st = Done (retCode, st', tr) ->
  find k (pluginsMap st) = Some p -> isLoaded (lib p) = true ->
  exists released,
    In (LibUnload (lib_path (lib p)) released) tr /\
    (retCode = SUCCESS -> released = true).
Proof.
  unfold unloadPlugins. intros H Hp Hl.
  destruct (unloadOrdered (rev (loadOrderList st)) (pluginsMap st) true)
    as [[[m1 all1] tr1]| |] eqn:Eo; try discriminate.
  destruct (unloadRemaining m1 all1) as [all2 tr2] eqn:Er.
  destruct (unloadOrdered_spec _ _ _ _ _ _ Eo) as (_ & _ & Hm1 & _).
  destruct (unloadRemaining_spec _ _ _ _ Er) as (_ & Hall2 & _).
  assert (Hreq : exists b, In (LibUnload (lib_path (lib p)) b) (tr1 ++ tr2) /\
                           (all2 = true -> b = true)).
  { destruct (in_dec string_dec k (rev (loadOrderList st))) as [Hin|Hnot].
    - destruct (unloadOrdered_requests _ _ _ _ _ _ Eo k p Hin Hp Hl) as (b & Hb & Hbt).
      exists b. split; [apply in_or_app; left; exact Hb|].
      intros Ht. apply Hbt. apply (Hall2 Ht).
    - assert (Hrem : In (k, p) m1).
      { rewrite Hm1. apply in_remaining; [apply find_in; exact Hp|exact Hnot]. }
      destruct (unloadRemaining_requests _ _ _ _ Er k p Hrem Hl) as (b & Hb & Hbt).
      exists b. split; [apply in_or_app; right; exact Hb|exact Hbt]. }
  destruct Hreq as (b & Hb & Hbt).
  destruct all2; injection H as <- <- <-.
  - exists b. split; [exact Hb|auto].
  - exists b. split; [|discriminate].
    rewrite app_assoc. apply in_or_app. left. exact Hb.
Qed.

(** ** The destructor of the manager *)

Lemma unloadPlugins_empties cb st retCode st' tr :
  unloadPlugins cb st = Done (retCode, st', tr) ->
  pluginsMap st' = [] /\ locations st' = [] /\ loadOrderList st' = loadOrderList st.
Proof.
  unfold unloadPlugins.
  destruct (unloadOrdered (rev (loadOrderList st)) (pluginsMap st) true)
    as [[[m1 all1] tr1]| |]; try discriminate.
  destruct (unloadRemaining m1 all1) as [all2 tr2].
  destruct all2; intros H; injection H as <- <- <-; auto.
Qed.

Lemma unloadPlugins_returns cb st :
  NoDup (loadOrderList st) ->
  (forall k, In k (loadOrderList st) -> find k (pluginsMap st) <> None) ->
  exists retCode st' tr, unloadPlugins cb st = Done (retCode, st', tr).
Proof.
  intros Hnd Hall. unfold unloadPlugins.
  destruct (unloadOrdered_done (rev (loadOrderList st)) (pluginsMap st) true)
    as (m1 & all1 & tr1 & E).
  - apply NoDup_rev. exact Hnd.
  - intros k Hk. apply Hall. apply in_rev. exact Hk.
  - rewrite E. destruct (unloadRemaining m1 all1) as [all2 tr2].
    destruct all2; eauto.
Qed.

(** X13.  The destructor of the manager does nothing when the registry is
    empty, so it is safe after a completed [unloadPlugins] although the
    load-order list still holds its names.  With a registry that is not
    empty it dereferences a null record pointer as soon as the load-order
    list holds a name that is not registered, as after [unloadPlugins]
    followed by a search that does not find that plugin again; it returns
    when the names of the list are distinct and registered. *)
Theorem destroyManager_uses_stale_load_order st :
  (forall cb retCode st' tr,
     unloadPlugins cb st = Done (retCode, st', tr) -> destroyManager st' = Done []) /\
  (pluginsMap st <> [] ->
   (exists k, In k (loadOrderList st) /\ find k (pluginsMap st) = None) ->
   destroyManager st = Fault NullDeref) /\
  (NoDup (loadOrderList st) ->
   (forall k, In k (loadOrderList st) -> find k (pluginsMap st) <> None) ->
   exists tr, destroyManager st = Done tr).
Proof.
  split; [|split].
  - intros cb retCode st' tr H.
    destruct (unloadPlugins_empties _ _ _ _ _ H) as (Hm & _).
    unfold destroyManager. rewrite Hm. reflexivity.
  - intros Hne Hstale. unfold destroyManager.
    destruct (pluginsMap st) as [|e r] eqn:Em; [contradiction|].
    unfold unloadPlugins. rewrite Em.
    rewrite unloadOrdered_fault; [reflexivity|].
    destruct Hstale as (k & Hin & Hf). exists k. split; [|exact Hf].
    apply in_rev in Hin. exact Hin.
  - intros Hnd Hall. unfold destroyManager.
    destruct (unloadPlugins_returns false st Hnd Hall) as (rc & st' & tr & E).
    destruct (pluginsMap st) as [|e r]; [exists []; reflexivity|].
    rewrite E. exists tr. reflexivity.
Qed.

(** ** The getters and the snapshot *)

(** X14.  The getters agree with each other: [pluginsCount] is the
    length of [pluginsList]; [hasPlugin] holds exactly for the names of
    [pluginsList]; [hasPlugin] with a version and [isPluginLoaded] hold
    only for registered names; [pluginInfo] returns the empty structure
    for a name that is not registered and the snapshot of the stored
    metadata otherwise, with [dependenciesNb] the number of entries of
    the dependency array. *)
Theorem getters_agree st n :
  pluginsCount st = length (pluginsList st) /\
  (hasPlugin st n = true <-> In n (pluginsList st)) /\
  (forall minVersion,
     hasPluginVersion st n minVersion = true <->
     exists p, find n (pluginsMap st) = Some p /\
               compatible (version (info p)) minVersion = true) /\
  (isPluginLoaded st n = true -> hasPlugin st n = true) /\
  (hasPlugin st n = false -> pluginInfo st n = nullInfo) /\
  (forall p, find n (pluginsMap st) = Some p ->
     pluginInfo st n = toPluginInfo (info p)) /\
  dependenciesNb (pluginInfo st n) = length (c_dependencies (pluginInfo st n)).
Proof.
  unfold pluginsCount, pluginsList, hasPluginVersion, isPluginLoaded,
    pluginInfo, hasPlugin, count, keys.
  split; [symmetry; apply length_map|].
  split.
  { split.
    - destruct (find n (pluginsMap st)) eqn:E; [|discriminate].
      intros _. exact (find_some_in _ _ _ E).
    - intros Hin. destruct (in_keys_find _ _ Hin) as (p & ->). reflexivity. }
  split.
  { intros v. destruct (find n (pluginsMap st)) as [p|]; simpl.
    - split; [intros H; exists p; auto|].
      intros (q & E & Hq). injection E as <-. exact Hq.
    - split; [discriminate|]. intros (q & E & _). discriminate. }
  split; [intros H; apply andb_prop in H; apply H|].
  split; [intros ->; reflexivity|].
  split; [intros p ->; reflexivity|].
  destruct (find n (pluginsMap st)) as [p|]; simpl; [|reflexivity].
  symmetry. apply length_map.
Qed.







(** X16.  The messages of [ReturnCode::message] tell the codes apart: two
    codes have the same message only when they are the same code, and no
    message is empty. *)
Theorem message_identifies_code a b :
  (message a = message b <-> a = b) /\ message a <> "".
Proof.
  split; [split|].
  - destruct a, b; intros H; try reflexivity; discriminate H.
  - intros ->. reflexivity.
  - destruct a; discriminate.
Qed.

(** ** Descriptors, and unloading what a search found *)

Section DiscoveryUse.

Variable JP_PLUGIN_API : string.
Variable json_parse : string -> option json.

Lemma Forall2_mapM {A B : Type} (f : A -> option B) : forall l l',
  Forall2 (fun a b => f a = Some b) l l' -> mapM f l = Some l'.
Proof.
  induction 1 as [|a b l l' Hab _ IH]; simpl; [reflexivity|].
  rewrite Hab, IH. reflexivity.
Qed.

Lemma parseTree_complete tree api i :
  get_string_at "api" tree = Some api ->
  compatible api JP_PLUGIN_API = true ->
  declares tree i ->
  parseTree JP_PLUGIN_API tree = Some i.
Proof.
  intros Hapi Hc (H1 & H2 & H3 & H4 & H5 & H6 & H7 & jsonDep & Hd & Hdeps).
  unfold parseTree. rewrite Hapi. simpl. rewrite Hc, H1. simpl. rewrite H2. simpl.
  rewrite H3. simpl. rewrite H4. simpl. rewrite H5. simpl. rewrite H6. simpl.
  rewrite H7. simpl. rewrite Hd. simpl.
  rewrite (Forall2_mapM parseDependency (elements jsonDep) (dependencies i)).
  - simpl. destruct i; reflexivity.
  - eapply Forall2_impl; [|exact Hdeps].
    intros jdep dep (Hn & Hv). unfold parseDependency. rewrite Hn. simpl.
    rewrite Hv. simpl. destruct dep; reflexivity.
Qed.

(** X17.  [parseMetadata] returns metadata with a name exactly for a
    descriptor that parses to a JSON object whose [api] is a string
    compatible with the API of the manager and which declares the seven
    string fields and, under [dependencies], entries that each declare a
    name and a version as strings: the result is then made of exactly
    these fields.  For a descriptor that parses to no such object the
    result is the empty metadata, which [searchForPlugins] rejects. *)
Theorem parseMetadata_accepts_exactly metadata :
  (forall i, name i <> "" ->
     (parseMetadata JP_PLUGIN_API json_parse metadata = i <->
      exists tree api,
        json_parse metadata = Some tree /\
        get_string_at "api" tree = Some api /\
        compatible api JP_PLUGIN_API = true /\
        declares tree i)) /\
  ((forall tree api i,
      json_parse metadata = Some tree ->
      get_string_at "api" tree = Some api ->
      compatible api JP_PLUGIN_API = true -> ~ declares tree i) ->
   parseMetadata JP_PLUGIN_API json_parse metadata = emptyInfo).
Proof.
  split.
  - intros i Hname. split.
    + intros H. unfold parseMetadata in H.
      destruct (json_parse metadata) as [tree|]; simpl in H;
        [|subst i; contradiction Hname; reflexivity].
      destruct (parseTree JP_PLUGIN_API tree) as [j|] eqn:E;
        [|subst i; contradiction Hname; reflexivity].
      subst j. destruct (parseTree_spec _ _ _ E) as (Hd & api & Hapi & Hc).
      exists tree, api. auto.
    + intros (tree & api & Hp & Hapi & Hc & Hd). unfold parseMetadata.
      rewrite Hp. simpl. rewrite (parseTree_complete _ _ _ Hapi Hc Hd). reflexivity.
  - intros Hnone. unfold parseMetadata.
    destruct (json_parse metadata) as [tree|] eqn:Hp; simpl; [|reflexivity].
    destruct (parseTree JP_PLUGIN_API tree) as [j|] eqn:E; [|reflexivity].
    destruct (parseTree_spec _ _ _ E) as (Hd & api & Hapi & Hc).
    exfalso. exact (Hnone tree api j eq_refl Hapi Hc Hd).
Qed.



End DiscoveryUse.

(** ** The dependency check returns when the declarations form no cycle *)

Lemma acyclic_evolves rank m m' :
  evolves m m' -> acyclic_by rank m -> acyclic_by rank m'.
Proof.
  intros Hev Hac k p' d Hp' Hd Hfound.
  destruct (evolves_find_inv _ _ _ _ Hev Hp') as (p & Hp & Hsame & _).
  apply (Hac k p d Hp).
  - rewrite <- (same_but_flag_info _ _ Hsame). exact Hd.
  - intros Hnone. apply Hfound. exact (evolves_find_none _ _ _ Hev Hnone).
Qed.

Lemma checkLoop_returns rank n key pp cb :
  (forall k m, acyclic_by rank m -> rank k < n -> find k m <> None ->
               exists r, checkDependencies n cb k m = Done r) ->
  forall deps m0 tr0,
    acyclic_by rank m0 ->
    (forall d, In d deps -> find (dep_name d) m0 <> None -> rank (dep_name d) < n) ->
    exists r, checkLoop (checkDependencies n cb) key pp cb deps m0 tr0 = Done r.
Proof.
  intros Hrec. induction deps as [|d rest IH]; intros m0 tr0 Hac Hdeps; simpl.
  - eauto.
  - destruct (find (dep_name d) m0) as [dp|] eqn:Ed; [|eauto].
    destruct (negb (compatible (version (info dp)) (dep_version d))); [eauto|].
    destruct (Hrec (dep_name d) m0 Hac) as ([[rc1 m1] tr1] & E1).
    + apply Hdeps; [left; reflexivity|congruence].
    + congruence.
    + rewrite E1. destruct (to_bool rc1); [|eauto].
      pose proof (proj1 (proj1 (checkDependencies_checked _ _ _ _ _ _ _ E1))) as Hev.
      apply IH.
      * exact (acyclic_evolves _ _ _ Hev Hac).
      * intros d' Hin Hfound. apply Hdeps; [right; exact Hin|].
        intros Hnone. apply Hfound. exact (evolves_find_none _ _ _ Hev Hnone).
Qed.

Lemma checkDependencies_returns rank cb : forall n k m,
  acyclic_by rank m -> rank k < n -> find k m <> None ->
  exists r, checkDependencies n cb k m = Done r.
Proof.
  induction n as [|n IH]; intros k0 m0 Hac Hlt Hfound; [lia|]. simpl.
  destruct (find k0 m0) as [p|] eqn:Ep; [|contradiction].
  destruct (dependenciesExists p); [eauto|eauto|].
  apply (checkLoop_returns rank n k0 (path p) cb IH); [exact Hac|].
  intros d Hd Hdf. pose proof (Hac k0 p d Ep Hd Hdf). lia.
Qed.

(** X19.  When the dependency declarations of the registry form no cycle
    (every declared dependency that is registered has a smaller rank),
    [checkDependencies] returns for every registered record, and its
    recursion is no deeper than the rank of the record. *)
Theorem checkDependencies_returns_when_acyclic rank cb m k fuel :
  acyclic_by rank m -> find k m <> None -> rank k < fuel ->
  exists retCode m' tr, checkDependencies fuel cb k m = Done (retCode, m', tr).
Proof.
  intros Hac Hfound Hlt.
  destruct (checkDependencies_returns rank cb fuel k m Hac Hlt Hfound)
    as ([[rc m'] tr] & E).
  eauto.
Qed.

(** ** The records flagged true form no cycle *)

Lemma ok_dep_update_flag m key v d :
  ok_dep (update key (set_dependenciesExists v) m) d <-> ok_dep m d.
Proof.
  unfold ok_dep. destruct (string_dec key (dep_name d)) as [E|E].
  - rewrite E. split; intros (q & Hq & Hc).
    + rewrite find_update_eq in Hq.
      destruct (find (dep_name d) m) as [q0|]; simpl in Hq; [|discriminate].
      injection Hq as <-. exists q0. split; [reflexivity|exact Hc].
    + exists (set_dependenciesExists v q).
      split; [|exact Hc]. rewrite find_update_eq, Hq. reflexivity.
  - rewrite find_update_ne by exact E. reflexivity.
Qed.

Lemma find_update_flag m key v k p :
  find k (update key (set_dependenciesExists v) m) = Some p ->
  exists p0, find k m = Some p0 /\ info p = info p0 /\
             (k <> key -> p = p0) /\ (k = key -> dependenciesExists p = v).
Proof.
  destruct (string_dec key k) as [<-|Hne].
  - rewrite find_update_eq. destruct (find key m) as [p0|]; simpl; [|discriminate].
    intros H. injection H as <-. exists p0. repeat split; auto. congruence.
  - rewrite find_update_ne by exact Hne. intros H. exists p.
    repeat split; auto. congruence.
Qed.

Lemma ranked_by_update_false rank m key :
  ranked_by rank m -> flag m key <> Some TriTrue ->
  ranked_by rank (update key (set_dependenciesExists TriFalse) m).
Proof.
  intros Hr Hkey k p Hp Hyes.
  destruct (find_update_flag _ _ _ _ _ Hp) as (p0 & Hp0 & Hinfo & Hother & Hsame).
  destruct (string_dec k key) as [->|Hne].
  - rewrite (Hsame eq_refl) in Hyes. discriminate.
  - rewrite (Hother Hne) in *. specialize (Hr k p0 Hp0 Hyes).
    eapply Forall_impl; [|exact Hr]. intros d (Hok & Hf & Hlt).
    split; [apply ok_dep_update_flag; exact Hok|]. split; [|exact Hlt].
    rewrite flag_update_ne; [exact Hf|]. intros E. apply Hkey. rewrite E. exact Hf.
Qed.

Lemma TriBool_eq_dec (a b : TriBool) : {a = b} + {a <> b}.
Proof. decide equality. Qed.

(** The largest rank among the names of [deps]. *)
Lemma rank_bound (rank : string -> nat) (deps : list Dependency) :
  exists b, forall d, In d deps -> rank (dep_name d) < b.
Proof.
  induction deps as [|d rest (b & Hb)].
  - exists 0. intros d [].
  - exists (S (Nat.max (rank (dep_name d)) b)). intros d' [<-|Hin]; [lia|].
    specialize (Hb d' Hin). lia.
Qed.

Lemma ranked_update_true m key p :
  ranked m -> find key m = Some p ->
  Forall (fun d => ok_dep m d /\ flag m (dep_name d) = Some TriTrue)
         (dependencies (info p)) ->
  ranked (update key (set_dependenciesExists TriTrue) m).
Proof.
  intros (rank & Hr) Hp Hdeps.
  destruct (TriBool_eq_dec (dependenciesExists p) TriTrue) as [Ef|Ef].
  - (* the flag is true already *)
    exists rank. rewrite (update_same key _ m p Hp); [exact Hr|].
    destruct p; simpl in *. subst. reflexivity.
  - assert (Hkey : flag m key <> Some TriTrue).
    { unfold flag. rewrite Hp. simpl. congruence. }
    destruct (rank_bound rank (dependencies (info p))) as (b & Hb).
    exists (fun x => if String.eqb x key then b else rank x).
    intros k q Hq Hyes.
    destruct (find_update_flag _ _ _ _ _ Hq) as (q0 & Hq0 & Hinfo & Hother & _).
    assert (Hdep : forall d, flag m (dep_name d) = Some TriTrue ->
                     dep_name d <> key /\
                     flag (update key (set_dependenciesExists TriTrue) m) (dep_name d) =
                       Some TriTrue).
    { intros d Hd. assert (Hne : dep_name d <> key) by (intros E; congruence).
      split; [exact Hne|]. rewrite flag_update_ne; [exact Hd|congruence]. }
    destruct (string_dec k key) as [->|Hne].
    + rewrite Hp in Hq0. injection Hq0 as <-. rewrite Hinfo.
      rewrite String.eqb_refl. rewrite Forall_forall in *. intros d Hd.
      destruct (Hdeps d Hd) as (Hok & Hf). destruct (Hdep d Hf) as (Hdne & Hf').
      split; [apply ok_dep_update_flag; exact Hok|]. split; [exact Hf'|].
      apply String.eqb_neq in Hdne. rewrite Hdne. apply Hb. exact Hd.
    + rewrite (Hother Hne) in *. specialize (Hr k q0 Hq0 Hyes).
      apply String.eqb_neq in Hne. rewrite Hne.
      eapply Forall_impl; [|exact Hr]. intros d (Hok & Hf & Hlt).
      destruct (Hdep d Hf) as (Hdne & Hf').
      split; [apply ok_dep_update_flag; exact Hok|]. split; [exact Hf'|].
      apply String.eqb_neq in Hdne. rewrite Hdne. exact Hlt.
Qed.

Lemma ranked_update_false m key :
  ranked m -> flag m key <> Some TriTrue ->
  ranked (update key (set_dependenciesExists TriFalse) m).
Proof.
  intros (rank & Hr) Hkey. exists rank. apply ranked_by_update_false; assumption.
Qed.

Lemma checkLoop_ranked rec key pp cb plugin m_entry :
  (forall k m rc m' tr, rec k m = Done (rc, m', tr) ->
                        checked k m rc m' /\ (ranked m -> ranked m')) ->
  find key m_entry = Some plugin ->
  dependenciesExists plugin = Indeterminate ->
  forall deps pre m0 tr0 rc m' tr,
    dependencies (info plugin) = pre ++ deps ->
    step m_entry m0 ->
    Forall (fun e => ok_dep m0 e /\ flag m0 (dep_name e) = Some TriTrue) pre ->
    ranked m0 ->
    checkLoop rec key pp cb deps m0 tr0 = Done (rc, m', tr) ->
    ranked m'.
Proof.
  intros Hrec Hentry Hind.
  assert (Hflag_entry : flag m_entry key = Some Indeterminate).
  { unfold flag. rewrite Hentry. simpl. congruence. }
  induction deps as [|d rest IH]; intros pre m0 tr0 rc m' tr Hdeps Hstep Hpre Hrk H;
    simpl in H.
  - injection H as <- <- <-. rewrite app_nil_r in Hdeps.
    destruct Hstep as (E0 & _).
    destruct (evolves_find _ _ _ _ E0 Hentry) as (p0 & Hp0 & Hs0 & _).
    apply (ranked_update_true m0 key p0 Hrk Hp0).
    rewrite (same_but_flag_info _ _ Hs0), Hdeps. exact Hpre.
  - assert (Hbad : ~ ok_dep m0 d ->
                   ranked (update key (set_dependenciesExists TriFalse) m0)).
    { intros Hnok. apply ranked_update_false; [exact Hrk|].
      intros Hyes. destruct Hstep as (E0 & _ & _ & G0).
      destruct (G0 key Hflag_entry Hyes) as (p & Hp & Hall).
      rewrite Hentry in Hp. injection Hp as <-.
      rewrite Forall_forall in Hall. destruct (Hall d) as (Hok & _).
      { rewrite Hdeps. apply in_or_app. right. left. reflexivity. }
      apply Hnok. apply (proj1 (ok_dep_evolves _ _ _ E0)). exact Hok. }
    destruct (find (dep_name d) m0) as [dp|] eqn:Edp.
    + destruct (compatible (version (info dp)) (dep_version d)) eqn:Ec; simpl in H.
      * destruct (rec (dep_name d) m0) as [[[rc1 m1] tr1]| |] eqn:Er; try discriminate.
        destruct (Hrec _ _ _ _ _ Er) as ((Hstep1 & Hyes1 & _) & Hrk1).
        destruct (to_bool rc1) eqn:Eb.
        -- apply (IH (pre ++ [d]) m1 (tr0 ++ tr1) rc m' tr).
           ++ rewrite <- app_assoc. exact Hdeps.
           ++ eapply step_trans; eassumption.
           ++ destruct Hstep1 as (E1 & _). apply Forall_app. split.
              ** eapply Forall_impl; [|exact Hpre]. intros e (Hok & Hf).
                 split; [apply (proj1 (ok_dep_evolves _ _ _ E1)); exact Hok|].
                 apply (evolves_flag _ _ _ _ E1 Hf). discriminate.
              ** constructor; [|constructor].
                 split; [|exact (Hyes1 eq_refl)].
                 apply (proj1 (ok_dep_evolves _ _ _ E1)). exists dp. auto.
           ++ exact (Hrk1 Hrk).
           ++ exact H.
        -- injection H as <- <- <-. exact (Hrk1 Hrk).
      * injection H as <- <- <-. apply Hbad.
        intros (q & Hq & Hc). rewrite Edp in Hq. injection Hq as <-. congruence.
    + injection H as <- <- <-. apply Hbad.
      intros (q & Hq & _). rewrite Edp in Hq. discriminate.
Qed.

Lemma checkDependencies_ranked cb fuel : forall k m rc m' tr,
  checkDependencies fuel cb k m = Done (rc, m', tr) -> ranked m -> ranked m'.
Proof.
  induction fuel as [|f IH]; intros k m rc m' tr H Hrk; simpl in H; [discriminate|].
  destruct (find k m) as [p|] eqn:Ep; [|discriminate].
  destruct (dependenciesExists p) eqn:Ef.
  - injection H as <- <- <-. exact Hrk.
  - injection H as <- <- <-. exact Hrk.
  - assert (Hrec : forall k' m1 rc1 m1' tr1,
              checkDependencies f cb k' m1 = Done (rc1, m1', tr1) ->
              checked k' m1 rc1 m1' /\ (ranked m1 -> ranked m1')).
    { intros k' m1 rc1 m1' tr1 H1.
      split; [exact (checkDependencies_checked _ _ _ _ _ _ _ H1)|exact (IH _ _ _ _ _ H1)]. }
    exact (checkLoop_ranked (checkDependencies f cb) k (path p) cb p m Hrec Ep Ef
             (dependencies (info p)) [] m [] rc m' tr eq_refl (step_refl m)
             (Forall_nil _) Hrk H).
Qed.

Lemma ranked_same_view m m' : same_view m m' -> ranked m -> ranked m'.
Proof.
  intros Hv (rank & Hr). exists rank. intros k p' Hp' Hyes.
  pose proof (Hv k) as Hk. rewrite Hp' in Hk.
  destruct (find k m) as [p|] eqn:Ep; simpl in Hk; [|discriminate].
  injection Hk as Hf Hi. rewrite <- Hi.
  assert (Hyes0 : dependenciesExists p = TriTrue) by congruence.
  specialize (Hr k p Ep Hyes0).
  eapply Forall_impl; [|exact Hr]. intros d (Hok & Hfd & Hlt).
  split; [exact (same_view_ok_dep _ _ _ Hv Hok)|]. split; [|exact Hlt].
  rewrite (same_view_flag _ _ _ Hv). exact Hfd.
Qed.

Lemma checkAll_ranked fuel ttc cb : forall todo m nl tr0 early m1 nl1 tr1,
  checkAll fuel ttc cb todo m nl tr0 = Done (early, m1, nl1, tr1) ->
  ranked m -> ranked m1.
Proof.
  induction todo as [|key rest IH]; intros m nl tr0 early m1 nl1 tr1 H Hrk; simpl in H.
  - injection H as <- <- <- <-. exact Hrk.
  - destruct (checkDependencies fuel cb key (update key (set_graphId (-1)) m))
      as [[[rc1 ma] ta]| |] eqn:Ec; try discriminate.
    assert (Hra : ranked ma).
    { apply (checkDependencies_ranked _ _ _ _ _ _ _ Ec).
      apply (ranked_same_view m); [|exact Hrk].
      apply same_view_update. reflexivity. }
    destruct (negb ttc && negb (to_bool rc1)).
    + injection H as <- <- <- <-. exact Hra.
    + destruct (find key ma) as [plugin|]; [|discriminate].
      destruct (is_true (dependenciesExists plugin)).
      * apply (IH _ _ _ _ _ _ _ H).
        apply (ranked_same_view ma); [|exact Hra].
        apply same_view_update. reflexivity.
      * exact (IH _ _ _ _ _ _ _ H Hra).
Qed.

Lemma fresh_ranked m : Forall fresh_record m -> ranked m.
Proof.
  intros Hf. exists (fun _ => 0). intros k p Hp Hyes. exfalso.
  apply find_in in Hp. rewrite Forall_forall in Hf.
  destruct (Hf _ Hp) as (_ & _ & Hflag & _). simpl in Hflag. congruence.
Qed.

(** X20.  The records flagged as resolved never form a dependency
    cycle: the property that every record flagged true depends only on
    registered, version-compatible records that are flagged true as
    well, along a strictly decreasing rank, holds for the records a
    search registers and is kept by [checkDependencies] and by
    [loadPlugins]. *)
Theorem resolved_records_form_no_cycle :
  (forall m, Forall fresh_record m -> ranked m) /\
  (forall fuel cb k m retCode m' tr,
     checkDependencies fuel cb k m = Done (retCode, m', tr) ->
     ranked m -> ranked m') /\
  (forall fuel tryToContinue cb st retCode st' tr,
     loadPlugins fuel tryToContinue cb st = Done (retCode, st', tr) ->
     ranked (pluginsMap st) -> ranked (pluginsMap st')).
Proof.
  split; [exact fresh_ranked|]. split; [intros; eapply checkDependencies_ranked; eauto|].
  unfold loadPlugins. intros fuel ttc cb st rc st' tr H Hrk.
  destruct (checkAll fuel ttc cb (keys (pluginsMap st)) (pluginsMap st) [] [])
    as [[[[early m1] nl] tr1]| |] eqn:Ec; try discriminate.
  pose proof (checkAll_ranked _ _ _ _ _ _ _ _ _ _ _ Ec Hrk) as Hr1.
  destruct early as [rc0|].
  - injection H as <- <- <-. exact Hr1.
  - destruct (fillParents m1 m1 nl) as [nl'| |]; try discriminate.
    destruct (Graph.topologicalSort nl') as [order error].
    destruct error.
    + injection H as <- <- <-. exact Hr1.
    + destruct (loadAll order m1) as [[m' tr']| |] eqn:El; try discriminate.
      injection H as <- <- <-. simpl.
      destruct (loadAll_spec _ _ _ _ El) as (Hg & _).
      exact (ranked_same_view _ _ (same_graph_view _ _ Hg) Hr1).
Qed.

(** ** The sort succeeds on the graph of the resolved records *)

(** Some node that is not in the order yet has all its parents there,
    when the parents of every node have a smaller rank. *)
Lemma ready_node_exists nodes (rho : nat -> nat) order :
  (forall j, j < length nodes ->
     forall pid, In pid (parentNodes (nth j nodes emptyNode)) ->
       exists i, i < length nodes /\ Z.of_nat i = pid /\ rho i < rho j) ->
  forall b j, rho j < b -> j < length nodes -> ~ In j order ->
    exists j', j' < length nodes /\ ~ In j' order /\
               Graph.ready order (nth j' nodes emptyNode) = true.
Proof.
  intros Hpar. induction b as [|b IH]; intros j Hb Hj Hnot; [lia|].
  destruct (Graph.ready order (nth j nodes emptyNode)) eqn:Er; [eauto|].
  unfold Graph.ready in Er.
  assert (Hex : exists pid, In pid (parentNodes (nth j nodes emptyNode)) /\
                            Graph.emitted order pid = false).
  { induction (parentNodes (nth j nodes emptyNode)) as [|x r IHr]; simpl in Er;
      [discriminate|].
    destruct (Graph.emitted order x) eqn:Ex.
    - destruct (IHr Er) as (pid & Hin & He). exists pid. split; [right; exact Hin|exact He].
    - exists x. split; [left; reflexivity|exact Ex]. }
  destruct Hex as (pid & Hin & He).
  destruct (Hpar j Hj pid Hin) as (i & Hi & Hpid & Hlt).
  apply (IH i); [lia|exact Hi|].
  intros Hino. assert (Graph.emitted order pid = true); [|congruence].
  apply emitted_spec. exists i. auto.
Qed.

Lemma pick_complete order : forall nodes s,
  (exists j, j < length nodes /\ ~ In (s + j) order /\
             Graph.ready order (nth j nodes emptyNode) = true) ->
  exists i, Graph.pick order s nodes = Some i.
Proof.
  induction nodes as [|n r IH]; intros s (j & Hj & Hnot & Hready); simpl in *; [lia|].
  destruct (negb (existsb (Nat.eqb s) order) && Graph.ready order n) eqn:E; [eauto|].
  apply IH. destruct j as [|j].
  - exfalso. rewrite Nat.add_0_r in Hnot. rewrite Hready, andb_true_r in E.
    apply negb_false_iff in E. apply existsb_exists in E.
    destruct E as (x & Hx & Ex). apply Nat.eqb_eq in Ex. subst. contradiction.
  - exists j. split; [lia|]. split; [|exact Hready].
    replace (S s + j) with (s + S j) by lia. exact Hnot.
Qed.

(** A list of distinct indices below [n] that is shorter than [n] misses
    one of them. *)
Lemma missing_index n order :
  NoDup order -> (forall i, In i order -> i < n) -> length order < n ->
  exists j, j < n /\ ~ In j order.
Proof.
  intros Hnd Hlt Hlen.
  assert (Hex : ~ incl (seq 0 n) order).
  { intros Hincl. pose proof (NoDup_incl_length (seq_NoDup n 0) Hincl) as Hl.
    rewrite length_seq in Hl. lia. }
  assert (Hsearch : forall l, (forall x, In x l -> x < n) ->
                      incl l order \/ exists j, j < n /\ ~ In j order).
  { induction l as [|x l IHl]; intros Hl; [left; intros y []|].
    destruct (in_dec Nat.eq_dec x order) as [Hin|Hnin].
    - destruct IHl as [Hi|Hj]; [intros y Hy; apply Hl; right; exact Hy| |right; exact Hj].
      left. intros y [<-|Hy]; auto.
    - right. exists x. split; [apply Hl; left; reflexivity|exact Hnin]. }
  destruct (Hsearch (seq 0 n)) as [Hi|Hj]; [|contradiction|exact Hj].
  intros x Hx. apply in_seq in Hx. lia.
Qed.

Lemma extend_complete nodes (rho : nat -> nat) :
  (forall j, j < length nodes ->
     forall pid, In pid (parentNodes (nth j nodes emptyNode)) ->
       exists i, i < length nodes /\ Z.of_nat i = pid /\ rho i < rho j) ->
  forall rounds order,
    NoDup order -> (forall i, In i order -> i < length nodes) ->
    length nodes <= length order + rounds ->
    length (Graph.extend rounds nodes order) = length nodes.
Proof.
  intros Hpar.
  assert (Hfull : forall order,
            NoDup order -> (forall i, In i order -> i < length nodes) ->
            Graph.pick order 0 nodes = None -> length order = length nodes).
  { intros order Hnd Hlt Hpick.
    assert (Hle : length order <= length nodes).
    { rewrite <- (length_seq (length nodes) 0). apply NoDup_incl_length; [exact Hnd|].
      intros i Hi. apply in_seq. specialize (Hlt i Hi). lia. }
    destruct (Nat.eq_dec (length order) (length nodes)) as [E|E]; [exact E|].
    exfalso.
    destruct (missing_index (length nodes) order Hnd Hlt) as (j & Hj & Hnot); [lia|].
    destruct (ready_node_exists nodes rho order Hpar (S (rho j)) j) as (j' & Hj' & Hn' & Hr');
      [lia|exact Hj|exact Hnot|].
    destruct (pick_complete order nodes 0) as (i & Hi); [|congruence].
    exists j'. auto. }
  induction rounds as [|r IH]; intros order Hnd Hlt Hlen; simpl.
  - assert (Hle : length order <= length nodes).
    { rewrite <- (length_seq (length nodes) 0). apply NoDup_incl_length; [exact Hnd|].
      intros i Hi. apply in_seq. specialize (Hlt i Hi). lia. }
    lia.
  - destruct (Graph.pick order 0 nodes) as [i|] eqn:E.
    + destruct (pick_spec _ _ _ _ E) as (_ & Hi & Hnin & _).
      rewrite Nat.sub_0_r in Hi. apply IH.
      * apply NoDup_app; [exact Hnd|constructor; [intros []|constructor]|].
        intros x Hx [<-|[]]. contradiction.
      * intros j Hj. apply in_app_or in Hj. destruct Hj as [Hj|[<-|[]]]; auto.
      * rewrite length_app. simpl. lia.
    + exact (Hfull order Hnd Hlt E).
Qed.

Lemma topologicalSort_complete nodes (rho : nat -> nat) :
  (forall j, j < length nodes ->
     forall pid, In pid (parentNodes (nth j nodes emptyNode)) ->
       exists i, i < length nodes /\ Z.of_nat i = pid /\ rho i < rho j) ->
  exists order, Graph.topologicalSort nodes = (order, false).
Proof.
  intros Hpar. unfold Graph.topologicalSort.
  rewrite (extend_complete nodes rho Hpar (length nodes) []);
    [|constructor|intros i []|simpl; lia].
  rewrite Nat.eqb_refl. eauto.
Qed.

(** Where the parents of a node come from. *)
Lemma parentIds_inv m : forall deps ids,
  parentIds m deps = Done ids ->
  forall pid, In pid ids ->
    exists d q, In d deps /\ find (dep_name d) m = Some q /\ graphId q = pid.
Proof.
  induction deps as [|d rest IH]; intros ids H pid Hin; simpl in H.
  - injection H as <-. contradiction.
  - destruct (find (dep_name d) m) as [q|] eqn:Eq; [|discriminate].
    destruct (parentIds m rest) as [ids'| |]; try discriminate.
    injection H as <-. destruct Hin as [<-|Hin].
    + exists d, q. split; [left; reflexivity|auto].
    + destruct (IH _ eq_refl pid Hin) as (d' & q' & Hd' & R).
      exists d', q'. split; [right; exact Hd'|exact R].
Qed.

Lemma pushParents_inv ids : forall i nl nl',
  pushParents i ids nl = Some nl' ->
  forall j pid, In pid (parentNodes (nth j nl' emptyNode)) ->
    In pid (parentNodes (nth j nl emptyNode)) \/ (j = i /\ In pid ids).
Proof.
  induction i as [|i IH]; intros [|n r] nl' H j pid Hin; simpl in H; try discriminate.
  - injection H as <-. destruct j as [|j]; simpl in *; [|left; exact Hin].
    apply in_app_or in Hin. destruct Hin; auto.
  - destruct (pushParents i ids r) as [r'|] eqn:E; [|discriminate].
    injection H as <-. destruct j as [|j]; simpl in *; [left; exact Hin|].
    destruct (IH _ _ E j pid Hin) as [Hl|(-> & Hr)]; auto.
Qed.

Lemma fillParents_inv m : forall entries nl nl',
  fillParents entries m nl = Done nl' ->
  forall j pid, In pid (parentNodes (nth j nl' emptyNode)) ->
    In pid (parentNodes (nth j nl emptyNode)) \/
    exists k p d q,
      In (k, p) entries /\ graphId p = Z.of_nat j /\
      In d (dependencies (info p)) /\
      find (dep_name d) m = Some q /\ graphId q = pid.
Proof.
  induction entries as [|[k p] rest IH]; intros nl nl' H j pid Hin; simpl in H.
  - injection H as <-. left. exact Hin.
  - assert (Hrest : forall nl0,
              fillParents rest m nl0 = Done nl' ->
              In pid (parentNodes (nth j nl0 emptyNode)) \/
              exists k' p' d q,
                In (k', p') ((k, p) :: rest) /\ graphId p' = Z.of_nat j /\
                In d (dependencies (info p')) /\
                find (dep_name d) m = Some q /\ graphId q = pid).
    { intros nl0 H0. destruct (IH _ _ H0 j pid Hin) as [Hl|(k' & p' & d & q & Hk & R)];
        [left; exact Hl|].
      right. exists k', p', d, q. split; [right; exact Hk|exact R]. }
    destruct (Z.eqb (graphId p) (-1)); [exact (Hrest _ H)|].
    destruct (parentIds m (dependencies (info p))) as [[|id ids]| |] eqn:Ep;
      try discriminate; [exact (Hrest _ H)|].
    destruct (Z.ltb (graphId p) 0) eqn:Elt; [discriminate|].
    destruct (pushParents (Z.to_nat (graphId p)) (id :: ids) nl) as [nl1|] eqn:Epush;
      [|discriminate].
    destruct (Hrest _ H) as [Hl|Hr]; [|right; exact Hr].
    destruct (pushParents_inv _ _ _ _ Epush j pid Hl) as [Hold|(-> & Hnew)];
      [left; exact Hold|].
    right. destruct (parentIds_inv _ _ _ Ep pid Hnew) as (d & q & Hd & Hq & Hg).
    exists k, p, d, q. split; [left; reflexivity|].
    split; [|auto]. apply Z.ltb_ge in Elt. rewrite Z2Nat.id; [reflexivity|exact Elt].
Qed.

Lemma assign_no_parents : forall m n m' nl j,
  assign m n = (m', nl) -> parentNodes (nth j nl emptyNode) = [].
Proof.
  induction m as [|[k p] rest IH]; intros n m' nl j H; simpl in H.
  - injection H as <- <-. destruct j; reflexivity.
  - destruct (is_true (dependenciesExists p)).
    + destruct (assign rest (S n)) as [rest' nodes] eqn:E. injection H as <- <-.
      destruct j as [|j]; [reflexivity|]. simpl. exact (IH _ _ _ j E).
    + destruct (assign rest n) as [rest' nodes] eqn:E. injection H as <- <-.
      exact (IH _ _ _ j E).
Qed.

Lemma assign_unflagged : forall m n nl k p,
  assign m n = (m, nl) -> In (k, p) m ->
  is_true (dependenciesExists p) = false -> graphId p = (-1)%Z.
Proof.
  induction m as [|[k0 p0] rest IH]; intros n nl k p H Hin Hf; [contradiction|].
  simpl in H. destruct (is_true (dependenciesExists p0)) eqn:E0.
  - destruct (assign rest (S n)) as [rest' nodes] eqn:E. injection H as Hp Hr <-.
    destruct Hin as [Heq|Hin].
    + injection Heq as <- <-. congruence.
    + subst rest'. exact (IH _ _ _ _ E Hin Hf).
  - destruct (assign rest n) as [rest' nodes] eqn:E. injection H as Hp Hr <-.
    destruct Hin as [Heq|Hin].
    + injection Heq as <- <-. rewrite <- Hp. reflexivity.
    + subst rest'. exact (IH _ _ _ _ E Hin Hf).
Qed.

Lemma is_true_spec t : is_true t = true <-> t = TriTrue.
Proof. destruct t; simpl; split; congruence. Qed.

(** In the graph [loadPlugins] builds, the parents of a node are nodes
    of smaller rank. *)
Lemma resolved_graph_ranked rank m nl nl' :
  NoDup (keys m) -> assign m 0 = (m, nl) -> ranked_by rank m ->
  fillParents m m nl = Done nl' ->
  forall j, j < length nl' ->
    forall pid, In pid (parentNodes (nth j nl' emptyNode)) ->
      exists i, i < length nl' /\ Z.of_nat i = pid /\
                rank (node_name (nth i nl' emptyNode)) <
                rank (node_name (nth j nl' emptyNode)).
Proof.
  intros Hnd Has Hr Hfill j Hj pid Hpid.
  destruct (fillParents_spec _ _ _ _ Hfill) as (Hnames & _).
  assert (Hlen : length nl' = length nl).
  { rewrite <- (length_map node_name nl'), Hnames. apply length_map. }
  destruct (fillParents_inv _ _ _ _ Hfill j pid Hpid)
    as [Hold|(k & p & d & q & Hin & Hg & Hd & Hq & Hgq)].
  { rewrite (assign_no_parents _ _ _ _ j Has) in Hold. contradiction. }
  assert (Hyes : dependenciesExists p = TriTrue).
  { apply is_true_spec. destruct (is_true (dependenciesExists p)) eqn:E; [reflexivity|].
    rewrite (assign_unflagged _ _ _ _ _ Has Hin E) in Hg. lia. }
  pose proof (find_in_unique _ _ _ Hnd Hin) as Hp.
  destruct (assign_yes _ _ _ _ _ Has Hp Hyes) as (a & Ha & Hal & Han).
  assert (a = j) by lia. subst a.
  pose proof (Hr k p Hp Hyes) as Hdeps. rewrite Forall_forall in Hdeps.
  destruct (Hdeps d Hd) as (_ & Hfd & Hlt).
  assert (Hqyes : dependenciesExists q = TriTrue).
  { unfold flag in Hfd. rewrite Hq in Hfd. simpl in Hfd. congruence. }
  destruct (assign_yes _ _ _ _ _ Has Hq Hqyes) as (b & Hb & Hbl & Hbn).
  exists b. split; [lia|]. split; [simpl in Hb; congruence|].
  rewrite !(names_nth _ _ _ Hnames), Han, Hbn. exact Hlt.
Qed.

Lemma checkAll_start fuel ttc cb m m1 nl tr :
  NoDup (keys m) ->
  checkAll fuel ttc cb (keys m) m [] [] = Done (None, m1, nl, tr) ->
  NoDup (keys m1) /\ assign m1 0 = (m1, nl) /\ settled m1 /\ same_static m m1.
Proof.
  intros Hnd H.
  destruct (checkAll_settles fuel ttc cb (keys m) [] m [] [] m1 nl tr eq_refl Hnd
              eq_refl (Forall_nil _) H) as (Hset & Has & Hs & _).
  split; [|auto]. rewrite (same_static_keys _ _ Hs). exact Hnd.
Qed.

Lemma loadPlugins_no_cycle fuel tryToContinue cb st retCode st' tr :
  unique_keys (pluginsMap st) -> ranked (pluginsMap st) ->
  loadPlugins fuel tryToContinue cb st = Done (retCode, st', tr) ->
  retCode <> LOAD_DEPENDENCY_CYCLE /\ (tryToContinue = true -> retCode = SUCCESS).
Proof.
  unfold loadPlugins. intros Hnd Hrk H.
  destruct (checkAll fuel tryToContinue cb (keys (pluginsMap st)) (pluginsMap st) [] [])
    as [[[[early m1] nl] tr1]| |] eqn:Ec; try discriminate.
  destruct early as [rc|].
  - injection H as <- <- <-.
    destruct (checkAll_generic _ _ _ _ _ _ _ _ _ _ _ Ec) as (_ & _ & Hearly).
    destruct (Hearly rc eq_refl) as (-> & [-> | ->] & _);
      split; discriminate.
  - destruct (checkAll_start _ _ _ _ _ _ _ Hnd Ec) as (Hnd1 & Has & _ & _).
    destruct (checkAll_ranked _ _ _ _ _ _ _ _ _ _ _ Ec Hrk) as (rank & Hr1).
    destruct (fillParents m1 m1 nl) as [nl'| |] eqn:Ef; try discriminate.
    destruct (topologicalSort_complete nl'
                (fun j => rank (node_name (nth j nl' emptyNode)))
                (resolved_graph_ranked rank m1 nl nl' Hnd1 Has Hr1 Ef))
      as (order & Es).
    rewrite Es in H.
    destruct (loadAll order m1) as [[m' tr']| |]; try discriminate.
    injection H as <- <- <-. split; [discriminate|reflexivity].
Qed.

(** X21.  On a registry with distinct names whose resolved records form
    no cycle, as every registry that searches and earlier loads have
    built, [loadPlugins] never returns [LOAD_DEPENDENCY_CYCLE]: the graph
    handed to the sort is acyclic, and the sort, which reports an error
    only when no remaining node has all its parents placed, orders all of
    it.  With [tryToContinue] the only code returned is [SUCCESS]. *)
Theorem loadPlugins_never_reports_cycle fuel tryToContinue cb st retCode st' tr :
  unique_keys (pluginsMap st) -> ranked (pluginsMap st) ->
  loadPlugins fuel tryToContinue cb st = Done (retCode, st', tr) ->
  retCode <> LOAD_DEPENDENCY_CYCLE /\ (tryToContinue = true -> retCode = SUCCESS).
Proof.
  exact (loadPlugins_no_cycle fuel tryToContinue cb st retCode st' tr).
Qed.

(** ** [loadPlugins] returns when the declarations form no cycle *)

Lemma acyclic_same_view rank m m' :
  same_view m m' -> acyclic_by rank m -> acyclic_by rank m'.
Proof.
  intros Hv Hac k p' d Hp' Hd Hfound.
  pose proof (Hv k) as Hk. rewrite Hp' in Hk.
  destruct (find k m) as [p|] eqn:Ep; simpl in Hk; [|discriminate].
  injection Hk as _ Hi. apply (Hac k p d Ep); [rewrite Hi; exact Hd|].
  intros Hnone. apply Hfound. pose proof (Hv (dep_name d)) as Hdv.
  rewrite Hnone in Hdv. destruct (find (dep_name d) m'); [discriminate|reflexivity].
Qed.

Lemma in_keys_not_none k (m : PluginsMap) : In k (keys m) <-> find k m <> None.
Proof.
  split.
  - intros Hin. destruct (in_keys_find _ _ Hin) as (p & ->). discriminate.
  - intros H. destruct (find k m) eqn:E; [|contradiction]. exact (find_some_in _ _ _ E).
Qed.

Lemma checkAll_returns rank fuel ttc cb : forall todo m nl tr,
  acyclic_by rank m ->
  (forall k, In k todo -> In k (keys m) /\ rank k < fuel) ->
  exists r, checkAll fuel ttc cb todo m nl tr = Done r.
Proof.
  induction todo as [|key rest IH]; intros m nl tr Hac Htodo; simpl; [eauto|].
  destruct (Htodo key (or_introl eq_refl)) as (Hkey & Hlt).
  assert (Hv0 : same_view m (update key (set_graphId (-1)) m)).
  { apply same_view_update. reflexivity. }
  destruct (checkDependencies_returns rank cb fuel key (update key (set_graphId (-1)) m))
    as ([[rc1 ma] ta] & Ec).
  { exact (acyclic_same_view _ _ _ Hv0 Hac). }
  { exact Hlt. }
  { apply in_keys_not_none. rewrite keys_update. exact Hkey. }
  rewrite Ec.
  pose proof (proj1 (proj1 (checkDependencies_checked _ _ _ _ _ _ _ Ec))) as Hev.
  assert (Hka : keys ma = keys m).
  { rewrite (evolves_keys _ _ Hev). apply keys_update. }
  assert (Haa : acyclic_by rank ma).
  { apply (acyclic_evolves _ _ _ Hev). exact (acyclic_same_view _ _ _ Hv0 Hac). }
  destruct (negb ttc && negb (to_bool rc1)); [eauto|].
  destruct (find key ma) as [plugin|] eqn:Ek.
  - destruct (is_true (dependenciesExists plugin)).
    + apply IH.
      * apply (acyclic_same_view _ ma); [apply same_view_update; reflexivity|exact Haa].
      * intros k Hk. rewrite keys_update, Hka. apply Htodo. right. exact Hk.
    + apply IH; [exact Haa|].
      intros k Hk. rewrite Hka. apply Htodo. right. exact Hk.
  - exfalso. apply (proj1 (in_keys_not_none key ma)); [|exact Ek].
    rewrite Hka. exact Hkey.
Qed.

Lemma parentIds_returns m : forall deps,
  (forall d, In d deps -> find (dep_name d) m <> None) ->
  exists ids, parentIds m deps = Done ids.
Proof.
  induction deps as [|d rest IH]; intros H; simpl; [eauto|].
  destruct (find (dep_name d) m) as [q|] eqn:E.
  - destruct IH as (ids & ->); [intros d' Hd'; apply H; right; exact Hd'|]. eauto.
  - exfalso. apply (H d); [left; reflexivity|exact E].
Qed.

Lemma pushParents_returns ids : forall i nl,
  i < length nl -> exists nl', pushParents i ids nl = Some nl'.
Proof.
  induction i as [|i IH]; intros [|n r] Hi; simpl in *; try lia; [eauto|].
  destruct (IH r) as (r' & ->); [lia|]. eauto.
Qed.

Lemma fillParents_returns m : forall entries nl,
  (forall k p, In (k, p) entries ->
     graphId p = (-1)%Z \/
     ((0 <= graphId p)%Z /\ Z.to_nat (graphId p) < length nl /\
      forall d, In d (dependencies (info p)) -> find (dep_name d) m <> None)) ->
  exists nl', fillParents entries m nl = Done nl'.
Proof.
  induction entries as [|[k p] rest IH]; intros nl H; simpl; [eauto|].
  assert (Hrest : forall nl0, length nl0 = length nl ->
                    exists nl', fillParents rest m nl0 = Done nl').
  { intros nl0 Hl. apply IH. intros k' p' Hin.
    destruct (H k' p' (or_intror Hin)) as [Hm|(H0 & Hlt & Hd)]; [left; exact Hm|].
    right. rewrite Hl. auto. }
  destruct (H k p (or_introl eq_refl)) as [Hm|(H0 & Hlt & Hd)].
  - rewrite Hm. simpl. apply Hrest. reflexivity.
  - destruct (Z.eqb (graphId p) (-1)); [apply Hrest; reflexivity|].
    destruct (parentIds_returns m _ Hd) as (ids & ->).
    destruct ids as [|id ids]; [apply Hrest; reflexivity|].
    destruct (Z.ltb (graphId p) 0) eqn:Elt; [apply Z.ltb_lt in Elt; lia|].
    destruct (pushParents_returns (id :: ids) _ _ Hlt) as (nl1 & E1). rewrite E1.
    apply Hrest. destruct (pushParents_spec _ _ _ _ E1) as (Hn & _).
    rewrite <- (length_map node_name nl1), Hn. apply length_map.
Qed.

Lemma loadAll_returns : forall order m,
  (forall k, In k order ->
     exists p, find k m = Some p /\
               (iplugin p = None -> hasSymbol (lib p) jp_createPlugin = true)) ->
  exists r, loadAll order m = Done r.
Proof.
  induction order as [|key rest IH]; intros m H; simpl; [eauto|].
  destruct (H key (or_introl eq_refl)) as (plugin & Ek & Hsym). rewrite Ek.
  destruct (iplugin plugin) eqn:Ei.
  - apply IH. intros k Hk. apply H. right. exact Hk.
  - rewrite (Hsym eq_refl).
    destruct (IH (update key (fun p => set_iplugin (Some (instance_of key))
                                         (set_creator true p)) m))
      as ([m' tr] & E).
    + intros k Hk. destruct (string_dec key k) as [<-|Hne].
      * rewrite find_update_eq, Ek. simpl. eexists. split; [reflexivity|].
        simpl. discriminate.
      * rewrite find_update_ne by exact Hne. apply H. right. exact Hk.
    + rewrite E. eauto.
Qed.

Lemma rank_bound_names (rank : string -> nat) (names : list string) :
  exists b, forall k, In k names -> rank k < b.
Proof.
  induction names as [|k rest (b & Hb)].
  - exists 0. intros k [].
  - exists (S (Nat.max (rank k) b)). intros k' [<-|Hin]; [lia|].
    specialize (Hb k' Hin). lia.
Qed.

Lemma loadPlugins_returns rank ttc cb st :
  unique_keys (pluginsMap st) -> ranked (pluginsMap st) ->
  acyclic_by rank (pluginsMap st) ->
  (forall k p, find k (pluginsMap st) = Some p -> iplugin p = None ->
               hasSymbol (lib p) jp_createPlugin = true) ->
  exists F, forall fuel, F <= fuel ->
    exists retCode st' tr, loadPlugins fuel ttc cb st = Done (retCode, st', tr).
Proof.
  intros Hnd Hrk Hac Hfactory.
  destruct (rank_bound_names rank (keys (pluginsMap st))) as (F & HF).
  exists F. intros fuel Hfuel. unfold loadPlugins.
  destruct (checkAll_returns rank fuel ttc cb (keys (pluginsMap st)) (pluginsMap st)
              [] [] Hac) as ([[[early m1] nl] tr1] & Ec).
  { intros k Hk. split; [exact Hk|]. specialize (HF k Hk). lia. }
  rewrite Ec. destruct early as [rc|]; [eauto|].
  destruct (checkAll_start _ _ _ _ _ _ _ Hnd Ec) as (Hnd1 & Has & _ & Hs).
  destruct (checkAll_ranked _ _ _ _ _ _ _ _ _ _ _ Ec Hrk) as (rank1 & Hr1).
  destruct (fillParents_returns m1 m1 nl) as (nl' & Ef).
  { intros k p Hin. pose proof (find_in_unique _ _ _ Hnd1 Hin) as Hp.
    destruct (is_true (dependenciesExists p)) eqn:Ey.
    - right. apply is_true_spec in Ey.
      destruct (assign_yes _ _ _ _ _ Has Hp Ey) as (a & Ha & Hal & _).
      simpl in Ha. rewrite Ha. split; [lia|]. split; [rewrite Nat2Z.id; exact Hal|].
      intros d Hd. pose proof (Hr1 k p Hp Ey) as Hdeps. rewrite Forall_forall in Hdeps.
      destruct (Hdeps d Hd) as ((q & Hq & _) & _). congruence.
    - left. exact (assign_unflagged _ _ _ _ _ Has Hin Ey). }
  rewrite Ef.
  destruct (topologicalSort_complete nl'
              (fun j => rank1 (node_name (nth j nl' emptyNode)))
              (resolved_graph_ranked rank1 m1 nl nl' Hnd1 Has Hr1 Ef))
    as (order & Es).
  rewrite Es.
  destruct (loadAll_returns order m1) as ([m' tr'] & El); [|rewrite El; eauto].
  intros k Hk.
  destruct (topologicalSort_sound _ _ Es) as (ids & -> & _ & Hids & _).
  apply in_map_iff in Hk. destruct Hk as (i & <- & Hi). apply Hids in Hi.
  destruct (fillParents_spec _ _ _ _ Ef) as (Hnames & _).
  assert (Hlen : length nl' = length nl).
  { rewrite <- (length_map node_name nl'), Hnames. apply length_map. }
  assert (Hin : In (node_name (nth i nl' emptyNode)) (keys m1)).
  { rewrite (names_nth _ _ _ Hnames).
    assert (Hn : In (node_name (nth i nl emptyNode)) (map node_name nl)).
    { apply in_map. apply nth_In. lia. }
    rewrite (assign_names _ _ _ _ Has) in Hn.
    unfold keys in *. apply in_map_iff in Hn. destruct Hn as (e & He & Hfe).
    apply in_map_iff. exists e. split; [exact He|].
    apply filter_In in Hfe. apply Hfe. }
  destruct (in_keys_find _ _ Hin) as (p & Hp). exists p. split; [exact Hp|].
  intros Hnone.
  destruct (same_static_find _ _ _ _ Hs Hp) as (p0 & Hp0 & Hsp).
  unfold static_part in Hsp. injection Hsp as Hi0 _ Hl0 _ _.
  rewrite <- Hl0. apply (Hfactory _ _ Hp0). congruence.
Qed.

(** X22.  On a registry with distinct names whose dependency
    declarations form no cycle, whose resolved records form none either,
    and whose records without a plugin object export the factory,
    [loadPlugins] returns once the recursion may be as deep as the
    largest rank: it does not fault and does not run away.  With
    [tryToContinue] it returns [SUCCESS]; in strict mode it returns
    [SUCCESS] or the dependency error of the first failing record. *)
Theorem loadPlugins_returns_when_acyclic rank tryToContinue cb st :
  unique_keys (pluginsMap st) -> ranked (pluginsMap st) ->
  acyclic_by rank (pluginsMap st) ->
  (forall k p, find k (pluginsMap st) = Some p -> iplugin p = None ->
               hasSymbol (lib p) jp_createPlugin = true) ->
  exists F, forall fuel, F <= fuel ->
    exists retCode st' tr,
      loadPlugins fuel tryToContinue cb st = Done (retCode, st', tr) /\
      retCode <> LOAD_DEPENDENCY_CYCLE /\
      (tryToContinue = true -> retCode = SUCCESS).
Proof.
  intros Hnd Hrk Hac Hfactory.
  destruct (loadPlugins_returns rank tryToContinue cb st Hnd Hrk Hac Hfactory)
    as (F & HF).
  exists F. intros fuel Hfuel. destruct (HF fuel Hfuel) as (rc & st' & tr & E).
  exists rc, st', tr. split; [exact E|].
  exact (loadPlugins_no_cycle _ _ _ _ _ _ _ Hnd Hrk E).
Qed.

Lemma acyclic_check_sound rank m : acyclic_check rank m = true -> acyclic_by rank m.
Proof.
  unfold acyclic_check. rewrite forallb_forall. intros H k p d Hp Hd Hfound.
  specialize (H (k, p) (find_in _ _ _ Hp)). simpl in H.
  rewrite forallb_forall in H. specialize (H d Hd).
  destruct (find (dep_name d) m); [|contradiction].
  apply Nat.ltb_lt. exact H.
Qed.

Lemma unflagged_ranked m :
  Forall (fun e => dependenciesExists (snd e) <> TriTrue) m -> ranked m.
Proof.
  intros Hf. exists (fun _ => 0). intros k p Hp Hyes. exfalso.
  apply find_in in Hp. rewrite Forall_forall in Hf. exact (Hf _ Hp Hyes).
Qed.

(** ** Searching, then loading *)

Section DiscoveryLoad.

Variable JP_PLUGIN_API : string.
Variable json_parse : string -> option json.

Lemma fresh_factory m k p :
  Forall fresh_record m -> find k m = Some p ->
  iplugin p = None /\ hasSymbol (lib p) jp_createPlugin = true.
Proof.
  intros Hf Hp. apply find_in in Hp. rewrite Forall_forall in Hf.
  destruct (Hf _ Hp) as (Hi & _ & _ & _ & _ & _ & f & Him & Hlib & _). simpl in *.
  split; [exact Hi|]. unfold hasSymbol. rewrite Him.
  unfold is_plugin_library in Hlib. apply andb_prop in Hlib. apply Hlib.
Qed.

(** X23.  Search, then load: on the state any sequence of calls of
    [searchForPlugins] leaves, from a new manager, when the dependency
    declarations of the registered plugins form no cycle,
    [loadPlugins] with [tryToContinue] returns [SUCCESS] once the
    recursion may be as deep as the largest rank.  The load-order list
    then holds registered names, each once, and [loaded()] is called for
    exactly these names, in this order. *)
Theorem search_then_load_succeeds calls rank cb :
  acyclic_by rank (pluginsMap (searchAll JP_PLUGIN_API json_parse calls emptyManager)) ->
  exists F, forall fuel, F <= fuel ->
    exists st' tr,
      loadPlugins fuel true cb (searchAll JP_PLUGIN_API json_parse calls emptyManager) =
        Done (SUCCESS, st', tr) /\
      loaded_of tr = loadOrderList st' /\
      NoDup (loadOrderList st') /\
      incl (loadOrderList st')
           (pluginsList (searchAll JP_PLUGIN_API json_parse calls emptyManager)).
Proof.
  set (st := searchAll JP_PLUGIN_API json_parse calls emptyManager).
  intros Hac.
  assert (Hnd : unique_keys (pluginsMap st)).
  { apply searchAll_unique. constructor. }
  destruct (searchAll_fresh JP_PLUGIN_API json_parse calls emptyManager (Forall_nil _)
              eq_refl) as (Hf & _).
  fold st in Hf.
  pose proof (fresh_ranked _ Hf) as Hrk.
  destruct (loadPlugins_returns rank true cb st Hnd Hrk Hac) as (F & HF).
  { intros k p Hp _. exact (proj2 (fresh_factory _ _ _ Hf Hp)). }
  exists F. intros fuel Hfuel. destruct (HF fuel Hfuel) as (rc & st' & tr & E).
  destruct (loadPlugins_no_cycle _ _ _ _ _ _ _ Hnd Hrk E) as (_ & Hrc).
  rewrite (Hrc eq_refl) in E. exists st', tr. split; [exact E|].
  destruct (loadPlugins_success _ _ _ _ _ _ E)
    as (m1 & nl & tr1 & nl' & order & m' & tr4 & Ec & Efill & Es & El & -> & ->).
  simpl.
  destruct (checkAll_start _ _ _ _ _ _ _ Hnd Ec) as (Hnd1 & Has & _ & Hs).
  destruct (checkAll_generic _ _ _ _ _ _ _ _ _ _ _ Ec) as (_ & (t & Et & Ht) & _).
  simpl in Et. subst tr1.
  destruct (callbacks_not_loaded _ Ht) as (Hl0 & _).
  destruct (fillParents_spec _ _ _ _ Efill) as (Hnames & _).
  assert (Hnames1 : map node_name nl' =
                    keys (filter (fun e => is_true (dependenciesExists (snd e))) m1)).
  { rewrite Hnames. exact (assign_names _ _ _ _ Has). }
  assert (Hndo : NoDup order).
  { apply (sorted_names_NoDup nl'); [|exact Es].
    rewrite Hnames1. apply NoDup_keys_filter. exact Hnd1. }
  destruct (loadAll_spec _ _ _ _ El) as (_ & _ & _ & _ & Hloaded).
  assert (Hincl : incl order (keys m1)).
  { destruct (topologicalSort_sound _ _ Es) as (ids & -> & _ & Hids & _).
    intros k Hk. apply in_map_iff in Hk. destruct Hk as (i & <- & Hi).
    apply Hids in Hi.
    assert (Hn : In (node_name (nth i nl' emptyNode)) (map node_name nl')).
    { apply in_map. apply nth_In. exact Hi. }
    rewrite Hnames1 in Hn. unfold keys in *. apply in_map_iff in Hn.
    destruct Hn as (e & He & Hfe). apply in_map_iff. exists e. split; [exact He|].
    apply filter_In in Hfe. apply Hfe. }
  split.
  - rewrite loaded_of_app, Hl0, (Hloaded Hndo). simpl.
    apply forallb_filter_id. apply forallb_forall. intros k Hk.
    rewrite (same_static_hasInstance _ _ k Hs).
    destruct (in_keys_find _ _ (eq_ind _ (fun l => In k l) (Hincl k Hk) _
                                  (same_static_keys _ _ Hs))) as (p & Hp).
    unfold hasInstance. rewrite Hp.
    rewrite (proj1 (fresh_factory _ _ _ Hf Hp)). reflexivity.
  - split; [exact Hndo|].
    unfold pluginsList. rewrite <- (same_static_keys _ _ Hs). exact Hincl.
Qed.

End DiscoveryLoad.

(** ** Searching a directory again *)

Section DiscoveryTwice.

Variable JP_PLUGIN_API : string.
Variable json_parse : string -> option json.

Lemma searchCandidate_again dl cb cb' candidate m found m1 found1 ev1 m2 found' :
  searchCandidate JP_PLUGIN_API json_parse dl cb candidate m found =
    (m1, found1, ev1) ->
  names_within m1 m2 ->
  exists ev',
    searchCandidate JP_PLUGIN_API json_parse dl cb' candidate m2 found' =
      (m2, found', ev').
Proof.
  intros H Hin.
  destruct (is_plugin_library (dl candidate)) eqn:Hlib.
  - destruct (find (exported_name (dl candidate)) m2) eqn:E2.
    + rewrite searchCandidate_duplicate by (assumption || congruence). eauto.
    + rewrite searchCandidate_new by assumption.
      destruct (find (exported_name (dl candidate)) m) eqn:E.
      * rewrite searchCandidate_duplicate in H by (assumption || congruence).
        injection H as <- <- <-. exfalso.
        apply (Hin (exported_name (dl candidate))); [congruence|exact E2].
      * rewrite searchCandidate_new in H by assumption.
        destruct (String.eqb _ ""); [eauto|].
        injection H as <- <- <-. exfalso.
        apply (Hin (exported_name (dl candidate))); [|exact E2].
        rewrite find_app, E. simpl. rewrite String.eqb_refl. discriminate.
  - rewrite searchCandidate_other by assumption. eauto.
Qed.

Lemma searchLoop_again dl cb cb' : forall libList m found m' found' ev m2 again,
  searchLoop JP_PLUGIN_API json_parse dl cb libList m found = (m', found', ev) ->
  names_within m' m2 ->
  exists ev2,
    searchLoop JP_PLUGIN_API json_parse dl cb' libList m2 again = (m2, again, ev2).
Proof.
  induction libList as [|candidate rest IH]; intros m found m' found' ev m2 again H Hin;
    simpl in *; [eauto|].
  destruct (searchCandidate JP_PLUGIN_API json_parse dl cb candidate m found)
    as [[m1 found1] ev1] eqn:E1.
  destruct (searchLoop JP_PLUGIN_API json_parse dl cb rest m1 found1)
    as [[m3 found3] ev3] eqn:E3.
  injection H as <- <- <-.
  destruct (searchLoop_registry _ _ _ _ _ _ _ _ _ _ E3) as (_ & Hkeep).
  destruct (searchCandidate_again dl cb cb' candidate m found m1 found1 ev1 m2 again E1)
    as (ev' & ->).
  { intros k Hk. apply Hin. destruct (find k m1) as [p|] eqn:Ek; [|contradiction].
    rewrite (Hkeep _ _ Ek). discriminate. }
  destruct (IH _ _ _ _ _ m2 again E3 Hin) as (ev2 & ->). eauto.
Qed.

(** X24.  Searching the same directory again, with the files unchanged,
    registers nothing: the second call leaves the registry, the
    load-order list and the locations as the first call left them, and
    returns [SEARCH_NOTHING_FOUND], or [SEARCH_LISTFILES_ERROR] when the
    scan fails and lists nothing. *)
Theorem searchForPlugins_twice env pluginDir recursive cb cb' st retCode st' tr :
  searchForPlugins JP_PLUGIN_API json_parse env pluginDir recursive cb st =
    (retCode, st', tr) ->
  exists retCode2 tr2,
    searchForPlugins JP_PLUGIN_API json_parse env pluginDir recursive cb' st' =
      (retCode2, st', tr2) /\
    (retCode2 = SEARCH_NOTHING_FOUND \/ retCode2 = SEARCH_LISTFILES_ERROR) /\
    (retCode2 = SEARCH_LISTFILES_ERROR <-> retCode = SEARCH_LISTFILES_ERROR).
Proof.
  intros H.
  destruct (searchForPlugins_cases _ _ _ _ _ _ _ _ _ _ H)
    as [(Hl & -> & -> & ->)|(Hl & m & found & ev & E & -> & Ho & Hm & Ht & Hf)].
  - unfold searchForPlugins. rewrite Hl. simpl.
    eexists _, _. split; [reflexivity|]. split; [auto|]. split; reflexivity.
  - assert (Hrc : retCode <> SEARCH_LISTFILES_ERROR).
    { destruct found.
      - destruct (Ht eq_refl) as (-> & _). discriminate.
      - destruct (Hf eq_refl) as (-> & _). discriminate. }
    destruct (searchLoop_again (dlopen env) cb cb' _ _ _ _ _ _ (pluginsMap st') false E)
      as (ev2 & E2).
    { rewrite Hm. intros k Hk. exact Hk. }
    unfold searchForPlugins.
    destruct (listLibrariesInDir env pluginDir recursive) as [listed libList] eqn:El.
    simpl in E2.
    assert (Hgo : negb listed && match libList with [] => true | _ => false end = false).
    { destruct listed, libList; try reflexivity. contradiction Hl. reflexivity. }
    rewrite Hgo, E2.
    eexists _, _. split; [destruct st'; reflexivity|].
    split; [auto|]. split; [discriminate|]. intros X. contradiction.
Qed.

End DiscoveryTwice.

(** ** Which plugins are loaded *)

Lemma load_order_spec fuel ttc cb st st' tr :
  unique_keys (pluginsMap st) ->
  loadPlugins fuel ttc cb st = Done (SUCCESS, st', tr) ->
  NoDup (loadOrderList st') /\
  (forall k, In k (loadOrderList st') <-> flag (pluginsMap st') k = Some TriTrue).
Proof.
  intros Hnd H.
  destruct (loadPlugins_success _ _ _ _ _ _ H)
    as (m1 & nl & tr1 & nl' & order & m' & tr4 & Ec & Efill & Es & El & -> & ->).
  simpl.
  destruct (checkAll_start _ _ _ _ _ _ _ Hnd Ec) as (Hnd1 & Has & _ & _).
  destruct (fillParents_spec _ _ _ _ Efill) as (Hnames & _).
  assert (Hnames1 : map node_name nl' =
                    keys (filter (fun e => is_true (dependenciesExists (snd e))) m1)).
  { rewrite Hnames. exact (assign_names _ _ _ _ Has). }
  split.
  { apply (sorted_names_NoDup nl'); [|exact Es].
    rewrite Hnames1. apply NoDup_keys_filter. exact Hnd1. }
  destruct (loadAll_spec _ _ _ _ El) as (Hg & _).
  intros k. rewrite (same_view_flag _ _ k (same_graph_view _ _ Hg)).
  destruct (topologicalSort_sound _ _ Es) as (ids & -> & _ & Hids & _).
  assert (Hin : In k (map (fun i => node_name (nth i nl' emptyNode)) ids) <->
                In k (map node_name nl')).
  { split.
    - intros Hk. apply in_map_iff in Hk. destruct Hk as (i & <- & Hi).
      apply in_map. apply nth_In. apply Hids. exact Hi.
    - intros Hk. apply in_map_iff in Hk. destruct Hk as (n & <- & Hn).
      destruct (In_nth _ _ emptyNode Hn) as (i & Hi & <-).
      apply in_map_iff. exists i. split; [reflexivity|]. apply Hids. exact Hi. }
  rewrite Hin, Hnames1. unfold keys, flag. split.
  - intros Hk. apply in_map_iff in Hk. destruct Hk as ([k0 p] & <- & He).
    apply filter_In in He. destruct He as (He & Hy). simpl in *.
    rewrite (find_in_unique _ _ _ Hnd1 He). simpl.
    apply is_true_spec in Hy. congruence.
  - destruct (find k m1) as [p|] eqn:Ep; simpl; [|discriminate].
    intros Hy. apply in_map_iff. exists (k, p). split; [reflexivity|].
    apply filter_In. split; [exact (find_in _ _ _ Ep)|].
    simpl. apply is_true_spec. congruence.
Qed.









Lemma fresh_justified m : Forall fresh_record m -> justified m.
Proof.
  intros Hf x Hx. exfalso. unfold flag in Hx.
  destruct (find x m) as [p|] eqn:Ep; [|discriminate].
  apply find_in in Ep. rewrite Forall_forall in Hf.
  destruct (Hf _ Ep) as (_ & _ & Hflag & _). simpl in *. congruence.
Qed.



(** X27.  What was loaded can be unloaded: after a call of [loadPlugins]
    that returned [SUCCESS] on a registry with distinct names,
    [unloadPlugins] returns, without dereferencing a null record, and
    leaves the registry and the locations empty. *)
Theorem load_then_unload_returns fuel tryToContinue cb cb' st st' tr :
  unique_keys (pluginsMap st) ->
  loadPlugins fuel tryToContinue cb st = Done (SUCCESS, st', tr) ->
  exists retCode st'' tr',
    unloadPlugins cb' st' = Done (retCode, st'', tr') /\
    pluginsMap st'' = [] /\ locations st'' = [] /\
    (retCode = SUCCESS \/ retCode = UNLOAD_NOT_ALL).
Proof.
  intros Hnd H.
  destruct (load_order_spec _ _ _ _ _ _ Hnd H) as (Hndo & Horder).
  destruct (unloadPlugins_returns cb' st' Hndo) as (rc & st'' & tr' & E).
  { intros k Hk. apply Horder in Hk. unfold flag in Hk.
    destruct (find k (pluginsMap st')); [discriminate|discriminate]. }
  exists rc, st'', tr'. split; [exact E|].
  destruct (unloadPlugins_empties _ _ _ _ _ E) as (Hm & Hl & _).
  split; [exact Hm|]. split; [exact Hl|].
  unfold unloadPlugins in E.
  destruct (unloadOrdered _ _ _) as [[[m1 a1] t1]| |]; try discriminate.
  destruct (unloadRemaining m1 a1) as [a2 t2].
  destruct a2; injection E as <- _ _; auto.
Qed.

(** ** Strict mode *)




(** ** The codes a callback can receive *)

Lemma callback_codes_app allowed a b :
  callback_codes allowed a -> callback_codes allowed b -> callback_codes allowed (a ++ b).
Proof. intros Ha Hb. apply Forall_app. auto. Qed.

Lemma callback_codes_weaken allowed allowed' tr :
  incl allowed allowed' -> callback_codes allowed tr -> callback_codes allowed' tr.
Proof.
  intros Hi H. eapply Forall_impl; [|exact H]. intros [c d| | | | | |]; simpl; auto.
Qed.

Lemma callback_codes_none tr : callback_codes [] tr -> callbacks_of tr = [].
Proof.
  induction 1 as [|e tr He _ IH]; [reflexivity|].
  destruct e; simpl in *; try exact IH. destruct He.
Qed.

Lemma callback_codes_given (cb : bool) allowed tr :
  callback_codes (if cb then allowed else []) tr ->
  callback_codes allowed tr /\ (cb = false -> callbacks_of tr = []).
Proof.
  intros H. split.
  - apply (callback_codes_weaken (if cb then allowed else [])); [|exact H].
    destruct cb; [apply incl_refl|apply incl_nil_l].
  - intros ->. exact (callback_codes_none _ H).
Qed.

Lemma callback_codes_callback allowed (cb : bool) code detail :
  In code allowed ->
  callback_codes (if cb then allowed else []) (callback cb code detail).
Proof. intros H. destruct cb; simpl; repeat constructor. exact H. Qed.

Lemma unloadPlugin_quiet allowed plugin unloaded plugin' ev :
  unloadPlugin plugin = (unloaded, plugin', ev) ->
  callback_codes allowed (ev ++ destroyPlugin plugin').
Proof.
  unfold unloadPlugin, destroyPlugin, unload, isLoaded.
  destruct plugin as [ip cr [lp [f|] n] pth inf fl gid]; simpl.
  - destruct n as [|n]; intros H; injection H as <- <- <-; simpl.
    + destruct ip; repeat constructor.
    + destruct n; destruct ip; repeat constructor.
  - intros H. injection H as <- <- <-. simpl. destruct ip; repeat constructor.
Qed.

Lemma unloadOrdered_quiet allowed : forall names m all m' all' tr,
  unloadOrdered names m all = Done (m', all', tr) -> callback_codes allowed tr.
Proof.
  induction names as [|key rest IH]; intros m all m' all' tr H; simpl in H.
  - injection H as <- <- <-. constructor.
  - destruct (find key m) as [plugin|]; [|discriminate].
    destruct (unloadPlugin plugin) as [[unloaded plugin'] ev] eqn:Eu.
    destruct (unloadOrdered rest (erase key m) (all && unloaded))
      as [[[m2 all2] tr2]| |] eqn:Er; try discriminate.
    injection H as <- <- <-. rewrite app_assoc.
    apply callback_codes_app; [exact (unloadPlugin_quiet _ _ _ _ _ Eu)|].
    exact (IH _ _ _ _ _ Er).
Qed.

Lemma unloadRemaining_quiet allowed : forall m all all' tr,
  unloadRemaining m all = (all', tr) -> callback_codes allowed tr.
Proof.
  induction m as [|[k plugin] rest IH]; intros all all' tr H; simpl in H.
  - injection H as <- <-. constructor.
  - destruct (unloadPlugin plugin) as [[unloaded plugin'] ev] eqn:Eu.
    destruct (unloadRemaining rest (all && unloaded)) as [all2 tr2] eqn:Er.
    injection H as <- <-. rewrite app_assoc.
    apply callback_codes_app; [exact (unloadPlugin_quiet _ _ _ _ _ Eu)|].
    exact (IH _ _ _ Er).
Qed.

Lemma checkDependencies_codes fuel (cb : bool) k m rc m' tr :
  checkDependencies fuel cb k m = Done (rc, m', tr) ->
  callback_codes (if cb then [LOAD_DEPENDENCY_NOT_FOUND; LOAD_DEPENDENCY_BAD_VERSION]
                  else []) tr.
Proof.
  intros H. destruct (checkDependencies_report _ _ _ _ _ _ _ H)
    as [(_ & -> & _)|(Hcode & [(-> & _)|(x & p & _ & _ & _ & _ & ->)])];
    try constructor.
  apply callback_codes_callback. destruct Hcode as [-> | ->]; simpl; auto.
Qed.

Lemma checkAll_codes fuel ttc (cb : bool) : forall todo m nl tr0 early m1 nl1 tr1,
  checkAll fuel ttc cb todo m nl tr0 = Done (early, m1, nl1, tr1) ->
  callback_codes (if cb then [LOAD_DEPENDENCY_NOT_FOUND; LOAD_DEPENDENCY_BAD_VERSION]
                  else []) tr0 ->
  callback_codes (if cb then [LOAD_DEPENDENCY_NOT_FOUND; LOAD_DEPENDENCY_BAD_VERSION]
                  else []) tr1.
Proof.
  induction todo as [|key rest IH]; intros m nl tr0 early m1 nl1 tr1 H H0; simpl in H.
  - injection H as <- <- <- <-. exact H0.
  - destruct (checkDependencies fuel cb key (update key (set_graphId (-1)) m))
      as [[[rc1 ma] ta]| |] eqn:Ec; try discriminate.
    pose proof (callback_codes_app _ _ _ H0 (checkDependencies_codes _ _ _ _ _ _ _ Ec))
      as Ha.
    destruct (negb ttc && negb (to_bool rc1)).
    + injection H as <- <- <- <-. exact Ha.
    + destruct (find key ma) as [plugin|]; [|discriminate].
      destruct (is_true (dependenciesExists plugin)); exact (IH _ _ _ _ _ _ _ H Ha).
Qed.

Lemma creation_events_quiet allowed names : callback_codes allowed (creation_events names).
Proof. induction names; simpl; repeat constructor. exact IHnames. Qed.

Lemma loadPlugins_codes fuel ttc (cb : bool) st rc st' tr :
  loadPlugins fuel ttc cb st = Done (rc, st', tr) ->
  callback_codes (if cb then [LOAD_DEPENDENCY_NOT_FOUND; LOAD_DEPENDENCY_BAD_VERSION;
                               LOAD_DEPENDENCY_CYCLE] else []) tr.
Proof.
  unfold loadPlugins. intros H.
  destruct (checkAll fuel ttc cb (keys (pluginsMap st)) (pluginsMap st) [] [])
    as [[[[early m1] nl] tr1]| |] eqn:Ec; try discriminate.
  assert (H1 : callback_codes
                 (if cb then [LOAD_DEPENDENCY_NOT_FOUND; LOAD_DEPENDENCY_BAD_VERSION;
                              LOAD_DEPENDENCY_CYCLE] else []) tr1).
  { apply (callback_codes_weaken
             (if cb then [LOAD_DEPENDENCY_NOT_FOUND; LOAD_DEPENDENCY_BAD_VERSION]
              else [])).
    - destruct cb; [|apply incl_refl]. intros c [<-|[<-|[]]]; simpl; auto.
    - exact (checkAll_codes _ _ _ _ _ _ _ _ _ _ _ Ec (Forall_nil _)). }
  destruct early as [rc0|]; [injection H as <- <- <-; exact H1|].
  destruct (fillParents m1 m1 nl) as [nl'| |]; try discriminate.
  destruct (Graph.topologicalSort nl') as [order error].
  destruct error.
  - injection H as <- <- <-. apply callback_codes_app; [exact H1|].
    apply callback_codes_callback. simpl. auto.
  - destruct (loadAll order m1) as [[m' tr']| |] eqn:El; try discriminate.
    injection H as <- <- <-. apply callback_codes_app; [exact H1|].
    destruct (loadAll_events _ _ _ _ El) as (-> & _). apply creation_events_quiet.
Qed.

Lemma unloadPlugins_codes (cb : bool) st rc st' tr :
  unloadPlugins cb st = Done (rc, st', tr) ->
  callback_codes (if cb then [UNLOAD_NOT_ALL] else []) tr.
Proof.
  unfold unloadPlugins. intros H.
  destruct (unloadOrdered (rev (loadOrderList st)) (pluginsMap st) true)
    as [[[m1 all1] tr1]| |] eqn:Eo; try discriminate.
  destruct (unloadRemaining m1 all1) as [all2 tr2] eqn:Er.
  pose proof (unloadOrdered_quiet (if cb then [UNLOAD_NOT_ALL] else []) _ _ _ _ _ _ Eo)
    as H1.
  pose proof (unloadRemaining_quiet (if cb then [UNLOAD_NOT_ALL] else []) _ _ _ _ Er)
    as H2.
  destruct all2; injection H as <- <- <-.
  - apply callback_codes_app; assumption.
  - apply callback_codes_app; [exact H1|]. apply callback_codes_app; [exact H2|].
    apply callback_codes_callback. simpl. auto.
Qed.

Section CallbackCodes.

Variable JP_PLUGIN_API : string.
Variable json_parse : string -> option json.

Lemma rejected_events_quiet allowed candidate f :
  callback_codes allowed (rejected_events candidate f).
Proof. unfold rejected_events. destruct (unload_refusals f); repeat constructor. Qed.

Lemma rejected_codes allowed (cb : bool) code detail candidate f :
  In code allowed ->
  callback_codes (if cb then allowed else [])
    (LibLoad candidate :: callback cb code detail ++ rejected_events candidate f).
Proof.
  intros H. constructor; [exact I|].
  apply callback_codes_app;
    [exact (callback_codes_callback _ _ _ _ H)|apply rejected_events_quiet].
Qed.

Lemma searchCandidate_codes dl (cb : bool) candidate m found m' found' ev :
  searchCandidate JP_PLUGIN_API json_parse dl cb candidate m found = (m', found', ev) ->
  callback_codes (if cb then [SEARCH_NAME_ALREADY_EXISTS; SEARCH_CANNOT_PARSE_METADATA]
                  else []) ev.
Proof.
  intros H. destruct (is_plugin_library (dl candidate)) eqn:Hlib.
  - destruct (find (exported_name (dl candidate)) m) eqn:Hf.
    + rewrite searchCandidate_duplicate in H by (assumption || congruence).
      injection H as <- <- <-. apply rejected_codes. simpl. auto.
    + rewrite searchCandidate_new in H by assumption.
      destruct (String.eqb _ ""); injection H as <- <- <-; [|repeat constructor].
      apply rejected_codes. simpl. auto.
  - rewrite searchCandidate_other in H by assumption. injection H as <- <- <-.
    destruct (loadable (dl candidate)); [|constructor].
    constructor; [exact I|apply rejected_events_quiet].
Qed.

Lemma searchLoop_codes dl (cb : bool) : forall libList m found m' found' ev,
  searchLoop JP_PLUGIN_API json_parse dl cb libList m found = (m', found', ev) ->
  callback_codes (if cb then [SEARCH_NAME_ALREADY_EXISTS; SEARCH_CANNOT_PARSE_METADATA]
                  else []) ev.
Proof.
  induction libList as [|candidate rest IH]; intros m found m' found' ev H; simpl in H.
  - injection H as <- <- <-. constructor.
  - destruct (searchCandidate JP_PLUGIN_API json_parse dl cb candidate m found)
      as [[m1 found1] ev1] eqn:E1.
    destruct (searchLoop JP_PLUGIN_API json_parse dl cb rest m1 found1)
      as [[m2 found2] ev2] eqn:E2.
    injection H as <- <- <-.
    apply callback_codes_app;
      [exact (searchCandidate_codes _ _ _ _ _ _ _ _ E1)|exact (IH _ _ _ _ _ E2)].
Qed.

Lemma searchForPlugins_codes env pluginDir recursive (cb : bool) st retCode st' tr :
  searchForPlugins JP_PLUGIN_API json_parse env pluginDir recursive cb st =
    (retCode, st', tr) ->
  callback_codes (if cb then [SEARCH_LISTFILES_ERROR; SEARCH_NAME_ALREADY_EXISTS;
                               SEARCH_CANNOT_PARSE_METADATA] else []) tr.
Proof.
  intros H.
  destruct (searchForPlugins_cases JP_PLUGIN_API json_parse _ _ _ _ _ _ _ _ H)
    as [(_ & _ & _ & ->)|(_ & m & found & ev & El & -> & _)].
  - apply callback_codes_callback. simpl. auto.
  - apply callback_codes_app.
    + destruct (fst (listLibrariesInDir env pluginDir recursive)); [constructor|].
      apply callback_codes_callback. simpl. auto.
    + apply (callback_codes_weaken
               (if cb then [SEARCH_NAME_ALREADY_EXISTS; SEARCH_CANNOT_PARSE_METADATA]
                else [])).
      * destruct cb; [|apply incl_refl]. intros c [<-|[<-|[]]]; simpl; auto.
      * exact (searchLoop_codes _ _ _ _ _ _ _ _ El).
Qed.

(** X29.  Each operation calls the callback only with codes of its own,
    and never with [SUCCESS]: [searchForPlugins] with
    [SEARCH_LISTFILES_ERROR], [SEARCH_NAME_ALREADY_EXISTS] or
    [SEARCH_CANNOT_PARSE_METADATA]; [loadPlugins] with
    [LOAD_DEPENDENCY_NOT_FOUND], [LOAD_DEPENDENCY_BAD_VERSION] or
    [LOAD_DEPENDENCY_CYCLE]; [unloadPlugins] with [UNLOAD_NOT_ALL].  When
    no callback is given, no callback is made. *)
Theorem callbacks_by_operation :
  (forall env pluginDir recursive cb st retCode st' tr,
     searchForPlugins JP_PLUGIN_API json_parse env pluginDir recursive cb st =
       (retCode, st', tr) ->
     callback_codes [SEARCH_LISTFILES_ERROR; SEARCH_NAME_ALREADY_EXISTS;
                     SEARCH_CANNOT_PARSE_METADATA] tr /\
     (cb = false -> callbacks_of tr = [])) /\
  (forall fuel tryToContinue cb st retCode st' tr,
     loadPlugins fuel tryToContinue cb st = Done (retCode, st', tr) ->
     callback_codes [LOAD_DEPENDENCY_NOT_FOUND; LOAD_DEPENDENCY_BAD_VERSION;
                     LOAD_DEPENDENCY_CYCLE] tr /\
     (cb = false -> callbacks_of tr = [])) /\
  (forall cb st retCode st' tr,
     unloadPlugins cb st = Done (retCode, st', tr) ->
     callback_codes [UNLOAD_NOT_ALL] tr /\
     (cb = false -> callbacks_of tr = [])).
Proof.
  split; [|split].
  - intros env pluginDir recursive cb st retCode st' tr H.
    apply callback_codes_given. exact (searchForPlugins_codes _ _ _ _ _ _ _ _ H).
  - intros fuel tryToContinue cb st retCode st' tr H.
    apply callback_codes_given. exact (loadPlugins_codes _ _ _ _ _ _ _ H).
  - intros cb st retCode st' tr H.
    apply callback_codes_given. exact (unloadPlugins_codes _ _ _ _ _ H).
Qed.

End CallbackCodes.

(** ** Requests *)

Section RequestProofs.

Variable RequestData : Type.
Variable plugin_handleRequest : IPlugin -> string -> Z -> RequestData -> Z.

(** X25.  A request is forwarded to a plugin exactly when
    [isPluginLoaded] holds for the receiver: the manager then returns
    what the plugin object of the receiver returns.  It returns 0 when
    the receiver is not registered or its plugin is not loaded, and when
    the receiver is the null pointer.  So after a call of [loadPlugins]
    that returned [SUCCESS], a request to a plugin loaded by that call
    reaches the object created for it, and after [unloadPlugins] every
    request returns 0. *)
Theorem handleRequest_reaches_loaded_plugins st sender receiver code data :
  handleRequest RequestData plugin_handleRequest st sender None code data = 0%Z /\
  (isPluginLoaded st (c_str receiver) = false ->
   handleRequest RequestData plugin_handleRequest st sender (Some receiver) code data =
     0%Z) /\
  (isPluginLoaded st (c_str receiver) = true ->
   exists p i,
     find (c_str receiver) (pluginsMap st) = Some p /\ iplugin p = Some i /\
     handleRequest RequestData plugin_handleRequest st sender (Some receiver) code data =
       plugin_handleRequest i sender code data) /\
  (forall fuel tryToContinue cb st' tr,
     loadPlugins fuel tryToContinue cb st = Done (SUCCESS, st', tr) ->
     In (c_str receiver) (loaded_of tr) ->
     handleRequest RequestData plugin_handleRequest st' sender (Some receiver) code data =
       plugin_handleRequest (instance_of (c_str receiver)) sender code data) /\
  (forall cb retCode st' tr,
     unloadPlugins cb st = Done (retCode, st', tr) ->
     handleRequest RequestData plugin_handleRequest st' sender (Some receiver) code data =
       0%Z).
Proof.
  split; [reflexivity|]. split; [|split; [|split]].
  - unfold handleRequest, isPluginLoaded, hasPlugin, count.
    destruct (find (c_str receiver) (pluginsMap st)) as [p|]; simpl; [|reflexivity].
    destruct (isLoaded (lib p)); simpl; [|reflexivity].
    destruct (iplugin p); [discriminate|reflexivity].
  - unfold handleRequest, isPluginLoaded, hasPlugin, count.
    destruct (find (c_str receiver) (pluginsMap st)) as [p|]; simpl; [|discriminate].
    destruct (isLoaded (lib p)); simpl; [|discriminate].
    destruct (iplugin p) as [i|] eqn:Ei; [|discriminate].
    intros _. exists p, i. auto.
  - intros fuel ttc cb st' tr H Hin.
    destruct (loadPlugins_success _ _ _ _ _ _ H)
      as (m1 & nl & tr1 & nl' & order & m' & tr4 & Ec & _ & _ & El & -> & ->).
    destruct (checkAll_generic _ _ _ _ _ _ _ _ _ _ _ Ec) as (_ & (t & Et & Ht) & _).
    simpl in Et. subst tr1.
    destruct (callbacks_not_loaded _ Ht) as (Hl0 & _).
    rewrite loaded_of_app, Hl0 in Hin. simpl in Hin.
    destruct (loadAll_events _ _ _ _ El) as (_ & Hnew & _).
    destruct (Hnew _ Hin) as (_ & _ & p' & Hp' & Hlib & Hi).
    unfold handleRequest. simpl. rewrite Hp', Hlib, Hi. reflexivity.
  - intros cb retCode st' tr H.
    destruct (unloadPlugins_empties _ _ _ _ _ H) as (Hm & _).
    unfold handleRequest. rewrite Hm. reflexivity.
Qed.

End RequestProofs.

End Manager.

(** * Examples: the theorems at the sample registries *)

Ltac distinct_keys :=
  unfold unique_keys; simpl;
  repeat (constructor;
          [simpl; intros H; repeat (destruct H as [H|H]; [discriminate|]); exact H|]);
  constructor.

(** S1: the linear chain A -> B -> C is loaded in the order C, B, A. *)
Lemma load_order_witness :
  unique_keys (pluginsMap chain_registry) /\
  loadPlugins sample_compatible 3 true true chain_registry =
    Done (SUCCESS, chain_loaded, chain_events) /\
  before "B" "A" (loadOrderList chain_loaded) /\
  loaded_of chain_events = ["C"; "B"; "A"] /\
  before "B" "A" (loaded_of chain_events).
Proof.
  assert (Hnd : unique_keys (pluginsMap chain_registry)) by distinct_keys.
  assert (E : loadPlugins sample_compatible 3 true true chain_registry =
              Done (SUCCESS, chain_loaded, chain_events)) by reflexivity.
  destruct (load_order_respects_dependencies sample_compatible 3 true true
              chain_registry chain_loaded chain_events "A" "B" _ _
              Hnd E eq_refl eq_refl eq_refl eq_refl (or_introl eq_refl))
    as (Hbefore & Hloaded & Hboth & _).
  split; [exact Hnd|]. split; [exact E|]. split; [exact Hbefore|].
  split; [exact Hloaded|]. apply Hboth; reflexivity.
Defined.

(** Loading the chain a second time changes nothing. *)
Lemma second_load_witness :
  unique_keys (pluginsMap chain_registry) /\
  loadPlugins sample_compatible 3 true true chain_registry =
    Done (SUCCESS, chain_loaded, chain_events) /\
  exists F, forall fuel2 tryToContinue2 cb2, F <= fuel2 ->
    exists retCode,
      loadPlugins sample_compatible fuel2 tryToContinue2 cb2 chain_loaded =
        Done (retCode, chain_loaded, []) /\
      (tryToContinue2 = true -> retCode = SUCCESS) /\
      (retCode <> SUCCESS -> to_bool retCode = false /\ tryToContinue2 = false).
Proof.
  assert (Hnd : unique_keys (pluginsMap chain_registry)) by distinct_keys.
  assert (E : loadPlugins sample_compatible 3 true true chain_registry =
              Done (SUCCESS, chain_loaded, chain_events)) by reflexivity.
  split; [exact Hnd|]. split; [exact E|].
  exact (second_load_changes_nothing sample_compatible 3 true true
           chain_registry chain_loaded chain_events Hnd E).
Defined.

(** C2.  S4: on the registry A(deps: B), B(deps: A), as discovery leaves
    it, [loadPlugins] does not return: at every bound on the recursion
    depth the dependency check is still calling itself, so neither
    [LOAD_DEPENDENCY_CYCLE] nor any other code is returned. *)
Theorem mutual_dependency_never_returns :
  forall fuel tryToContinue cb,
    loadPlugins sample_compatible fuel tryToContinue cb cycle_registry = OutOfFuel.
Proof.
  intros fuel tryToContinue cb.
  assert (H : checkAll sample_compatible fuel tryToContinue cb
                (keys (pluginsMap cycle_registry)) (pluginsMap cycle_registry) [] [] =
              OutOfFuel).
  { change (keys (pluginsMap cycle_registry)) with ["A"; "B"].
    cbn [checkAll].
    destruct (checkDependencies_mutual_dependency sample_compatible cb "A" "B"
                (update "A" (set_graphId (-1)) (pluginsMap cycle_registry))
                _ _ _ _ _ _ eq_refl eq_refl eq_refl eq_refl eq_refl eq_refl eq_refl
                eq_refl eq_refl eq_refl fuel) as (HA & _).
    rewrite HA. reflexivity. }
  unfold loadPlugins. rewrite H. reflexivity.
Qed.

(** C3.  [checkDependencies] does not terminate on a registry whose
    dependency declarations form a cycle: on the registry whose only plugin
    declares itself as a dependency, and on the registry in which A and B
    declare each other, the check of any of these records is still calling
    itself at every bound on the recursion depth. *)
Theorem self_dependency_never_returns :
  forall fuel cb,
    checkDependencies sample_compatible fuel cb "A" (pluginsMap self_registry) =
      OutOfFuel /\
    checkDependencies sample_compatible fuel cb "A" (pluginsMap cycle_registry) =
      OutOfFuel /\
    checkDependencies sample_compatible fuel cb "B" (pluginsMap cycle_registry) =
      OutOfFuel.
Proof.
  intros fuel cb. split.
  - exact (checkDependencies_self_dependency sample_compatible cb "A"
             (pluginsMap self_registry) _ _ _ eq_refl eq_refl eq_refl eq_refl eq_refl
             fuel).
  - exact (checkDependencies_mutual_dependency sample_compatible cb "A" "B"
             (pluginsMap cycle_registry) _ _ _ _ _ _ eq_refl eq_refl eq_refl eq_refl
             eq_refl eq_refl eq_refl eq_refl eq_refl eq_refl fuel).
Qed.

(** C4.  S2: A declares the dependency B, which is not in the registry.
    The first check of A returns [LOAD_DEPENDENCY_NOT_FOUND] and sets the
    flag to false; every later check of A returns
    [LOAD_DEPENDENCY_BAD_VERSION], although B is still absent, and so does
    a strict [loadPlugins] after a tolerant one. *)
Theorem memo_reports_bad_version :
  find "B" (pluginsMap missing_registry) = None /\
  checkDependencies sample_compatible 1 true "A" (pluginsMap missing_registry) =
    Done (LOAD_DEPENDENCY_NOT_FOUND, pluginsMap missing_checked,
          [Callback LOAD_DEPENDENCY_NOT_FOUND (Some "/p/libA.so")]) /\
  (forall fuel cb,
     checkDependencies sample_compatible (S fuel) cb "A" (pluginsMap missing_checked) =
       Done (LOAD_DEPENDENCY_BAD_VERSION, pluginsMap missing_checked, [])) /\
  loadPlugins sample_compatible 1 true true missing_registry =
    Done (SUCCESS, missing_checked,
          [Callback LOAD_DEPENDENCY_NOT_FOUND (Some "/p/libA.so")]) /\
  loadPlugins sample_compatible 1 false true missing_registry =
    Done (LOAD_DEPENDENCY_NOT_FOUND, missing_checked,
          [Callback LOAD_DEPENDENCY_NOT_FOUND (Some "/p/libA.so")]) /\
  loadPlugins sample_compatible 1 false true missing_checked =
    Done (LOAD_DEPENDENCY_BAD_VERSION, missing_checked, []).
Proof.
  split; [reflexivity|]. split; [reflexivity|]. split.
  - intros fuel cb.
    apply (checkDependencies_memo_false sample_compatible fuel cb "A"
             (pluginsMap missing_checked) _ eq_refl eq_refl).
    discriminate.
  - split; [reflexivity|]. split; reflexivity.
Qed.

(** S5: searching the directory that holds two libraries exporting the
    name A registers the first and rejects the second. *)
Lemma search_duplicate_witness :
  unique_keys
    (pluginsMap
       (searchAll sample_compatible "1.0.0" sample_json_parse
          [(sample_env, "/p", false, true); (sample_env, "/q", false, false);
           (sample_env, "/p", true, true)]
          emptyManager)) /\
  searchCandidate sample_compatible "1.0.0" sample_json_parse sample_dlopen true
    "/p/copyA.so" (pluginsMap found_in_p) true =
    (pluginsMap found_in_p, true,
     [LibLoad "/p/copyA.so";
      Callback SEARCH_NAME_ALREADY_EXISTS (Some "/p/copyA.so");
      LibUnload "/p/copyA.so" true]) /\
  find "A" (pluginsMap found_in_p) =
    Some (discovered "/p/libA.so" (sample_dlopen "/p/libA.so")
            (sample_info "A" "1.0.0" [])).
Proof.
  destruct (search_keeps_names_unique sample_compatible "1.0.0" sample_json_parse)
    as (Hall & Hone).
  split; [apply Hall|].
  destruct (Hone sample_env "/p" false true emptyManager SUCCESS found_in_p
              [LibLoad "/p/libA.so"; LibLoad "/p/copyA.so";
               Callback SEARCH_NAME_ALREADY_EXISTS (Some "/p/copyA.so");
               LibUnload "/p/copyA.so" true] eq_refl) as (_ & _ & Hdup).
  destruct (Hdup true ["/p/libA.so"] "/p/copyA.so" [] (pluginsMap found_in_p) true
              [LibLoad "/p/libA.so"]
              (discovered "/p/libA.so" (sample_dlopen "/p/libA.so")
                 (sample_info "A" "1.0.0" []))
              eq_refl eq_refl eq_refl eq_refl) as (Hcand & _ & Hkept).
  split; [exact Hcand|exact Hkept].
Defined.

(** C6 as stated fails: the library of S refuses to be unloaded, by
    [unloadPlugin] and again by the destructor of its record, so
    [unloadPlugins] returns [UNLOAD_NOT_ALL] with an empty registry while
    the image of [/s/libS.so] is still loaded. *)
Lemma refused_unload_stays_loaded :
  searchForPlugins sample_compatible "1.0.0" sample_json_parse sample_env "/s" false true
    emptyManager = (SUCCESS, found_in_s, [LibLoad "/s/libS.so"]) /\
  unloadPlugins true found_in_s =
    Done (UNLOAD_NOT_ALL, mkPlugMgrPrivate [] [] [],
          [LibUnload "/s/libS.so" false; LibUnload "/s/libS.so" false;
           Leaked "/s/libS.so"; Callback UNLOAD_NOT_ALL None]) /\
  leaked_of [LibUnload "/s/libS.so" false; LibUnload "/s/libS.so" false;
             Leaked "/s/libS.so"; Callback UNLOAD_NOT_ALL None] = ["/s/libS.so"].
Proof.
  split; [reflexivity|]. split; reflexivity.
Qed.

(** Unloading the loaded chain: A, B, C are notified in this order, every
    image is released and the code is [SUCCESS]. *)
Lemma unload_chain_witness :
  unloadPlugins true chain_loaded =
    Done (SUCCESS, chain_unloaded,
          [AboutToBeUnloaded (instance_of "A"); LibUnload "/p/libA.so" true;
           AboutToBeUnloaded (instance_of "B"); LibUnload "/p/libB.so" true;
           AboutToBeUnloaded (instance_of "C"); LibUnload "/p/libC.so" true]) /\
  about_of [AboutToBeUnloaded (instance_of "A"); LibUnload "/p/libA.so" true;
            AboutToBeUnloaded (instance_of "B"); LibUnload "/p/libB.so" true;
            AboutToBeUnloaded (instance_of "C"); LibUnload "/p/libC.so" true] =
    instances_of (pluginsMap chain_loaded) (rev (loadOrderList chain_loaded)) ++
    entry_instances (remaining (rev (loadOrderList chain_loaded))
                       (pluginsMap chain_loaded)) /\
  pluginsMap chain_unloaded = [] /\ locations chain_unloaded = [] /\
  leaked_of [AboutToBeUnloaded (instance_of "A"); LibUnload "/p/libA.so" true;
             AboutToBeUnloaded (instance_of "B"); LibUnload "/p/libB.so" true;
             AboutToBeUnloaded (instance_of "C"); LibUnload "/p/libC.so" true] = [].
Proof.
  assert (E : unloadPlugins true chain_loaded =
              Done (SUCCESS, chain_unloaded,
                    [AboutToBeUnloaded (instance_of "A"); LibUnload "/p/libA.so" true;
                     AboutToBeUnloaded (instance_of "B"); LibUnload "/p/libB.so" true;
                     AboutToBeUnloaded (instance_of "C"); LibUnload "/p/libC.so" true]))
    by reflexivity.
  destruct (unloadPlugins_releases_on_success true chain_loaded _ _ _ E)
    as (Habout & Hmap & Hloc & _ & Hok & _).
  split; [exact E|]. split; [exact Habout|]. split; [exact Hmap|].
  split; [exact Hloc|]. exact (proj1 (Hok eq_refl)).
Defined.

(** C8 as stated fails: the library [/q/libX.so] is registered under its
    [jp_name] x while its accepted descriptor declares the name y, so
    [pluginInfo] applied to the name of the descriptor returns the empty
    snapshot. *)
Lemma descriptor_name_is_not_the_key :
  parseMetadata sample_compatible "1.0.0" sample_json_parse "descriptor of y" =
    sample_info "y" "1.0.0" [] /\
  searchForPlugins sample_compatible "1.0.0" sample_json_parse sample_env "/q" false true
    emptyManager = (SUCCESS, found_in_q, [LibLoad "/q/libX.so"]) /\
  pluginInfo found_in_q (name (sample_info "y" "1.0.0" [])) = nullInfo /\
  ~ snapshot_of (sample_info "y" "1.0.0" [])
      (pluginInfo found_in_q (name (sample_info "y" "1.0.0" []))).
Proof.
  split; [reflexivity|]. split; [reflexivity|]. split; [reflexivity|].
  intros (Hname & _). discriminate Hname.
Qed.

(** The library [/p/libA.so] exports the name its descriptor declares:
    [pluginInfo] returns the declared fields. *)
Lemma pluginInfo_witness :
  searchForPlugins sample_compatible "1.0.0" sample_json_parse sample_env "/p" false true
    emptyManager =
    (SUCCESS, found_in_p,
     [LibLoad "/p/libA.so"; LibLoad "/p/copyA.so";
      Callback SEARCH_NAME_ALREADY_EXISTS (Some "/p/copyA.so");
      LibUnload "/p/copyA.so" true]) /\
  (exists tree,
     sample_json_parse "descriptor of A" = Some tree /\
     declares tree (sample_info "A" "1.0.0" [])) /\
  snapshot_of (sample_info "A" "1.0.0" []) (pluginInfo found_in_p "A").
Proof.
  assert (E : searchForPlugins sample_compatible "1.0.0" sample_json_parse sample_env
                "/p" false true emptyManager =
              (SUCCESS, found_in_p,
               [LibLoad "/p/libA.so"; LibLoad "/p/copyA.so";
                Callback SEARCH_NAME_ALREADY_EXISTS (Some "/p/copyA.so");
                LibUnload "/p/copyA.so" true])) by reflexivity.
  assert (Hacc : name (parseMetadata sample_compatible "1.0.0" sample_json_parse
                         (exported_metadata (dlopen sample_env "/p/libA.so"))) <> "")
    by discriminate.
  destruct (pluginInfo_returns_descriptor sample_compatible "1.0.0" sample_json_parse
              sample_env "/p" false true emptyManager _ _ _ true [] "/p/libA.so"
              ["/p/copyA.so"] [] false [] E eq_refl eq_refl eq_refl eq_refl Hacc)
    as (Htree & _ & Hsame).
  split; [exact E|]. split; [exact Htree|]. exact (Hsame eq_refl).
Defined.

(** C9 as stated fails: the rejected copy of A is unloaded when its
    candidate record is destroyed at the end of the iteration, and no
    image is left loaded without a record. *)
Lemma rejected_duplicate_not_leaked :
  searchForPlugins sample_compatible "1.0.0" sample_json_parse sample_env "/p" false true
    emptyManager =
    (SUCCESS, found_in_p,
     [LibLoad "/p/libA.so"; LibLoad "/p/copyA.so";
      Callback SEARCH_NAME_ALREADY_EXISTS (Some "/p/copyA.so");
      LibUnload "/p/copyA.so" true]) /\
  leaked_of [LibLoad "/p/libA.so"; LibLoad "/p/copyA.so";
             Callback SEARCH_NAME_ALREADY_EXISTS (Some "/p/copyA.so");
             LibUnload "/p/copyA.so" true] = [].
Proof.
  split; reflexivity.
Qed.

(** The rejected copy of A: load, callback, unload. *)
Lemma rejected_duplicate_witness :
  find (exported_name (dlopen sample_env "/p/copyA.so")) (pluginsMap found_in_p) <> None /\
  (exists earlier later,
     [LibLoad "/p/libA.so"; LibLoad "/p/copyA.so";
      Callback SEARCH_NAME_ALREADY_EXISTS (Some "/p/copyA.so");
      LibUnload "/p/copyA.so" true] =
     earlier ++
     ([LibLoad "/p/copyA.so"] ++
      callback true SEARCH_NAME_ALREADY_EXISTS (Some (c_str "/p/copyA.so")) ++
      rejected_events "/p/copyA.so" (dlopen sample_env "/p/copyA.so")) ++
     later) /\
  rejected_events "/p/copyA.so" (dlopen sample_env "/p/copyA.so") =
    [LibUnload "/p/copyA.so" true].
Proof.
  assert (Hdup : find (exported_name (dlopen sample_env "/p/copyA.so"))
                   (pluginsMap found_in_p) <> None) by discriminate.
  destruct (rejected_duplicate_is_unloaded sample_compatible "1.0.0" sample_json_parse
              sample_env "/p" false true emptyManager SUCCESS found_in_p
              [LibLoad "/p/libA.so"; LibLoad "/p/copyA.so";
               Callback SEARCH_NAME_ALREADY_EXISTS (Some "/p/copyA.so");
               LibUnload "/p/copyA.so" true]
              true ["/p/libA.so"] "/p/copyA.so" [] (pluginsMap found_in_p) true
              [LibLoad "/p/libA.so"] eq_refl eq_refl eq_refl eq_refl Hdup)
    as (Hevents & Hreleased & _).
  split; [exact Hdup|]. split; [exact Hevents|]. exact (Hreleased eq_refl).
Defined.

(** Unloading the loaded chain twice: the first call returns and keeps the
    load order, the second dereferences a null record pointer. *)
Lemma unload_twice_witness :
  unloadPlugins true chain_loaded =
    Done (SUCCESS, chain_unloaded,
          [AboutToBeUnloaded (instance_of "A"); LibUnload "/p/libA.so" true;
           AboutToBeUnloaded (instance_of "B"); LibUnload "/p/libB.so" true;
           AboutToBeUnloaded (instance_of "C"); LibUnload "/p/libC.so" true]) /\
  loadOrderList chain_unloaded = loadOrderList chain_loaded /\
  forall cb', unloadPlugins cb' chain_unloaded = Fault NullDeref.
Proof.
  assert (E : unloadPlugins true chain_loaded =
              Done (SUCCESS, chain_unloaded,
                    [AboutToBeUnloaded (instance_of "A"); LibUnload "/p/libA.so" true;
                     AboutToBeUnloaded (instance_of "B"); LibUnload "/p/libB.so" true;
                     AboutToBeUnloaded (instance_of "C"); LibUnload "/p/libC.so" true]))
    by reflexivity.
  destruct (unloadPlugins_twice_dereferences_null true chain_loaded) as (_ & _ & Hlater).
  destruct (Hlater _ _ _ E) as (Hkept & _ & Hnull).
  split; [exact E|]. split; [exact Hkept|]. apply Hnull. discriminate.
Defined.

(** * Examples: the further properties at the sample registries *)

(** The scan of a directory that does not exist fails and lists nothing. *)
Lemma listing_error_witness :
  searchForPlugins sample_compatible "1.0.0" sample_json_parse sample_env "/none"
    false true emptyManager =
    (SEARCH_LISTFILES_ERROR, emptyManager,
     [Callback SEARCH_LISTFILES_ERROR (Some "No such file or directory")]) /\
  listLibrariesInDir sample_env "/none" false = (false, []).
Proof.
  assert (E : searchForPlugins sample_compatible "1.0.0" sample_json_parse sample_env
                "/none" false true emptyManager =
              (SEARCH_LISTFILES_ERROR, emptyManager,
               [Callback SEARCH_LISTFILES_ERROR (Some "No such file or directory")]))
    by reflexivity.
  destruct (searchForPlugins_listing_error sample_compatible "1.0.0" sample_json_parse
              sample_env "/none" false true emptyManager _ _ _ E) as (Hiff & _).
  split; [exact E|]. exact (proj1 Hiff eq_refl).
Defined.


(** Searching [/p] loads both files and unloads the copy. *)
Lemma library_handles_witness :
  searchForPlugins sample_compatible "1.0.0" sample_json_parse sample_env "/p"
    false true emptyManager =
    (SUCCESS, found_in_p,
     [LibLoad "/p/libA.so"; LibLoad "/p/copyA.so";
      Callback SEARCH_NAME_ALREADY_EXISTS (Some "/p/copyA.so");
      LibUnload "/p/copyA.so" true]) /\
  loads_of [LibLoad "/p/libA.so"; LibLoad "/p/copyA.so";
            Callback SEARCH_NAME_ALREADY_EXISTS (Some "/p/copyA.so");
            LibUnload "/p/copyA.so" true] =
    filter (fun c => loadable (dlopen sample_env c))
           (snd (listLibrariesInDir sample_env "/p" false)).
Proof.
  assert (E : searchForPlugins sample_compatible "1.0.0" sample_json_parse sample_env
                "/p" false true emptyManager =
              (SUCCESS, found_in_p,
               [LibLoad "/p/libA.so"; LibLoad "/p/copyA.so";
                Callback SEARCH_NAME_ALREADY_EXISTS (Some "/p/copyA.so");
                LibUnload "/p/copyA.so" true])) by reflexivity.
  split; [exact E|].
  exact (proj1 (searchForPlugins_library_handles sample_compatible "1.0.0"
                  sample_json_parse sample_env "/p" false true emptyManager _ _ _ E)).
Defined.

(** S2: the first check of A reports the path of A once. *)
Lemma reports_once_witness :
  checkDependencies sample_compatible 1 true "A" (pluginsMap missing_registry) =
    Done (LOAD_DEPENDENCY_NOT_FOUND, pluginsMap missing_checked, missing_events) /\
  length missing_events <= 1.
Proof.
  assert (E : checkDependencies sample_compatible 1 true "A"
                (pluginsMap missing_registry) =
              Done (LOAD_DEPENDENCY_NOT_FOUND, pluginsMap missing_checked,
                    missing_events)) by reflexivity.
  split; [exact E|].
  exact (proj2 (proj2 (proj2 (checkDependencies_reports_once sample_compatible _ _ _ _
                                _ _ _ E)))).
Defined.

(** S2 in strict mode: the dependency error is returned. *)
Lemma return_codes_witness :
  loadPlugins sample_compatible 1 false true missing_registry =
    Done (LOAD_DEPENDENCY_NOT_FOUND, missing_checked, missing_events) /\
  (LOAD_DEPENDENCY_NOT_FOUND = SUCCESS \/
   LOAD_DEPENDENCY_NOT_FOUND = LOAD_DEPENDENCY_CYCLE \/
   (LOAD_DEPENDENCY_NOT_FOUND = LOAD_DEPENDENCY_NOT_FOUND \/
    LOAD_DEPENDENCY_NOT_FOUND = LOAD_DEPENDENCY_BAD_VERSION) /\ false = false).
Proof.
  assert (E : loadPlugins sample_compatible 1 false true missing_registry =
              Done (LOAD_DEPENDENCY_NOT_FOUND, missing_checked, missing_events))
    by reflexivity.
  split; [exact E|].
  exact (loadPlugins_return_codes sample_compatible _ _ _ _ _ _ _ E).
Defined.

(** S2 in strict mode: nothing but the flag of A has changed. *)
Lemma strict_failure_witness :
  loadPlugins sample_compatible 1 false true missing_registry =
    Done (LOAD_DEPENDENCY_NOT_FOUND, missing_checked, missing_events) /\
  loadOrderList missing_checked = loadOrderList missing_registry /\
  locations missing_checked = locations missing_registry /\
  same_static (pluginsMap missing_registry) (pluginsMap missing_checked).
Proof.
  assert (E : loadPlugins sample_compatible 1 false true missing_registry =
              Done (LOAD_DEPENDENCY_NOT_FOUND, missing_checked, missing_events))
    by reflexivity.
  destruct (loadPlugins_strict_failure sample_compatible _ _ _ _ _ _ _ E
              (or_introl eq_refl)) as (Ho & Hl & Hs & _).
  split; [exact E|]. split; [exact Ho|]. split; [exact Hl|exact Hs].
Defined.

(** S1: loading the chain keeps names, libraries, paths and metadata. *)
Lemma keeps_registry_witness :
  loadPlugins sample_compatible 3 true true chain_registry =
    Done (SUCCESS, chain_loaded, chain_events) /\
  same_identity (pluginsMap chain_registry) (pluginsMap chain_loaded) /\
  pluginsList chain_loaded = pluginsList chain_registry.
Proof.
  assert (E : loadPlugins sample_compatible 3 true true chain_registry =
              Done (SUCCESS, chain_loaded, chain_events)) by reflexivity.
  destruct (loadPlugins_keeps_registry sample_compatible _ _ _ _ _ _ _ E)
    as (Hid & Hl & _).
  split; [exact E|]. split; [exact Hid|exact Hl].
Defined.

(** S1: the events of loading the chain are the three creations. *)
Lemma success_events_witness :
  loadPlugins sample_compatible 3 true true chain_registry =
    Done (SUCCESS, chain_loaded, chain_events) /\
  (exists reports,
     chain_events = reports ++ creation_events (loaded_of chain_events) /\
     Forall is_callback reports) /\
  isPluginLoaded chain_loaded "B" = true.
Proof.
  assert (E : loadPlugins sample_compatible 3 true true chain_registry =
              Done (SUCCESS, chain_loaded, chain_events)) by reflexivity.
  destruct (loadPlugins_success_events sample_compatible _ _ _ _ _ _ E)
    as (Hev & Hnew & _).
  split; [exact E|]. split; [exact Hev|].
  apply (Hnew "B"). simpl. auto.
Defined.

(** Unloading the loaded chain releases the library of B. *)
Lemma requests_every_library_witness :
  unloadPlugins true chain_loaded =
    Done (SUCCESS, chain_unloaded,
          [AboutToBeUnloaded (instance_of "A"); LibUnload "/p/libA.so" true;
           AboutToBeUnloaded (instance_of "B"); LibUnload "/p/libB.so" true;
           AboutToBeUnloaded (instance_of "C"); LibUnload "/p/libC.so" true]) /\
  exists released,
    In (LibUnload "/p/libB.so" released)
       [AboutToBeUnloaded (instance_of "A"); LibUnload "/p/libA.so" true;
        AboutToBeUnloaded (instance_of "B"); LibUnload "/p/libB.so" true;
        AboutToBeUnloaded (instance_of "C"); LibUnload "/p/libC.so" true] /\
    (SUCCESS = SUCCESS -> released = true).
Proof.
  assert (E : unloadPlugins true chain_loaded =
              Done (SUCCESS, chain_unloaded,
                    [AboutToBeUnloaded (instance_of "A"); LibUnload "/p/libA.so" true;
                     AboutToBeUnloaded (instance_of "B"); LibUnload "/p/libB.so" true;
                     AboutToBeUnloaded (instance_of "C"); LibUnload "/p/libC.so" true]))
    by reflexivity.
  split; [exact E|].
  exact (unloadPlugins_requests_every_library true chain_loaded _ _ _ "B" _ E
           eq_refl eq_refl).
Defined.

(** Load, unload, search another directory, destroy the manager: the
    destructor dereferences a null pointer; right after the unload it
    does nothing. *)
Lemma stale_load_order_witness :
  unloadPlugins true chain_loaded =
    Done (SUCCESS, chain_unloaded,
          [AboutToBeUnloaded (instance_of "A"); LibUnload "/p/libA.so" true;
           AboutToBeUnloaded (instance_of "B"); LibUnload "/p/libB.so" true;
           AboutToBeUnloaded (instance_of "C"); LibUnload "/p/libC.so" true]) /\
  destroyManager chain_unloaded = Done [] /\
  searchForPlugins sample_compatible "1.0.0" sample_json_parse sample_env "/q"
    false true chain_unloaded = (SUCCESS, stale_registry, [LibLoad "/q/libX.so"]) /\
  destroyManager stale_registry = Fault NullDeref.
Proof.
  assert (E : unloadPlugins true chain_loaded =
              Done (SUCCESS, chain_unloaded,
                    [AboutToBeUnloaded (instance_of "A"); LibUnload "/p/libA.so" true;
                     AboutToBeUnloaded (instance_of "B"); LibUnload "/p/libB.so" true;
                     AboutToBeUnloaded (instance_of "C"); LibUnload "/p/libC.so" true]))
    by reflexivity.
  split; [exact E|].
  split; [exact (proj1 (destroyManager_uses_stale_load_order chain_loaded) _ _ _ _ E)|].
  split; [reflexivity|].
  apply (proj1 (proj2 (destroyManager_uses_stale_load_order stale_registry)));
    [discriminate|].
  exists "A". split; [simpl; auto|reflexivity].
Defined.

(** S1: the check of A returns within depth 3. *)
Lemma returns_when_acyclic_witness :
  acyclic_by chain_rank (pluginsMap chain_registry) /\
  exists retCode m' tr,
    checkDependencies sample_compatible 3 true "A" (pluginsMap chain_registry) =
      Done (retCode, m', tr).
Proof.
  assert (Hac : acyclic_by chain_rank (pluginsMap chain_registry)).
  { apply acyclic_check_sound. reflexivity. }
  split; [exact Hac|].
  apply (checkDependencies_returns_when_acyclic sample_compatible chain_rank true
           (pluginsMap chain_registry) "A" 3 Hac).
  - discriminate.
  - unfold chain_rank. simpl. lia.
Defined.

Ltac unflagged :=
  apply unflagged_ranked; repeat (constructor; [simpl; discriminate|]); constructor.

(** S1: loading the chain does not report a cycle. *)
Lemma never_reports_cycle_witness :
  unique_keys (pluginsMap chain_registry) /\
  ranked sample_compatible (pluginsMap chain_registry) /\
  loadPlugins sample_compatible 3 true true chain_registry =
    Done (SUCCESS, chain_loaded, chain_events) /\
  SUCCESS <> LOAD_DEPENDENCY_CYCLE.
Proof.
  assert (Hnd : unique_keys (pluginsMap chain_registry)) by distinct_keys.
  assert (Hrk : ranked sample_compatible (pluginsMap chain_registry)) by unflagged.
  assert (E : loadPlugins sample_compatible 3 true true chain_registry =
              Done (SUCCESS, chain_loaded, chain_events)) by reflexivity.
  split; [exact Hnd|]. split; [exact Hrk|]. split; [exact E|].
  exact (proj1 (loadPlugins_never_reports_cycle sample_compatible _ _ _ _ _ _ _
                  Hnd Hrk E)).
Defined.

(** S1: the chain can be loaded whatever the mode and the callback. *)
Lemma loadPlugins_returns_witness :
  unique_keys (pluginsMap chain_registry) /\
  ranked sample_compatible (pluginsMap chain_registry) /\
  acyclic_by chain_rank (pluginsMap chain_registry) /\
  exists F, forall fuel, F <= fuel ->
    exists retCode st' tr,
      loadPlugins sample_compatible fuel true false chain_registry =
        Done (retCode, st', tr) /\
      retCode <> LOAD_DEPENDENCY_CYCLE /\ (true = true -> retCode = SUCCESS).
Proof.
  assert (Hnd : unique_keys (pluginsMap chain_registry)) by distinct_keys.
  assert (Hrk : ranked sample_compatible (pluginsMap chain_registry)) by unflagged.
  assert (Hac : acyclic_by chain_rank (pluginsMap chain_registry)).
  { apply acyclic_check_sound. reflexivity. }
  split; [exact Hnd|]. split; [exact Hrk|]. split; [exact Hac|].
  apply (loadPlugins_returns_when_acyclic sample_compatible chain_rank true false
           chain_registry Hnd Hrk Hac).
  intros k p Hp _. apply find_in in Hp. simpl in Hp.
  destruct Hp as [Hp|[Hp|[Hp|[]]]]; injection Hp as <- <-; reflexivity.
Defined.

(** Searching [/p] and [/q] and loading what was found. *)
Lemma search_then_load_witness :
  acyclic_by (fun _ => 0)
    (pluginsMap
       (searchAll sample_compatible "1.0.0" sample_json_parse
          [(sample_env, "/p", false, true); (sample_env, "/q", false, true)]
          emptyManager)) /\
  exists F, forall fuel, F <= fuel ->
    exists st' tr,
      loadPlugins sample_compatible fuel true true
        (searchAll sample_compatible "1.0.0" sample_json_parse
           [(sample_env, "/p", false, true); (sample_env, "/q", false, true)]
           emptyManager) = Done (SUCCESS, st', tr) /\
      loaded_of tr = loadOrderList st'.
Proof.
  assert (Hac : acyclic_by (fun _ => 0)
                  (pluginsMap
                     (searchAll sample_compatible "1.0.0" sample_json_parse
                        [(sample_env, "/p", false, true);
                         (sample_env, "/q", false, true)]
                        emptyManager))).
  { apply acyclic_check_sound. reflexivity. }
  split; [exact Hac|].
  destruct (search_then_load_succeeds sample_compatible "1.0.0" sample_json_parse
              [(sample_env, "/p", false, true); (sample_env, "/q", false, true)]
              (fun _ => 0) true Hac) as (F & HF).
  exists F. intros fuel Hfuel. destruct (HF fuel Hfuel) as (st' & tr & E & Hl & _).
  exists st', tr. split; [exact E|exact Hl].
Defined.

(** S2: the first check of A changes only the flag of A. *)
Lemma decides_flags_witness :
  checkDependencies sample_compatible 1 true "A" (pluginsMap missing_registry) =
    Done (LOAD_DEPENDENCY_NOT_FOUND, pluginsMap missing_checked, missing_events) /\
  evolves (pluginsMap missing_registry) (pluginsMap missing_checked) /\
  flag (pluginsMap missing_checked) "A" = Some TriFalse.
Proof.
  assert (E : checkDependencies sample_compatible 1 true "A"
                (pluginsMap missing_registry) =
              Done (LOAD_DEPENDENCY_NOT_FOUND, pluginsMap missing_checked,
                    missing_events)) by reflexivity.
  destruct (checkDependencies_decides_flags sample_compatible _ _ _ _ _ _ _ E)
    as (Hev & _).
  split; [exact E|]. split; [exact Hev|reflexivity].
Defined.

(** Searching [/p] a second time finds nothing new. *)
Lemma search_twice_witness :
  searchForPlugins sample_compatible "1.0.0" sample_json_parse sample_env "/p"
    false true emptyManager =
    (SUCCESS, found_in_p,
     [LibLoad "/p/libA.so"; LibLoad "/p/copyA.so";
      Callback SEARCH_NAME_ALREADY_EXISTS (Some "/p/copyA.so");
      LibUnload "/p/copyA.so" true]) /\
  exists retCode2 tr2,
    searchForPlugins sample_compatible "1.0.0" sample_json_parse sample_env "/p"
      false false found_in_p = (retCode2, found_in_p, tr2) /\
    (retCode2 = SEARCH_NOTHING_FOUND \/ retCode2 = SEARCH_LISTFILES_ERROR).
Proof.
  assert (E : searchForPlugins sample_compatible "1.0.0" sample_json_parse sample_env
                "/p" false true emptyManager =
              (SUCCESS, found_in_p,
               [LibLoad "/p/libA.so"; LibLoad "/p/copyA.so";
                Callback SEARCH_NAME_ALREADY_EXISTS (Some "/p/copyA.so");
                LibUnload "/p/copyA.so" true])) by reflexivity.
  split; [exact E|].
  destruct (searchForPlugins_twice sample_compatible "1.0.0" sample_json_parse
              sample_env "/p" false true false emptyManager _ _ _ E)
    as (rc2 & tr2 & E2 & Hrc & _).
  exists rc2, tr2. split; [exact E2|exact Hrc].
Defined.



(** S1: the loaded chain can be unloaded. *)
Lemma load_then_unload_witness :
  unique_keys (pluginsMap chain_registry) /\
  loadPlugins sample_compatible 3 true true chain_registry =
    Done (SUCCESS, chain_loaded, chain_events) /\
  exists retCode st'' tr',
    unloadPlugins false chain_loaded = Done (retCode, st'', tr') /\
    pluginsMap st'' = [].
Proof.
  assert (Hnd : unique_keys (pluginsMap chain_registry)) by distinct_keys.
  assert (E : loadPlugins sample_compatible 3 true true chain_registry =
              Done (SUCCESS, chain_loaded, chain_events)) by reflexivity.
  split; [exact Hnd|]. split; [exact E|].
  destruct (load_then_unload_returns sample_compatible 3 true true false
              chain_registry chain_loaded chain_events Hnd E)
    as (rc & st'' & tr' & Eu & Hm & _).
  exists rc, st'', tr'. split; [exact Eu|exact Hm].
Defined.

